(** * Intelli-Therm: predictive cabin-heater control

    A shallow embedding of [intelli_therm_model.py]: the feature builder,
    the target builder, the trip partitioner, the control policy and the
    trip simulator, together with the properties the specification states
    about them.

    Numeric model.  A pandas float64 entry is a [cell]: [Some x] for a
    number [x] (a real: rounding of binary64 arithmetic is abstracted away)
    and [None] for NaN, the missing value that [diff], [shift], [isna],
    [fillna], [bfill] and [dropna] produce and consume.  The one place where
    the source turns a float into an integer, the 70 % trip split, is
    modelled bit for bit with binary64 primitives, because truncation makes
    the rounding of the product observable. *)

From Stdlib Require Import String Ascii DecimalString DecimalNat.
From Stdlib Require Import PrimFloat SpecFloat FloatOps Uint63.
From Stdlib Require Import Reals Lra Lia Bool Arith NArith ZArith List.
From Stdlib Require Import Permutation Sorted.
Import ListNotations.
Open Scope R_scope.

Set Implicit Arguments.

(* ================================================================= *)
(** ** Cells, series and data frames *)

Definition cell := option R.

Definition cmul (a b : cell) : cell :=
  match a, b with
  | Some x, Some y => Some (x * y)
  | _, _ => None
  end.

Definition csub (a b : cell) : cell :=
  match a, b with
  | Some x, Some y => Some (x - y)
  | _, _ => None
  end.

Definition isna (a : cell) : bool :=
  match a with
  | Some _ => false
  | None => true
  end.

Definition fillna (d : R) (a : cell) : cell :=
  match a with
  | Some x => Some x
  | None => Some d
  end.

(** A pandas Series indexed by channel name. *)
Definition series := list (string * cell).

Fixpoint lookup (A : Type) (k : string) (s : list (string * A)) : option A :=
  match s with
  | [] => None
  | (k', v) :: s' => if String.eqb k k' then Some v else lookup k s'
  end.

Definition has_key (A : Type) (k : string) (s : list (string * A)) : bool :=
  existsb (String.eqb k) (map fst s).

(** A numeric data frame: its index (a row count) and its columns in order. *)
Record dataframe := mkDataFrame {
  nrows : nat;
  data : list (string * list cell)
}.

Definition columns (f : dataframe) : list string := map fst (data f).

Definition has_col (c : string) (f : dataframe) : bool := has_key c (data f).

Definition get_col (f : dataframe) (c : string) : list cell :=
  match lookup c (data f) with
  | Some col => col
  | None => []
  end.

(** [df[c] = col]: overwrite the column if it exists, append it otherwise. *)
Fixpoint assign (A : Type) (c : string) (col : A) (d : list (string * A))
  : list (string * A) :=
  match d with
  | [] => [(c, col)]
  | (c', col') :: d' =>
      if String.eqb c c' then (c, col) :: d' else (c', col') :: assign c col d'
  end.

Definition set_col (f : dataframe) (c : string) (col : list cell) : dataframe :=
  {| nrows := nrows f; data := assign c col (data f) |}.

(** Row [i] of a frame, as [iterrows] yields it. *)
Definition row_at (f : dataframe) (i : nat) : series :=
  map (fun '(c, col) => (c, nth i col None)) (data f).

Definition rows (f : dataframe) : list series :=
  map (row_at f) (seq 0 (nrows f)).

(* ================================================================= *)
(** ** Strings: the subset of [str] the source uses *)

(** ['pat' in s] *)
Definition contains (pat s : string) : bool :=
  match String.index 0 pat s with
  | Some _ => true
  | None => false
  end.

(** [s.split(pat)[0]] *)
Definition split_first (pat s : string) : string :=
  match String.index 0 pat s with
  | Some i => String.substring 0 i s
  | None => s
  end.

(* ================================================================= *)
(** ** 5. Intelligent control algorithm *)

Inductive vehicle_data :=
| Series (s : series)
| DataFrame (f : dataframe).

(** [pd.DataFrame([series])] *)
Definition frame_of_series (s : series) : dataframe :=
  {| nrows := 1; data := map (fun '(c, v) => (c, [v])) s |}.

(** [vehicle_data] after the conversion of a Series to a one-row frame. *)
Definition frame_of (vd : vehicle_data) : dataframe :=
  match vd with
  | Series s => frame_of_series s
  | DataFrame f => f
  end.

Definition prepare_features_for_prediction
  (vd : vehicle_data) (feature_list : list string) : dataframe :=
  let vehicle_data := frame_of vd in
  fold_left
    (fun features_df feature =>
       if has_col feature vehicle_data then
         set_col features_df feature (get_col vehicle_data feature)
       else if contains "_lag" feature then
         let base_feature := split_first "_lag" feature in
         if has_col base_feature vehicle_data then
           set_col features_df feature (get_col vehicle_data base_feature)
         else features_df
       else
         set_col features_df feature (repeat (Some 0) (nrows vehicle_data)))
    feature_list
    {| nrows := nrows vehicle_data; data := [] |}.

(** [c in vehicle_data]: an index label of a Series, a column of a frame. *)
Definition has_channel (c : string) (vd : vehicle_data) : bool :=
  match vd with
  | Series s => has_key c s
  | DataFrame f => has_col c f
  end.

(** A fitted regressor maps one feature vector to a predicted load;
    [model.predict] maps it over the rows of the frame. *)
Definition regressor := series -> R.

Definition predict (model : regressor) (X : dataframe) : list R :=
  map model (rows X).

Definition status_reduce : string :=
  "Reducing heater power by 15% due to predicted high power demand".

Definition status_maintain : string :=
  "Maintaining normal heater power".

(** Step 3 of [run_intelli_therm]: the baseline heater power.  [None] is the
    [IndexError] of [.iloc[0]] on a frame with no rows. *)
Definition base_heater_power (vd : vehicle_data) : option cell :=
  if has_channel "heater_power_W" vd then
    match vd with
    | Series s => lookup "heater_power_W" s
    | DataFrame f => nth_error (get_col f "heater_power_W") 0
    end
  else Some (Some 1000).

(** Step 4 of [run_intelli_therm]: the decision. *)
Definition decide (predicted_load high_power_threshold : R)
  (base_heater_power : cell) : cell * string :=
  if Rlt_dec high_power_threshold predicted_load
  then (cmul base_heater_power (Some 0.85), status_reduce)
  else (base_heater_power, status_maintain).

(** Step 2: [model.predict(current_features)[0]]. *)
Definition predicted_load_of (vd : vehicle_data) (model : regressor)
  (feature_list : list string) : option R :=
  nth_error (predict model (prepare_features_for_prediction vd feature_list)) 0.

Definition run_intelli_therm (vd : vehicle_data) (model : regressor)
  (high_power_threshold : R) (feature_list : list string)
  : option (cell * string * R) :=
  match predicted_load_of vd model feature_list with
  | None => None
  | Some predicted_load =>
      match base_heater_power vd with
      | None => None
      | Some base =>
          let '(new_heater_power, status) :=
            decide predicted_load high_power_threshold base in
          Some (new_heater_power, status, predicted_load)
      end
  end.

(* ================================================================= *)
(** ** Column operations of pandas and numpy *)

Fixpoint map2 (A B C : Type) (f : A -> B -> C) (l : list A) (l' : list B)
  : list C :=
  match l, l' with
  | a :: t, b :: t' => f a b :: map2 f t t'
  | _, _ => []
  end.

(** [col.diff()] *)
Definition diff (col : list cell) : list cell :=
  match col with
  | [] => []
  | _ :: rest => None :: map2 csub rest col
  end.

(** [col.shift(periods)]: values move down for a positive period and up for
    a negative one; the vacated entries are NaN. *)
Definition shift (periods : Z) (col : list cell) : list cell :=
  let n := length col in
  if (0 <=? periods)%Z
  then firstn n (repeat None (Z.to_nat periods) ++ col)
  else skipn (Z.to_nat (- periods)) col
         ++ repeat None (Nat.min (Z.to_nat (- periods)) n).

(** [col.bfill()]: a NaN takes the next value below it that is not NaN. *)
Fixpoint bfill (col : list cell) : list cell :=
  match col with
  | [] => []
  | a :: rest =>
      let rest' := bfill rest in
      match a with
      | Some _ => a :: rest'
      | None => hd None rest' :: rest'
      end
  end.

Definition cdiv (a b : cell) : cell :=
  match a, b with
  | Some x, Some y => Some (x / y)
  | _, _ => None
  end.

(** One entry of
    [np.where((time_diff != 0) & (~time_diff.isna()), num / time_diff, 0)]. *)
Definition guarded_rate (num time_diff : cell) : cell :=
  match time_diff with
  | Some d => if Req_dec_T d 0 then Some 0 else cdiv num (Some d)
  | None => Some 0
  end.

(** The numbers of a column, NaN skipped (the [skipna] default). *)
Fixpoint valid (col : list cell) : list R :=
  match col with
  | [] => []
  | Some x :: rest => x :: valid rest
  | None :: rest => valid rest
  end.

Definition sum (l : list R) : R := fold_right Rplus 0 l.

(** [col.sum()] *)
Definition csum (col : list cell) : R := sum (valid col).

(** [col.mean()]: NaN when the column holds no number. *)
Definition mean (col : list cell) : cell :=
  match valid col with
  | [] => None
  | v => Some (sum v / INR (length v))
  end.

(** [col.std()]: the sample standard deviation (ddof = 1), NaN when the
    column holds fewer than two numbers. *)
Definition std (col : list cell) : cell :=
  match mean col with
  | None => None
  | Some m =>
      let v := valid col in
      if (length v <? 2)%nat then None
      else Some (sqrt (sum (map (fun x => (x - m) * (x - m)) v)
                       / INR (length v - 1)))
  end.

(** [col[col > hi] = hi] and [col[col < lo] = lo]; a comparison with NaN is
    false, so NaN entries stay. *)
Definition clip_upper (hi : R) (a : cell) : cell :=
  match a with
  | Some x => if Rlt_dec hi x then Some hi else Some x
  | None => None
  end.

Definition clip_lower (lo : R) (a : cell) : cell :=
  match a with
  | Some x => if Rlt_dec x lo then Some lo else Some x
  | None => None
  end.

(** The clean-up of extreme values in [create_rate_of_change_features]. *)
Definition clip_3sigma (col : list cell) : list cell :=
  match std col with
  | Some s =>
      if Rlt_dec 0 s then
        match mean col with
        | Some m =>
            map (clip_lower (m - 3 * s)) (map (clip_upper (m + 3 * s)) col)
        | None => col
        end
      else col
  | None => col
  end.

(** The two rate-of-change features of one trip, from the columns of its
    frame. *)
Definition raw_acceleration (time speed_kmh : list cell) : list cell :=
  let speed_ms := map (fun v => cdiv v (Some 3.6)) speed_kmh in
  map2 guarded_rate (diff speed_ms) (diff time).

Definition acceleration_ms2 (time speed_kmh : list cell) : list cell :=
  clip_3sigma (raw_acceleration time speed_kmh).

(** The throttle part does not take the difference of the time stamps
    itself: it divides by the column [time_diff] of the frame, which the
    speed part writes and which is absent, or left over from the input,
    on a trip without a speed channel. *)
Definition raw_throttle_rate (time_diff throttle : list cell) : list cell :=
  map2 guarded_rate (diff throttle) time_diff.

Definition throttle_change_rate (time_diff throttle : list cell)
  : list cell :=
  clip_3sigma (raw_throttle_rate time_diff throttle).

(** A lag column of [create_lagged_features]: [shift(lag)], then the
    [bfill] that the function applies to the whole trip frame. *)
Definition lag_column (lag : nat) (feature : list cell) : list cell :=
  bfill (shift (Z.of_nat lag) feature).

(** A target column of [create_target_variables]: [shift(-horizon)]. *)
Definition future_load (horizon : nat) (powertrain_load_W : list cell)
  : list cell :=
  shift (- Z.of_nat horizon) powertrain_load_W.

(* ================================================================= *)
(** ** Telemetry tables *)

(** The unified telemetry table: the trip identifier of every row and the
    numeric channels, column by column.  Every column has one entry per
    row. *)
Record table := mkTable {
  trip_id : list string;
  cols : list (string * list cell)
}.

Definition len (t : table) : nat := length (trip_id t).

(** [df.empty] *)
Definition empty (t : table) : bool :=
  match trip_id t with
  | [] => true
  | _ :: _ => false
  end.

(** [c in df.columns] *)
Definition in_columns (c : string) (t : table) : bool :=
  String.eqb c "trip_id" || has_key c (cols t).

(** [df.columns] *)
Definition column_names (t : table) : list string :=
  map fst (cols t) ++ ["trip_id"%string].

(** [df[c]] for a numeric channel that is present. *)
Definition column (t : table) (c : string) : list cell :=
  match lookup c (cols t) with
  | Some col => col
  | None => []
  end.

Definition with_column (c : string) (col : list cell) (t : table) : table :=
  {| trip_id := trip_id t; cols := assign c col (cols t) |}.

Fixpoint mask_filter (A : Type) (mask : list bool) (l : list A) : list A :=
  match mask, l with
  | b :: mask', x :: l' =>
      if b then x :: mask_filter mask' l' else mask_filter mask' l'
  | _, _ => []
  end.

(** [df[mask]] *)
Definition select (mask : list bool) (t : table) : table :=
  {| trip_id := mask_filter mask (trip_id t);
     cols := map (fun '(c, col) => (c, mask_filter mask col)) (cols t) |}.

(** [df[df['trip_id'] == trip]] *)
Definition select_trip (trip : string) (t : table) : table :=
  select (map (String.eqb trip) (trip_id t)) t.

(** [ids.unique()]: the distinct values in order of first appearance. *)
Fixpoint unique (l : list string) : list string :=
  match l with
  | [] => []
  | x :: l' => x :: filter (fun y => negb (String.eqb x y)) (unique l')
  end.

(** Order of [sort_values] on a float column: numbers ascending, NaN last. *)
Definition cell_le (a b : cell) : bool :=
  match a, b with
  | Some x, Some y => if Rle_dec x y then true else false
  | Some _, None => true
  | None, Some _ => false
  | None, None => true
  end.

Fixpoint insert_by (key : nat -> cell) (i : nat) (l : list nat) : list nat :=
  match l with
  | [] => [i]
  | j :: l' =>
      if cell_le (key i) (key j) then i :: l else j :: insert_by key i l'
  end.

(** The row order that sorting by [col] gives: numbers ascending, NaN
    rows last in their original order.  pandas sorts with quicksort by
    default, which may leave rows with equal numbers either way round;
    here they keep their relative order.  The choice plays no part where
    the numbers of the column are pairwise distinct: the order is then
    the only one possible (lemma [sort_order_unique]). *)
Definition argsort (col : list cell) : list nat :=
  fold_right (insert_by (fun i => nth i col None)) [] (seq 0 (length col)).

(** [df.sort_values(c).reset_index(drop=True)] *)
Definition sort_values (c : string) (t : table) : table :=
  let order := argsort (column t c) in
  {| trip_id := map (fun i => nth i (trip_id t) ""%string) order;
     cols := map (fun '(n, col) => (n, map (fun i => nth i col None) order))
               (cols t) |}.

(** [pd.concat(ts, ignore_index=True)]: the columns are the union of the
    frames' columns in order of first appearance; a frame that lacks a
    column contributes NaN. *)
Definition concat (ts : list table) : table :=
  {| trip_id := flat_map trip_id ts;
     cols :=
       map (fun c =>
              (c, flat_map (fun t => match lookup c (cols t) with
                                     | Some col => col
                                     | None => repeat None (len t)
                                     end) ts))
           (unique (flat_map (fun t => map fst (cols t)) ts)) |}.

(** [df.bfill()] *)
Definition bfill_table (t : table) : table :=
  {| trip_id := trip_id t;
     cols := map (fun '(c, col) => (c, bfill col)) (cols t) |}.

(** Row [i] survives [dropna(subset)] when none of the subset's columns is
    NaN there. *)
Definition notna_at (t : table) (subset : list string) (i : nat) : bool :=
  forallb (fun c => negb (isna (nth i (column t c) None))) subset.

(** [df.dropna(subset=subset)] *)
Definition dropna (subset : list string) (t : table) : table :=
  select (map (notna_at t subset) (seq 0 (len t))) t.

(** The numeric channels of row [i]. *)
Definition table_row (t : table) (i : nat) : series :=
  map (fun '(c, col) => (c, nth i col None)) (cols t).

(** [s.lower()] on ASCII letters. *)
Definition lower_ascii (c : ascii) : ascii :=
  let n := nat_of_ascii c in
  if ((65 <=? n) && (n <=? 90))%nat then ascii_of_nat (n + 32) else c.

Fixpoint lower (s : string) : string :=
  match s with
  | EmptyString => EmptyString
  | String c s' => String (lower_ascii c) (lower s')
  end.

(** [str(n)] *)
Definition str (n : nat) : string := NilEmpty.string_of_uint (Nat.to_uint n).

(** [f"{feature}_lag{lag}"] and [f"future_load_W_{horizon}s"] *)
Definition lag_col_name (feature : string) (lag : nat) : string :=
  (feature ++ "_lag" ++ str lag)%string.

Definition target_col_name (horizon : nat) : string :=
  ("future_load_W_" ++ str horizon ++ "s")%string.

(* ================================================================= *)
(** ** The object store

    A Python variable holds a reference to a DataFrame object; an
    assignment [df[c] = ...] changes the object every alias sees, while
    [df.copy()], [df[mask]], [sort_values], [bfill], [dropna] and
    [pd.concat] build a new object.  The functions of section 3 and the
    target builder are written against this store. *)

Definition ref := nat.

Definition heap := list table.

Inductive outcome (A : Type) : Type :=
| Ok (a : A)
| KeyError (key : string).

Arguments KeyError {A} key.

(** A computation on the store; a raised exception keeps the store as it
    was when it was raised. *)
Definition M (A : Type) : Type := heap -> outcome A * heap.

Definition ret (A : Type) (a : A) : M A := fun h => (Ok a, h).

Definition raise (A : Type) (key : string) : M A := fun h => (KeyError key, h).

Arguments raise {A} key.

Definition bind (A B : Type) (m : M A) (k : A -> M B) : M B :=
  fun h =>
    match m h with
    | (Ok a, h') => k a h'
    | (KeyError e, h') => (KeyError e, h')
    end.

Notation "x <- m ;; k" := (bind m (fun x => k))
  (at level 61, m at next level, right associativity).
Notation "m ;; k" := (bind m (fun _ => k))
  (at level 61, right associativity).

Definition no_table : table := {| trip_id := []; cols := [] |}.

(** The object a reference points to. *)
Definition deref (h : heap) (r : ref) : table := nth r h no_table.

Definition read (r : ref) : M table := fun h => (Ok (deref h r), h).

(** A new object; its reference is the next free one. *)
Definition new (t : table) : M ref := fun h => (Ok (length h), h ++ [t]).

Fixpoint update_nth (A : Type) (n : nat) (a : A) (l : list A) : list A :=
  match l, n with
  | [], _ => []
  | _ :: l', O => a :: l'
  | x :: l', S n' => x :: update_nth n' a l'
  end.

Definition write (r : ref) (t : table) : M unit :=
  fun h => (Ok tt, update_nth r t h).

(** [df.copy()] *)
Definition copy (r : ref) : M ref := t <- read r ;; new t.

(** [df[c]] *)
Definition getcol (r : ref) (c : string) : M (list cell) :=
  t <- read r ;;
  match lookup c (cols t) with
  | Some col => ret col
  | None => raise c
  end.

(** [df[c] = col] *)
Definition setcol (r : ref) (c : string) (col : list cell) : M unit :=
  t <- read r ;; write r (with_column c col t).

Fixpoint for_each (A B : Type) (body : A -> M B) (l : list A) : M (list B) :=
  match l with
  | [] => ret []
  | a :: l' => b <- body a ;; bs <- for_each body l' ;; ret (b :: bs)
  end.

(** The frames a loop appended; [None] marks an iteration that hit
    [continue]. *)
Fixpoint appended (A : Type) (l : list (option A)) : list A :=
  match l with
  | [] => []
  | Some a :: l' => a :: appended l'
  | None :: l' => appended l'
  end.

(** [pd.concat(processed_dfs, ignore_index=True)] *)
Definition concat_refs (rs : list ref) : M ref :=
  ts <- for_each read rs ;; new (concat ts).

(** ['time_s' if 'time_s' in df.columns else 'timestamp'] *)
Definition time_col_of (t : table) : string :=
  if in_columns "time_s" t then "time_s"%string else "timestamp"%string.

(** [[col for col in df.columns if p(col)]], first element if any. *)
Definition first_column (p : string -> bool) (t : table) : option string :=
  hd_error (filter p (column_names t)).

(* ================================================================= *)
(** ** 3. Feature engineering *)

Section PowertrainLoad.

(** [Series.quantile(q)] of pandas, kept abstract. *)
Variable quantile : R -> list cell -> cell.

Definition voltage_col_of (t : table) : option string :=
  if in_columns "battery_voltage_V" t then Some "battery_voltage_V"%string
  else first_column (fun col => contains "voltage" (lower col)
                                && contains "battery" (lower col)) t.

Definition current_col_of (t : table) : option string :=
  if in_columns "battery_current_A" t then Some "battery_current_A"%string
  else first_column (fun col => contains "current" (lower col)
                                && contains "battery" (lower col)) t.

Definition create_powertrain_load_feature (df : ref) : M (option cell) :=
  t <- read df ;;
  match voltage_col_of t, current_col_of t with
  | Some voltage_col, Some current_col =>
      v <- getcol df voltage_col ;;
      c <- getcol df current_col ;;
      setcol df "powertrain_load_W" (map2 cmul v c) ;;
      t' <- read df ;;
      sample_trip_df <- new (select_trip "A01" t') ;;
      sample <- read sample_trip_df ;;
      if negb (empty sample) then
        getcol sample_trip_df (time_col_of sample) ;;
        getcol sample_trip_df "powertrain_load_W" ;;
        getcol df "powertrain_load_W" ;;
        load <- getcol df "powertrain_load_W" ;;
        ret (Some (quantile 0.90 load))
      else ret None
  | _, _ => ret None
  end.

End PowertrainLoad.

Definition throttle_col_of (t : table) : option string :=
  if in_columns "throttle_pedal_%" t then Some "throttle_pedal_%"%string
  else first_column (fun col => contains "throttle" (lower col)) t.

(** The body of the loop of [create_rate_of_change_features] for one trip:
    the frame to append, or [None] when the iteration is skipped. *)
Definition rate_of_change_trip (df_engineering : ref) (trip : string)
  : M (option ref) :=
  t <- read df_engineering ;;
  trip_df <- new (select_trip trip t) ;;
  tv <- read trip_df ;;
  if empty tv then ret None
  else
    let time_col := time_col_of tv in
    if negb (in_columns time_col tv) then ret (Some trip_df)
    else
      trip_df <- new (sort_values time_col tv) ;;
      tv <- read trip_df ;;
      (if in_columns "speed_kmh" tv then
         speed_kmh <- getcol trip_df "speed_kmh" ;;
         setcol trip_df "speed_ms"
           (map (fun v => cdiv v (Some 3.6)) speed_kmh) ;;
         speed_ms <- getcol trip_df "speed_ms" ;;
         setcol trip_df "speed_diff" (diff speed_ms) ;;
         time <- getcol trip_df time_col ;;
         setcol trip_df "time_diff" (diff time) ;;
         speed_diff <- getcol trip_df "speed_diff" ;;
         time_diff <- getcol trip_df "time_diff" ;;
         setcol trip_df "acceleration_ms2"
           (map2 guarded_rate speed_diff time_diff) ;;
         acc <- getcol trip_df "acceleration_ms2" ;;
         setcol trip_df "acceleration_ms2" (clip_3sigma acc)
       else ret tt) ;;
      tv <- read trip_df ;;
      match throttle_col_of tv with
      | Some throttle_col =>
          throttle <- getcol trip_df throttle_col ;;
          setcol trip_df "throttle_change" (diff throttle) ;;
          throttle_change <- getcol trip_df "throttle_change" ;;
          time_diff <- getcol trip_df "time_diff" ;;
          setcol trip_df "throttle_change_rate"
            (map2 guarded_rate throttle_change time_diff) ;;
          rate <- getcol trip_df "throttle_change_rate" ;;
          setcol trip_df "throttle_change_rate" (clip_3sigma rate) ;;
          ret (Some trip_df)
      | None => ret (Some trip_df)
      end.

Definition create_rate_of_change_features (df : ref) : M ref :=
  df_engineering <- copy df ;;
  t <- read df_engineering ;;
  let trip_ids := unique (trip_id t) in
  processed <- for_each (rate_of_change_trip df_engineering) trip_ids ;;
  match appended processed with
  | [] => ret df
  | processed_dfs => concat_refs processed_dfs
  end.

Definition lag_periods : list nat := [1; 2; 3; 5; 10]%nat.

(** The features [create_lagged_features] makes lags of. *)
Definition lag_features_of (t : table) : list string :=
  (if in_columns "powertrain_load_W" t then ["powertrain_load_W"%string] else [])
  ++ (if in_columns "speed_kmh" t then ["speed_kmh"%string] else [])
  ++ (if in_columns "acceleration_ms2" t then ["acceleration_ms2"%string] else [])
  ++ match (if in_columns "throttle_pedal_%" t then Some "throttle_pedal_%"%string
            else first_column (fun col => contains "throttle" (lower col)
                                          && contains "%" col) t) with
     | Some throttle_col => [throttle_col]
     | None => []
     end.

Definition lagged_trip (lag_features : list string) (df_engineering : ref)
  (trip : string) : M (option ref) :=
  t <- read df_engineering ;;
  trip_df <- new (select_trip trip t) ;;
  tv <- read trip_df ;;
  if empty tv then ret None
  else
    let time_col := time_col_of tv in
    trip_df <- (if in_columns time_col tv
                then new (sort_values time_col tv)
                else ret trip_df) ;;
    for_each
      (fun feature =>
         tv <- read trip_df ;;
         if in_columns feature tv then
           for_each
             (fun lag =>
                col <- getcol trip_df feature ;;
                setcol trip_df (lag_col_name feature lag)
                  (shift (Z.of_nat lag) col))
             lag_periods ;;
           ret tt
         else ret tt)
      lag_features ;;
    tv <- read trip_df ;;
    trip_df <- new (bfill_table tv) ;;
    ret (Some trip_df).

Definition create_lagged_features (df : ref) : M ref :=
  t <- read df ;;
  if empty t then ret df
  else
    match lag_features_of t with
    | [] => ret df
    | lag_features =>
        df_engineering <- copy df ;;
        t <- read df_engineering ;;
        processed <-
          for_each (lagged_trip lag_features df_engineering)
            (unique (trip_id t)) ;;
        match appended processed with
        | [] => ret df
        | processed_dfs => concat_refs processed_dfs
        end
    end.

(* ================================================================= *)
(** ** 4. Model building *)

Definition target_trip (future_horizons : list nat) (df_model : ref)
  (trip : string) : M (option ref) :=
  t <- read df_model ;;
  trip_df <- new (select_trip trip t) ;;
  tv <- read trip_df ;;
  if empty tv then ret None
  else
    let time_col := time_col_of tv in
    trip_df <- (if in_columns time_col tv
                then new (sort_values time_col tv)
                else ret trip_df) ;;
    for_each
      (fun horizon =>
         load <- getcol trip_df "powertrain_load_W" ;;
         setcol trip_df (target_col_name horizon) (future_load horizon load))
      future_horizons ;;
    ret (Some trip_df).

Definition create_target_variables (df : ref) (future_horizons : list nat)
  : M ref :=
  t <- read df ;;
  if empty t || negb (in_columns "powertrain_load_W" t) then ret df
  else
    df_model <- copy df ;;
    t <- read df_model ;;
    match unique (trip_id t) with
    | [] => ret df
    | trip_ids =>
        processed <- for_each (target_trip future_horizons df_model) trip_ids ;;
        match appended processed with
        | [] => ret df
        | processed_dfs =>
            result_df <- concat_refs processed_dfs ;;
            let target_cols := map target_col_name future_horizons in
            r <- read result_df ;;
            new (dropna target_cols r)
        end
    end.

(** [int(x)] for a binary64 [x]: truncation toward zero. *)
Definition int_of_float (x : float) : Z :=
  match Prim2SF x with
  | S754_finite negative m e =>
      let magnitude :=
        if (0 <=? e)%Z then Z.shiftl (Zpos m) e else Z.shiftr (Zpos m) (- e) in
      if negative then (- magnitude)%Z else magnitude
  | _ => 0%Z
  end.

(** [float(n)] for a length [n]. *)
Definition float_of_nat (n : nat) : float :=
  PrimFloat.of_uint63 (Uint63.of_Z (Z.of_nat n)).

(** [max(1, int(len(sorted_trip_ids) * 0.7))], the product being the
    binary64 one. *)
Definition split_idx (n : nat) : nat :=
  Nat.max 1 (Z.to_nat (int_of_float (PrimFloat.mul (float_of_nat n)
                                       0x1.6666666666666p-1%float))).

(** [sorted(ids)] on strings: insertion into ascending code-point order. *)
Fixpoint insert_sorted (x : string) (l : list string) : list string :=
  match l with
  | [] => [x]
  | y :: l' => if String.leb x y then x :: l else y :: insert_sorted x l'
  end.

Definition sorted (l : list string) : list string :=
  fold_right insert_sorted [] l.

(** [ids.isin(group)] *)
Definition isin (group : list string) (ids : list string) : list bool :=
  map (fun id => existsb (String.eqb id) group) ids.

(** The train and test trip identifiers of [prepare_data_for_modeling],
    from the distinct identifiers of the valid rows. *)
Definition split_trip_ids (valid_trip_ids : list string)
  : list string * list string :=
  if (length valid_trip_ids <? 2)%nat then (valid_trip_ids, valid_trip_ids)
  else
    let sorted_trip_ids := sorted valid_trip_ids in
    let split_idx := split_idx (length sorted_trip_ids) in
    (firstn split_idx sorted_trip_ids, skipn split_idx sorted_trip_ids).

Record modeling_data := mkModelingData {
  X_train : dataframe;
  X_test : dataframe;
  y_train : list cell;
  y_test : list cell;
  train_trip_ids : list string;
  test_trip_ids : list string;
  all_features : list string;
  target_column : string
}.

(** [X[mask]] *)
Definition select_frame (mask : list bool) (X : dataframe) : dataframe :=
  {| nrows := length (mask_filter mask (seq 0 (nrows X)));
     data := map (fun '(c, col) => (c, mask_filter mask col)) (data X) |}.

(** The base features [prepare_data_for_modeling] wishes for. *)
Definition base_features_of (df : table) : list string :=
  ["powertrain_load_W"%string]
  ++ (if in_columns "speed_kmh" df then ["speed_kmh"%string] else [])
  ++ (if in_columns "acceleration_ms2" df then ["acceleration_ms2"%string] else [])
  ++ (if in_columns "throttle_pedal_%" df then ["throttle_pedal_%"%string]
      else match first_column (fun col => contains "throttle" (lower col)) df with
           | Some c => [c]
           | None => []
           end)
  ++ (if in_columns "ambient_temperature_C" df then ["ambient_temperature_C"%string]
      else match first_column (fun col => contains "temp" (lower col)
                                          && contains "ambient" (lower col)) df with
           | Some c => [c]
           | None => []
           end)
  ++ (if in_columns "heater_power_W" df then ["heater_power_W"%string] else [])
  ++ (if in_columns "throttle_change_rate" df then ["throttle_change_rate"%string] else []).

(** [None] stands for the tuple of eight [None] the source returns. *)
Definition prepare_data_for_modeling (df : table) (prediction_horizon : nat)
  : option modeling_data :=
  if empty df then None
  else if negb (in_columns "powertrain_load_W" df) then None
  else
    let target_column := target_col_name prediction_horizon in
    if negb (in_columns target_column df) then None
    else
      let base_features := base_features_of df in
      let lag_features :=
        flat_map (fun feature =>
                    filter (fun lag_col => in_columns lag_col df)
                      (map (lag_col_name feature) [1; 2; 3; 5]%nat))
          base_features in
      let available_base_features :=
        filter (fun f => in_columns f df) base_features in
      let available_lag_features :=
        filter (fun f => in_columns f df) lag_features in
      let all_features := available_base_features ++ available_lag_features in
      match all_features with
      | [] => None
      | _ =>
          let X := {| nrows := len df;
                      data := map (fun c => (c, column df c)) all_features |} in
          let y := column df target_column in
          let valid_mask :=
            map (fun i => negb (existsb (fun '(_, col) => isna (nth i col None))
                                  (data X)
                                || isna (nth i y None)))
              (seq 0 (len df)) in
          let X := select_frame valid_mask X in
          let y := mask_filter valid_mask y in
          if (nrows X =? 0)%nat then None
          else
            let valid_ids := mask_filter valid_mask (trip_id df) in
            let valid_trip_ids := unique valid_ids in
            let '(train_trip_ids, test_trip_ids) :=
              split_trip_ids valid_trip_ids in
            if (length valid_trip_ids <? 2)%nat then
              Some {| X_train := X; X_test := X; y_train := y; y_test := y;
                      train_trip_ids := train_trip_ids;
                      test_trip_ids := test_trip_ids;
                      all_features := all_features;
                      target_column := target_column |}
            else
              let train_mask := isin train_trip_ids valid_ids in
              let test_mask := isin test_trip_ids valid_ids in
              Some {| X_train := select_frame train_mask X;
                      X_test := select_frame test_mask X;
                      y_train := mask_filter train_mask y;
                      y_test := mask_filter test_mask y;
                      train_trip_ids := train_trip_ids;
                      test_trip_ids := test_trip_ids;
                      all_features := all_features;
                      target_column := target_column |}
      end.

(* ================================================================= *)
(** ** 6. Validation and results *)

(** [col.diff().fillna(0)] *)
Definition time_diff_of (time : list cell) : list cell :=
  map (fillna 0) (diff time).

(** The heater energy in joules of a run: [(power * time_diff).sum()]. *)
Definition heater_energy (power time_diff : list cell) : R :=
  csum (map2 cmul power time_diff).

(** All results of the loop, or [None] when one call raised. *)
Fixpoint all_results (A : Type) (l : list (option A)) : option (list A) :=
  match l with
  | [] => Some []
  | Some a :: l' =>
      match all_results l' with
      | Some r => Some (a :: r)
      | None => None
      end
  | None :: l' => None
  end.

(** The frame the simulator replays: the rows of the test trip, with the
    default heater power of 2 kW when the channel is absent. *)
Definition test_trip_of (df : table) (test_trip_ids : list string) : table :=
  let test_trip_id :=
    match test_trip_ids with
    | id :: _ => id
    | [] => "B30"%string
    end in
  let test_trip_df := select_trip test_trip_id df in
  if in_columns "heater_power_W" test_trip_df then test_trip_df
  else with_column "heater_power_W" (repeat (Some 2000) (len test_trip_df))
         test_trip_df.

(** The column [optimized_heater_power_W]: the policy's answer for every
    row of the trip, in order. *)
Definition optimized_heater_power (test_trip_df : table) (model : regressor)
  (high_power_threshold : R) (feature_list : list string)
  : option (list cell) :=
  all_results
    (map (fun i =>
            match run_intelli_therm (Series (table_row test_trip_df i)) model
                    high_power_threshold feature_list with
            | Some (new_power, _, _) => Some new_power
            | None => None
            end)
       (seq 0 (len test_trip_df))).

(** The column [time_diff] of the energy accounting. *)
Definition sim_time_diff (test_trip_df : table) : list cell :=
  let time_col := time_col_of test_trip_df in
  if in_columns time_col test_trip_df
  then time_diff_of (column test_trip_df time_col)
  else repeat (Some 1) (len test_trip_df).

Record sim_report := mkSimReport {
  baseline_energy : R;
  optimized_energy : R;
  percentage_saved : R;
  estimated_range_improvement : R
}.

(** [None] is the source's [(None, None)] for a trip without rows (or a
    policy call that raised).  The energies and percentages are real
    numbers here; the source computes them in binary64, where every
    operation rounds. *)
Definition simulate_complete_trip (df : table) (model : regressor)
  (high_power_threshold : R) (feature_list : list string)
  (test_trip_ids : list string) : option sim_report :=
  let test_trip_df := test_trip_of df test_trip_ids in
  if empty test_trip_df then None
  else
    match optimized_heater_power test_trip_df model high_power_threshold
            feature_list with
    | None => None
    | Some new_heater_powers =>
        let time_diff := sim_time_diff test_trip_df in
        let baseline_energy :=
          heater_energy (column test_trip_df "heater_power_W") time_diff in
        let optimized_energy := heater_energy new_heater_powers time_diff in
        let energy_saved := baseline_energy - optimized_energy in
        let percentage_saved :=
          if Rlt_dec 0 baseline_energy
          then energy_saved / baseline_energy * 100
          else 0 in
        Some {| baseline_energy := baseline_energy;
                optimized_energy := optimized_energy;
                percentage_saved := percentage_saved;
                estimated_range_improvement := percentage_saved * 0.8 |}
    end.

(* ================================================================= *)
(** ** 1. Data cleaning and preprocessing *)

(** [col.ffill()]: a NaN takes the last value above it that is not NaN;
    [last] is that value for the rows already passed. *)
Fixpoint ffill_from (last : cell) (col : list cell) : list cell :=
  match col with
  | [] => []
  | Some x :: rest => Some x :: ffill_from (Some x) rest
  | None :: rest => last :: ffill_from last rest
  end.

(** [col.ffill()] *)
Definition ffill (col : list cell) : list cell := ffill_from None col.

(** [df.ffill()] *)
Definition ffill_table (t : table) : table :=
  {| trip_id := trip_id t;
     cols := map (fun '(c, col) => (c, ffill col)) (cols t) |}.

(** [df.isnull().sum()]: the number of NaN of every column. *)
Definition missing_values (t : table) : list (string * nat) :=
  map (fun '(c, col) => (c, length (filter isna col))) (cols t).

(** The filling of the data cleaning step:
    [if missing_values.sum() > 0: df = df.ffill(); df = df.bfill()]. *)
Definition fill_missing (t : table) : table :=
  if (0 <? list_sum (map snd (missing_values t)))%nat
  then bfill_table (ffill_table t)
  else t.

(* ================================================================= *)
(** ** Vocabulary of the properties *)

(** A reading that is a number is not negative. *)
Definition cell_nonneg (a : cell) : Prop :=
  match a with
  | Some x => 0 <= x
  | None => True
  end.

(** Timestamps that never go back: two consecutive readings that are both
    numbers are in order. *)
Fixpoint nondecreasing (col : list cell) : Prop :=
  match col with
  | a :: (b :: _) as rest =>
      match a, b with
      | Some x, Some y => x <= y
      | _, _ => True
      end /\ nondecreasing rest
  | _ => True
  end.

(** The number of training trips the specification words ask for: 0.7 n
    rounded up. *)
Definition ceil_07 (n : nat) : nat := ((7 * n + 9) / 10)%nat.

(** The same product rounded down, in exact arithmetic. *)
Definition floor_07 (n : nat) : nat := (7 * n / 10)%nat.

(** A column without NaN. *)
Definition all_defined (col : list cell) : Prop :=
  Forall (fun a => isna a = false) col.

(** A computation leaves the first [n] objects of the store as they are,
    and its result satisfies [Q] when it returns. *)
Definition frames (n : nat) (A : Type) (m : M A) (Q : A -> Prop) : Prop :=
  forall h, (n <= length h)%nat ->
    (n <= length (snd (m h)))%nat
    /\ firstn n (snd (m h)) = firstn n h
    /\ match fst (m h) with
       | Ok a => Q a
       | KeyError _ => True
       end.

(** A reference that is not one of the first [n] objects. *)
Definition fresh (n : nat) (r : ref) : Prop := (n <= r)%nat.

(** The column that the loop of [prepare_features_for_prediction] assigns
    for one feature name, if it assigns one. *)
Definition substitute (vd : vehicle_data) (feature : string)
  : option (list cell) :=
  let vehicle_data := frame_of vd in
  if has_col feature vehicle_data then Some (get_col vehicle_data feature)
  else if contains "_lag" feature then
    if has_col (split_first "_lag" feature) vehicle_data
    then Some (get_col vehicle_data (split_first "_lag" feature))
    else None
  else Some (repeat (Some 0) (nrows vehicle_data)).

(** Ascending order of trip identifiers. *)
Definition string_le (a b : string) : Prop := String.leb a b = true.

(** The policy's answer on a row: the heater reading, or 0.85 times it. *)
Definition policy_answer (new base : cell) : Prop :=
  new = base \/ new = cmul base (Some 0.85).

(** The frame an iteration appended, if any, is a new object. *)
Definition fresh_frame (n : nat) (o : option ref) : Prop :=
  forall r, o = Some r -> fresh n r.

(** The result of a builder: its argument, or a new object. *)
Definition same_or_fresh (n : nat) (df r : ref) : Prop := r = df \/ fresh n r.

(** What the loop body of [create_rate_of_change_features] does to the
    sorted frame of a trip, read as a function on tables, statement by
    statement: the speed part ... *)
Definition acceleration_block (time_col : string) (s : table) : table :=
  let t1 := with_column "speed_ms"
              (map (fun v => cdiv v (Some 3.6)) (column s "speed_kmh")) s in
  let t2 := with_column "speed_diff" (diff (column t1 "speed_ms")) t1 in
  let t3 := with_column "time_diff" (diff (column t2 time_col)) t2 in
  let t4 := with_column "acceleration_ms2"
              (map2 guarded_rate (column t3 "speed_diff")
                 (column t3 "time_diff")) t3 in
  with_column "acceleration_ms2"
    (clip_3sigma (column t4 "acceleration_ms2")) t4.

(** ... and the throttle part. *)
Definition throttle_block (throttle_col : string) (t : table) : table :=
  let t1 := with_column "throttle_change" (diff (column t throttle_col)) t in
  let t2 := with_column "throttle_change_rate"
              (map2 guarded_rate (column t1 "throttle_change")
                 (column t1 "time_diff")) t1 in
  with_column "throttle_change_rate"
    (clip_3sigma (column t2 "throttle_change_rate")) t2.

(** [df[all_features]] *)
Definition feature_frame (df : table) (features : list string) : dataframe :=
  {| nrows := len df; data := map (fun c => (c, column df c)) features |}.

(** [~(X.isna().any(axis=1) | y.isna())] of [prepare_data_for_modeling]:
    the rows in which every selected feature and the target are
    present. *)
Definition valid_rows (df : table) (features : list string) (target : string)
  : list bool :=
  map (fun i => negb (existsb (fun '(_, col) => isna (nth i col None))
                        (data (feature_frame df features))
                      || isna (nth i (column df target) None)))
    (seq 0 (len df)).

(** The lag names [prepare_data_for_modeling] looks for: the lags 1, 2, 3
    and 5 of the base features, those kept that are columns. *)
Definition lag_features_wished (df : table) : list string :=
  flat_map (fun feature =>
              filter (fun lag_col => in_columns lag_col df)
                (map (lag_col_name feature) [1; 2; 3; 5]%nat))
    (base_features_of df).

(** Ascending order of a column as [sort_values] leaves it: numbers first,
    NaN last. *)
Definition ascending (col : list cell) : Prop :=
  LocallySorted (fun a b => cell_le a b = true) col.

(** The rows of a trip, sorted by the time column of the table. *)
Definition sorted_trip (t : table) (trip : string) : table :=
  sort_values (time_col_of t) (select_trip trip t).

(** The frame of one trip as the lag and target builders take it: sorted
    by time when the trip has a time column. *)
Definition trip_frame (t : table) (trip : string) : table :=
  let t0 := select_trip trip t in
  if in_columns (time_col_of t0) t0 then sort_values (time_col_of t0) t0
  else t0.

(** The rows of [t] taken in the given order. *)
Definition take_rows (order : list nat) (t : table) : table :=
  {| trip_id := map (fun i => nth i (trip_id t) ""%string) order;
     cols := map (fun '(n, col) => (n, map (fun i => nth i col None) order))
               (cols t) |}.

(** Row [i] may stand right before row [j] once the rows are sorted by
    [col]: numbers ascend, the NaN rows come last and keep their order.
    Two rows with equal numbers may stand either way round, the default
    sort of pandas not being stable. *)
Definition row_before (col : list cell) (i j : nat) : Prop :=
  match nth i col None, nth j col None with
  | Some x, Some y => x <= y
  | Some _, None => True
  | None, Some _ => False
  | None, None => (i < j)%nat
  end.

(** An order in which [sort_values] may leave the rows. *)
Definition sort_order (col : list cell) (order : list nat) : Prop :=
  Permutation order (seq 0 (length col))
  /\ LocallySorted (row_before col) order.

(** A frame that [df.sort_values(c).reset_index(drop=True)] may return. *)
Definition sorted_by (c : string) (t s : table) : Prop :=
  exists order, sort_order (column t c) order /\ s = take_rows order t.

(** No number stands in two rows of the column. *)
Definition distinct_numbers (col : list cell) : Prop :=
  forall i j x, nth i col None = Some x -> nth j col None = Some x -> i = j.

(** Within every trip of the table no time stamp stands in two rows. *)
Definition distinct_time_stamps (t : table) : Prop :=
  forall trip, In trip (trip_id t) ->
    distinct_numbers (column (select_trip trip t) (time_col_of t)).

(** [s] is a frame the builders may work on for the trip: the rows of the
    trip, sorted by time when the table has a time column. *)
Definition time_ordered_frame (t : table) (trip : string) (s : table) : Prop :=
  if in_columns (time_col_of t) t
  then sorted_by (time_col_of t) (select_trip trip t) s
  else s = select_trip trip t.

(** The frame the loop of [create_rate_of_change_features] appends for a
    trip of a table with a time and a speed channel. *)
Definition rate_trip_out (t : table) (trip : string) : table :=
  let t0 := select_trip trip t in
  let s := sort_values (time_col_of t0) t0 in
  let a := acceleration_block (time_col_of t0) s in
  match throttle_col_of a with
  | Some throttle_col => throttle_block throttle_col a
  | None => a
  end.

(** What the loop over the horizons leaves in the frame of a trip. *)
Definition target_block (future_horizons : list nat) (tv : table) : table :=
  fold_left
    (fun tv horizon =>
       with_column (target_col_name horizon)
         (future_load horizon (column tv "powertrain_load_W")) tv)
    future_horizons tv.

(** What the loop over the lags leaves in the frame of a trip for one
    feature ... *)
Definition lag_loop (feature : string) (lags : list nat) (tv : table)
  : table :=
  fold_left
    (fun tv lag =>
       with_column (lag_col_name feature lag)
         (shift (Z.of_nat lag) (column tv feature)) tv)
    lags tv.

(** ... and the loop over the features around it: the frame of the trip
    before the back-fill. *)
Definition lag_block (lag_features : list string) (tv : table) : table :=
  fold_left
    (fun tv feature =>
       if in_columns feature tv then lag_loop feature lag_periods tv else tv)
    lag_features tv.

(** The lag names of the features are pairwise distinct and none of them
    is the name of a feature. *)
Definition lag_names_distinct (lag_features : list string) : Prop :=
  (forall f f' j, In f lag_features -> In f' lag_features ->
                  lag_col_name f' j <> f)
  /\ (forall f f' j k, In f lag_features -> In f' lag_features ->
                       lag_col_name f' j = lag_col_name f k ->
                       f' = f /\ j = k).

(* ================================================================= *)
(** ** Example trips *)

(** Two rows of trip A01 with a voltage and a current channel. *)
Definition two_row_table : table :=
  {| trip_id := ["A01"%string; "A01"%string];
     cols := [("battery_voltage_V"%string, [Some 400; Some 400]);
              ("battery_current_A"%string, [Some 10; Some 20])] |}.

(** The same two rows with a time channel. *)
Definition timed_two_row_table : table :=
  {| trip_id := ["A01"%string; "A01"%string];
     cols := [("time_s"%string, [Some 0; Some 1]);
              ("battery_voltage_V"%string, [Some 400; Some 400]);
              ("battery_current_A"%string, [Some 10; Some 20])] |}.

(** Sixteen samples at 1 Hz. *)
Definition seconds : list cell :=
  map (fun z => Some (IZR z))
    [0; 1; 2; 3; 4; 5; 6; 7; 8; 9; 10; 11; 12; 13; 14; 15]%Z.

(** A steady acceleration of 16 m/s2: the speed in km/h grows by 57.6
    every second. *)
Definition ramp_speed_kmh : list cell :=
  map (fun z => Some (57.6 * IZR z))
    [0; 1; 2; 3; 4; 5; 6; 7; 8; 9; 10; 11; 12; 13; 14; 15]%Z.

(** Standstill, then one jump to 57.6 km/h in the last second. *)
Definition jump_speed_kmh : list cell :=
  map (fun z => Some (57.6 * IZR z))
    [0; 0; 0; 0; 0; 0; 0; 0; 0; 0; 0; 0; 0; 0; 0; 1]%Z.

(** Three rows of trip A01 with a time and a load channel. *)
Definition three_row_table : table :=
  {| trip_id := ["A01"; "A01"; "A01"]%string;
     cols := [("time_s"%string, [Some 0; Some 1; Some 2]);
              ("powertrain_load_W"%string, [Some 10; Some 20; Some 30])] |}.

(** One row with a time and a throttle channel, and no speed channel. *)
Definition throttle_only_table : table :=
  {| trip_id := ["A01"%string];
     cols := [("time_s"%string, [Some 0]);
              ("throttle_pedal_%"%string, [Some 12])] |}.

(** Two trips with a load and a target column; the second row lacks the
    load and the last one the target. *)
Definition modeling_table : table :=
  {| trip_id := ["A01"; "A01"; "B01"; "B01"]%string;
     cols := [("powertrain_load_W"%string, [Some 10; None; Some 30; Some 40]);
              ("future_load_W_5s"%string, [Some 11; Some 21; Some 31; None])] |}.

(** What [prepare_data_for_modeling] returns for it with the horizon 5. *)
Definition modeling_split : modeling_data :=
  {| X_train := {| nrows := 1;
                   data := [("powertrain_load_W"%string, [Some 10])] |};
     X_test := {| nrows := 1;
                  data := [("powertrain_load_W"%string, [Some 30])] |};
     y_train := [Some 11];
     y_test := [Some 31];
     train_trip_ids := ["A01"%string];
     test_trip_ids := ["B01"%string];
     all_features := ["powertrain_load_W"%string];
     target_column := "future_load_W_5s"%string |}.

(** One trip, the last row without target. *)
Definition single_trip_table : table :=
  {| trip_id := ["A01"; "A01"]%string;
     cols := [("powertrain_load_W"%string, [Some 10; Some 20]);
              ("future_load_W_5s"%string, [Some 11; None])] |}.

(** What [prepare_data_for_modeling] returns for it with the horizon 5. *)
Definition single_trip_split : modeling_data :=
  {| X_train := {| nrows := 1;
                   data := [("powertrain_load_W"%string, [Some 10])] |};
     X_test := {| nrows := 1;
                  data := [("powertrain_load_W"%string, [Some 10])] |};
     y_train := [Some 11];
     y_test := [Some 11];
     train_trip_ids := ["A01"%string];
     test_trip_ids := ["A01"%string];
     all_features := ["powertrain_load_W"%string];
     target_column := "future_load_W_5s"%string |}.

(** A speed channel with a gap at the first row of either trip. *)
Definition gappy_table : table :=
  {| trip_id := ["A01"; "A01"; "B01"; "B01"]%string;
     cols := [("speed_kmh"%string, [None; Some 50; None; Some 70])] |}.

(** Two trips with interleaved rows and a time, a speed and a load
    channel. *)
Definition two_trip_table : table :=
  {| trip_id := ["A01"; "B01"; "A01"; "B01"]%string;
     cols := [("time_s"%string, [Some 0; Some 0; Some 1; Some 1]);
              ("speed_kmh"%string, [Some 0; Some 36; Some 36; Some 72]);
              ("powertrain_load_W"%string,
               [Some 10; Some 30; Some 20; Some 40])] |}.

(** Two rows with the same time stamp, a throttle channel and a column
    time_diff of its own, and no speed channel. *)
Definition stale_time_diff_table : table :=
  {| trip_id := ["A01"; "A01"]%string;
     cols := [("time_s"%string, [Some 0; Some 0]);
              ("throttle_pedal_%"%string, [Some 10; Some 20]);
              ("time_diff"%string, [Some 5; Some 5])] |}.

(* ================================================================= *)
(** * Properties *)

(** ** Control policy *)

Lemma decide_reduce (p t : R) (b : cell) :
  t < p -> decide p t b = (cmul b (Some 0.85), status_reduce).
Proof.
  intro Hlt. unfold decide. destruct (Rlt_dec t p) as [_ | Hn].
  - reflexivity.
  - contradiction.
Qed.

Lemma decide_maintain (p t : R) (b : cell) :
  ~ t < p -> decide p t b = (b, status_maintain).
Proof.
  intro Hn. unfold decide. destruct (Rlt_dec t p) as [Hlt | _].
  - contradiction.
  - reflexivity.
Qed.

Lemma run_intelli_therm_unfold vd model t fl p b :
  predicted_load_of vd model fl = Some p ->
  base_heater_power vd = Some b ->
  run_intelli_therm vd model t fl
  = Some (fst (decide p t b), snd (decide p t b), p).
Proof.
  intros Hp Hb. unfold run_intelli_therm. rewrite Hp, Hb.
  destruct (decide p t b); reflexivity.
Qed.

Lemma prepare_features_nrows (vd : vehicle_data) (fl : list string) :
  nrows (prepare_features_for_prediction vd fl) = nrows (frame_of vd).
Proof.
  unfold prepare_features_for_prediction. cbv zeta.
  assert (Hgen : forall init,
    nrows (fold_left
      (fun features_df feature =>
         if has_col feature (frame_of vd) then
           set_col features_df feature (get_col (frame_of vd) feature)
         else if contains "_lag" feature then
           let base_feature := split_first "_lag" feature in
           if has_col base_feature (frame_of vd) then
             set_col features_df feature (get_col (frame_of vd) base_feature)
           else features_df
         else
           set_col features_df feature
             (repeat (Some 0) (nrows (frame_of vd))))
      fl init) = nrows init).
  { induction fl as [| a l IH]; intro init; simpl.
    - reflexivity.
    - rewrite IH.
      destruct (has_col a (frame_of vd)); [reflexivity |].
      destruct (contains "_lag" a); [| reflexivity].
      destruct (has_col (split_first "_lag" a) (frame_of vd)); reflexivity. }
  rewrite Hgen. reflexivity.
Qed.

(** A Series is a one-row frame, so the prediction for it always exists. *)
Lemma predicted_load_of_series s model fl :
  exists p, predicted_load_of (Series s) model fl = Some p.
Proof.
  unfold predicted_load_of, predict, rows.
  rewrite prepare_features_nrows. simpl. eexists. reflexivity.
Qed.

(** C1: the control policy returns the baseline heater power times 0.85
    with the reducing status when the predicted load is strictly above the
    threshold, and the unchanged baseline with the maintaining status
    otherwise, in particular at equality; decide(100, 90, 1000) is
    (850, reduce) and decide(50, 90, 1000) is (1000, maintain). *)
Theorem run_intelli_therm_decision vd model t fl p b :
  predicted_load_of vd model fl = Some p ->
  base_heater_power vd = Some b ->
  (t < p ->
   run_intelli_therm vd model t fl = Some (cmul b (Some 0.85), status_reduce, p))
  /\ (~ t < p ->
      run_intelli_therm vd model t fl = Some (b, status_maintain, p))
  /\ (p = t ->
      run_intelli_therm vd model t fl = Some (b, status_maintain, p))
  /\ decide 100 90 (Some 1000) = (Some 850, status_reduce)
  /\ decide 50 90 (Some 1000) = (Some 1000, status_maintain).
Proof.
  intros Hp Hb.
  pose proof (run_intelli_therm_unfold vd model t fl Hp Hb) as Hrun.
  repeat split.
  - intro Hlt. rewrite Hrun, (decide_reduce b Hlt). reflexivity.
  - intro Hn. rewrite Hrun, (decide_maintain b Hn). reflexivity.
  - intro Heq. rewrite Hrun, (@decide_maintain p t b) by lra. reflexivity.
  - rewrite decide_reduce by lra. simpl.
    replace (1000 * 0.85) with 850 by lra. reflexivity.
  - rewrite decide_maintain by lra. reflexivity.
Qed.

(** The same products in binary64, the arithmetic the source runs in:
    0.85 is the double 0x1.b333333333333p-1, and the rounded products are
    exactly 850 and 1700. *)
Lemma heater_reduction_binary64 :
  PrimFloat.eqb (PrimFloat.mul 1000 0x1.b333333333333p-1) 850 = true
  /\ PrimFloat.eqb (PrimFloat.mul 2000 0x1.b333333333333p-1) 1700 = true.
Proof. vm_compute. split; reflexivity. Qed.

Lemma run_intelli_therm_decision_witness :
  run_intelli_therm (Series [("heater_power_W"%string, Some 1000)])
    (fun _ => 100) 90 []
  = Some (cmul (Some 1000) (Some 0.85), status_reduce, 100).
Proof.
  apply (run_intelli_therm_decision
           (Series [("heater_power_W"%string, Some 1000)])
           (fun _ => 100) 90 [] (p := 100) (b := Some 1000)).
  - reflexivity.
  - reflexivity.
  - lra.
Defined.

(** C10: when the vehicle data has no heater_power_W channel the baseline
    is the default 1000 W, so the policy answers 850 W above the threshold
    and 1000 W otherwise; the missing channel never makes the call fail. *)
Theorem run_intelli_therm_default_heater vd model t fl p :
  has_channel "heater_power_W" vd = false ->
  predicted_load_of vd model fl = Some p ->
  base_heater_power vd = Some (Some 1000)
  /\ (t < p ->
      run_intelli_therm vd model t fl = Some (Some 850, status_reduce, p))
  /\ (~ t < p ->
      run_intelli_therm vd model t fl = Some (Some 1000, status_maintain, p)).
Proof.
  intros Hno Hp.
  assert (Hb : base_heater_power vd = Some (Some 1000)).
  { unfold base_heater_power. rewrite Hno. reflexivity. }
  pose proof (run_intelli_therm_unfold vd model t fl Hp Hb) as Hrun.
  repeat split.
  - exact Hb.
  - intro Hlt. rewrite Hrun, (decide_reduce _ Hlt). simpl.
    replace (1000 * 0.85) with 850 by lra. reflexivity.
  - intro Hn. rewrite Hrun, (decide_maintain _ Hn). reflexivity.
Qed.

Lemma run_intelli_therm_default_heater_witness :
  run_intelli_therm (Series [("speed_kmh"%string, Some 50)])
    (fun _ => 100) 90 ["speed_kmh"%string]
  = Some (Some 850, status_reduce, 100).
Proof.
  apply (run_intelli_therm_default_heater
           (Series [("speed_kmh"%string, Some 50)])
           (fun _ => 100) 90 ["speed_kmh"%string] (p := 100)).
  - reflexivity.
  - reflexivity.
  - lra.
Defined.

(** ** Feature preparation at inference time *)

Lemma lookup_assign_same (A : Type) (c : string) (v : A)
  (d : list (string * A)) :
  lookup c (assign c v d) = Some v.
Proof.
  induction d as [| [c' v'] d IH]; simpl.
  - rewrite String.eqb_refl. reflexivity.
  - destruct (String.eqb c c') eqn:E; simpl.
    + rewrite String.eqb_refl. reflexivity.
    + rewrite E. exact IH.
Qed.

Lemma lookup_assign_other (A : Type) (c c' : string) (v : A)
  (d : list (string * A)) :
  c <> c' -> lookup c (assign c' v d) = lookup c d.
Proof.
  intro Hne. induction d as [| [k v'] d IH]; simpl.
  - destruct (String.eqb_spec c c'); [contradiction | reflexivity].
  - destruct (String.eqb_spec c' k) as [-> | Hk]; simpl.
    + destruct (String.eqb_spec c k); [contradiction | reflexivity].
    + destruct (String.eqb c k); [reflexivity | exact IH].
Qed.

Lemma lookup_has_key (A : Type) (k : string) (s : list (string * A)) :
  has_key k s = true -> exists v, lookup k s = Some v.
Proof.
  unfold has_key. induction s as [| [k' v] s IH]; simpl.
  - discriminate.
  - destruct (String.eqb k k').
    + intros _. eexists. reflexivity.
    + exact IH.
Qed.

Lemma has_key_lookup (A : Type) (k : string) (s : list (string * A)) (v : A) :
  lookup k s = Some v -> has_key k s = true.
Proof.
  unfold has_key. induction s as [| [k' v'] s IH]; simpl.
  - discriminate.
  - destruct (String.eqb k k'); [reflexivity | exact IH].
Qed.

Lemma has_channel_frame_of (c : string) (vd : vehicle_data) :
  has_col c (frame_of vd) = has_channel c vd.
Proof.
  destruct vd as [s | f]; simpl; [| reflexivity].
  unfold has_col, has_key, frame_of_series. simpl.
  induction s as [| [k v] s IH]; simpl.
  - reflexivity.
  - rewrite IH. reflexivity.
Qed.

(** The loop, feature by feature: a name of the list has the column that
    [substitute] gives it, when it gives one. *)
Lemma prepare_features_lookup (vd : vehicle_data) (l : list string)
  (f : string) :
  lookup f (data (prepare_features_for_prediction vd l))
  = if existsb (String.eqb f) l then substitute vd f else None.
Proof.
  unfold prepare_features_for_prediction. cbv zeta.
  assert (Hgen : forall init,
    lookup f (data (fold_left
      (fun features_df feature =>
         if has_col feature (frame_of vd) then
           set_col features_df feature (get_col (frame_of vd) feature)
         else if contains "_lag" feature then
           let base_feature := split_first "_lag" feature in
           if has_col base_feature (frame_of vd) then
             set_col features_df feature (get_col (frame_of vd) base_feature)
           else features_df
         else
           set_col features_df feature
             (repeat (Some 0) (nrows (frame_of vd))))
      l init))
    = if existsb (String.eqb f) l
      then match substitute vd f with
           | Some col => Some col
           | None => lookup f (data init)
           end
      else lookup f (data init)).
  { induction l as [| a l IH]; intro init; simpl.
    - reflexivity.
    - rewrite IH. clear IH.
      assert (Hstep : forall g,
        lookup g (data
          (if has_col a (frame_of vd) then
             set_col init a (get_col (frame_of vd) a)
           else if contains "_lag" a then
             if has_col (split_first "_lag" a) (frame_of vd) then
               set_col init a (get_col (frame_of vd) (split_first "_lag" a))
             else init
           else
             set_col init a (repeat (Some 0) (nrows (frame_of vd)))))
        = if String.eqb g a
          then match substitute vd a with
               | Some col => Some col
               | None => lookup g (data init)
               end
          else lookup g (data init)).
      { intro g. unfold substitute. cbv zeta.
        destruct (String.eqb_spec g a) as [-> | Hne].
        - destruct (has_col a (frame_of vd)); [apply lookup_assign_same |].
          destruct (contains "_lag" a); [| apply lookup_assign_same].
          destruct (has_col (split_first "_lag" a) (frame_of vd));
            [apply lookup_assign_same | reflexivity].
        - destruct (has_col a (frame_of vd));
            [apply lookup_assign_other; exact Hne |].
          destruct (contains "_lag" a);
            [| apply lookup_assign_other; exact Hne].
          destruct (has_col (split_first "_lag" a) (frame_of vd));
            [apply lookup_assign_other; exact Hne | reflexivity]. }
      rewrite Hstep.
      destruct (String.eqb_spec f a) as [-> | Hne]; simpl.
      + destruct (existsb (String.eqb a) l); destruct (substitute vd a);
          reflexivity.
      + reflexivity. }
  rewrite Hgen. simpl.
  destruct (existsb (String.eqb f) l); [| reflexivity].
  destruct (substitute vd f); reflexivity.
Qed.

Lemma existsb_eqb_In (f : string) (l : list string) :
  In f l -> existsb (String.eqb f) l = true.
Proof.
  intro H. apply existsb_exists. exists f. split; [exact H |].
  apply String.eqb_refl.
Qed.

(** A trained feature that is absent and is not a lag name gets a column
    of zeros. *)
Lemma prepare_features_zero_fill_example :
  prepare_features_for_prediction
    (Series [("speed_kmh"%string, Some 50)])
    ["speed_kmh"%string; "heater_power_W"%string]
  = {| nrows := 1;
       data := [("speed_kmh"%string, [Some 50]);
                ("heater_power_W"%string, [Some 0])] |}.
Proof. reflexivity. Qed.

(** The case the loop misses: a trained lag feature whose base channel is
    absent gets no column at all.  With the channels {speed_kmh} and the
    trained features speed_kmh, powertrain_load_W_lag1 and heater_power_W,
    the prepared frame has the columns speed_kmh and heater_power_W only,
    so its name set differs from the training list. *)
Lemma prepare_features_lag_of_absent_base :
  let vd := Series [("speed_kmh"%string, Some 50)] in
  let feature_list :=
    ["speed_kmh"%string; "powertrain_load_W_lag1"%string;
     "heater_power_W"%string] in
  let features_df := prepare_features_for_prediction vd feature_list in
  columns features_df = ["speed_kmh"%string; "heater_power_W"%string]
  /\ has_col "powertrain_load_W_lag1" features_df = false
  /\ get_col features_df "heater_power_W" = [Some 0]
  /\ columns features_df <> feature_list.
Proof.
  cbv zeta. repeat split; try reflexivity.
  intro H. discriminate H.
Qed.

(** C8 (as amended): for a trained feature that is absent from the
    vehicle data the preparation step gives the feature a column, of zeros
    when its name has no "_lag" in it, and of the current values of its
    base feature (the name before the first "_lag") when the name is a lag
    name and the base feature is present; a trained feature that is
    present keeps its values, and the frame has as many rows as the
    vehicle data. *)
Theorem prepare_features_substitution (vd : vehicle_data)
  (feature_list : list string) (feature : string) :
  In feature feature_list ->
  let features_df := prepare_features_for_prediction vd feature_list in
  nrows features_df = nrows (frame_of vd)
  /\ (has_channel feature vd = true ->
      has_col feature features_df = true
      /\ get_col features_df feature = get_col (frame_of vd) feature)
  /\ (has_channel feature vd = false ->
      contains "_lag" feature = false ->
      has_col feature features_df = true
      /\ get_col features_df feature = repeat (Some 0) (nrows (frame_of vd)))
  /\ (has_channel feature vd = false ->
      contains "_lag" feature = true ->
      has_col (split_first "_lag" feature) (frame_of vd) = true ->
      has_col feature features_df = true
      /\ get_col features_df feature
         = get_col (frame_of vd) (split_first "_lag" feature)).
Proof.
  intros Hin features_df.
  pose proof (prepare_features_lookup vd feature_list feature) as Hl.
  rewrite (existsb_eqb_In _ _ Hin) in Hl. fold features_df in Hl.
  unfold substitute in Hl. cbv zeta in Hl.
  rewrite has_channel_frame_of in Hl.
  split; [apply prepare_features_nrows |].
  split; [| split].
  - intro Hc. rewrite Hc in Hl. split.
    + exact (has_key_lookup _ _ Hl).
    + unfold get_col at 1. rewrite Hl. reflexivity.
  - intros Hc Hlag. rewrite Hc, Hlag in Hl. split.
    + exact (has_key_lookup _ _ Hl).
    + unfold get_col at 1. rewrite Hl. reflexivity.
  - intros Hc Hlag Hbase. rewrite Hc, Hlag, Hbase in Hl. split.
    + exact (has_key_lookup _ _ Hl).
    + unfold get_col at 1. rewrite Hl. reflexivity.
Qed.

Lemma prepare_features_substitution_witness :
  get_col (prepare_features_for_prediction
             (Series [("speed_kmh"%string, Some 50)])
             ["speed_kmh"%string; "heater_power_W"%string])
    "heater_power_W"
  = repeat (Some 0) 1.
Proof.
  refine (proj2 (proj1 (proj2 (proj2 (@prepare_features_substitution
            (Series [("speed_kmh"%string, Some 50)])
            ["speed_kmh"%string; "heater_power_W"%string]
            "heater_power_W"%string _))) _ _)).
  - simpl. tauto.
  - reflexivity.
  - reflexivity.
Defined.

(** C8 as stated fails for a lag feature whose base is present: with the
    channels {speed_kmh = 50} and the trained features speed_kmh and
    speed_kmh_lag1, the absent speed_kmh_lag1 gets the current speed 50,
    not zero. *)
Lemma prepare_features_lag_takes_current_value :
  let vd := Series [("speed_kmh"%string, Some 50)] in
  let features_df :=
    prepare_features_for_prediction vd
      ["speed_kmh"%string; "speed_kmh_lag1"%string] in
  has_channel "speed_kmh_lag1" vd = false
  /\ get_col features_df "speed_kmh_lag1" = [Some 50]
  /\ get_col features_df "speed_kmh_lag1" <> [Some 0].
Proof.
  cbv zeta. repeat split.
  intro H. inversion H. lra.
Qed.

(** ** Trip simulator *)

Lemma has_key_lookup_none (A : Type) (k : string) (s : list (string * A)) :
  has_key k s = false -> lookup k s = None.
Proof.
  unfold has_key. induction s as [| [k' v] s IH]; simpl.
  - reflexivity.
  - destruct (String.eqb k k'); [discriminate | exact IH].
Qed.

Lemma has_key_table_row (k : string) (t : table) (i : nat) :
  has_key k (table_row t i) = has_key k (cols t).
Proof.
  unfold has_key, table_row. induction (cols t) as [| [k' v] s IH]; simpl.
  - reflexivity.
  - rewrite IH. reflexivity.
Qed.

Lemma lookup_table_row (k : string) (t : table) (i : nat) :
  lookup k (table_row t i)
  = option_map (fun col => nth i col None) (lookup k (cols t)).
Proof.
  unfold table_row. induction (cols t) as [| [k' v] s IH]; simpl.
  - reflexivity.
  - destruct (String.eqb k k'); [reflexivity | exact IH].
Qed.

(** On a row of a trip that has the heater channel, the baseline is the
    row's heater reading. *)
Lemma base_heater_power_row (t : table) (i : nat) :
  has_key "heater_power_W" (cols t) = true ->
  base_heater_power (Series (table_row t i))
  = Some (nth i (column t "heater_power_W") None).
Proof.
  intro Hk. unfold base_heater_power, has_channel, column.
  rewrite has_key_table_row, Hk, lookup_table_row.
  destruct (lookup_has_key _ _ Hk) as [col Hcol]. rewrite Hcol. reflexivity.
Qed.

Lemma run_intelli_therm_row (t : table) (i : nat) model thr fl :
  has_key "heater_power_W" (cols t) = true ->
  exists new status p,
    run_intelli_therm (Series (table_row t i)) model thr fl
    = Some (new, status, p)
    /\ policy_answer new (nth i (column t "heater_power_W") None).
Proof.
  intro Hk.
  destruct (predicted_load_of_series (table_row t i) model fl) as [p Hp].
  rewrite (run_intelli_therm_unfold _ _ thr _ Hp (base_heater_power_row t i Hk)).
  do 3 eexists. split; [reflexivity |].
  unfold policy_answer, decide. destruct (Rlt_dec thr p); simpl; auto.
Qed.

Lemma optimized_heater_power_rows (t : table) model thr fl :
  has_key "heater_power_W" (cols t) = true ->
  exists g,
    optimized_heater_power t model thr fl = Some (map g (seq 0 (len t)))
    /\ forall i, policy_answer (g i) (nth i (column t "heater_power_W") None).
Proof.
  intro Hk. unfold optimized_heater_power.
  exists (fun i =>
            match run_intelli_therm (Series (table_row t i)) model thr fl with
            | Some (new, _, _) => new
            | None => None
            end).
  split.
  - induction (seq 0 (len t)) as [| i l IH]; simpl.
    + reflexivity.
    + destruct (run_intelli_therm_row t i model thr fl Hk)
        as (new & status & p & Hrun & _).
      rewrite Hrun, IH. reflexivity.
  - intro i.
    destruct (run_intelli_therm_row t i model thr fl Hk)
      as (new & status & p & Hrun & Hans).
    rewrite Hrun. exact Hans.
Qed.

Lemma csum_nonneg (col : list cell) : Forall cell_nonneg col -> 0 <= csum col.
Proof.
  unfold csum. induction 1 as [| a col Ha _ IH]; simpl.
  - lra.
  - destruct a as [x |]; simpl in *; [lra | exact IH].
Qed.

Lemma cmul_nonneg (a b : cell) :
  cell_nonneg a -> cell_nonneg b -> cell_nonneg (cmul a b).
Proof.
  destruct a as [x |], b as [y |]; simpl; auto.
  intros Hx Hy. apply Rmult_le_pos; assumption.
Qed.

Lemma map2_nonneg (power td : list cell) :
  Forall cell_nonneg power -> Forall cell_nonneg td ->
  Forall cell_nonneg (map2 cmul power td).
Proof.
  intro Hp. revert td. induction Hp as [| a power Ha _ IH]; intros td Htd.
  - constructor.
  - destruct Htd as [| d td Hd Htd]; simpl; constructor.
    + apply cmul_nonneg; assumption.
    + apply IH. exact Htd.
Qed.

(** Row by row the optimized power is below the baseline, so its energy
    is too, whatever the lengths of the columns. *)
Lemma heater_energy_policy (n : nat) :
  forall (g : nat -> cell) (power td : list cell),
    (forall i, policy_answer (g i) (nth i power None)) ->
    Forall cell_nonneg power -> Forall cell_nonneg td ->
    heater_energy (map g (seq 0 n)) td <= heater_energy power td.
Proof.
  unfold heater_energy.
  induction n as [| n IH]; intros g power td Hg Hpow Htd.
  - simpl. apply csum_nonneg, map2_nonneg; assumption.
  - rewrite <- cons_seq, <- seq_shift. simpl. rewrite map_map.
    destruct Htd as [| d td Hd Htd].
    + destruct power; unfold csum; simpl; lra.
    + specialize (IH (fun i => g (S i))).
      destruct Hpow as [| b power Hb Hpow].
      * assert (H0 : g 0%nat = None).
        { destruct (Hg 0%nat) as [H | H]; simpl in H; exact H. }
        rewrite H0. simpl.
        specialize (IH [] td).
        assert (Hrec : csum (map2 cmul (map (fun i => g (S i)) (seq 0 n)) td)
                       <= csum (map2 cmul [] td)).
        { apply IH; [| constructor | exact Htd].
          intro i. specialize (Hg (S i)). simpl in Hg.
          destruct i; exact Hg. }
        exact Hrec.
      * assert (Hrec : csum (map2 cmul (map (fun i => g (S i)) (seq 0 n)) td)
                       <= csum (map2 cmul power td)).
        { apply IH; [| exact Hpow | exact Htd].
          intro i. exact (Hg (S i)). }
        simpl.
        destruct (Hg 0%nat) as [H | H]; simpl in H; rewrite H.
        -- destruct b as [x |], d as [dd |]; unfold csum in *; simpl; lra.
        -- destruct b as [x |], d as [dd |]; unfold csum in *; simpl in *;
             try lra.
           assert (0 <= x * dd) by (apply Rmult_le_pos; assumption).
           lra.
Qed.

Lemma map2_csub_nondecreasing (a : cell) (rest : list cell) :
  nondecreasing (a :: rest) ->
  Forall cell_nonneg (map (fillna 0) (map2 csub rest (a :: rest))).
Proof.
  revert a. induction rest as [| b rest IH]; intros a Hnd.
  - constructor.
  - destruct Hnd as [Hab Hrest]. simpl. constructor.
    + destruct b as [y |], a as [x |]; simpl; lra.
    + apply IH. exact Hrest.
Qed.

Lemma time_diff_of_nonneg (time : list cell) :
  nondecreasing time -> Forall cell_nonneg (time_diff_of time).
Proof.
  unfold time_diff_of, diff. destruct time as [| a rest]; intro Hnd.
  - constructor.
  - simpl. constructor.
    + simpl. lra.
    + apply map2_csub_nondecreasing. exact Hnd.
Qed.

Lemma sim_time_diff_nonneg (t : table) :
  nondecreasing (column t (time_col_of t)) ->
  Forall cell_nonneg (sim_time_diff t).
Proof.
  intro Hnd. unfold sim_time_diff.
  destruct (in_columns (time_col_of t) t).
  - apply time_diff_of_nonneg. exact Hnd.
  - apply Forall_forall. intros a Ha. apply repeat_spec in Ha. subst a.
    simpl. lra.
Qed.

Lemma has_key_assign (A : Type) (c : string) (v : A) (d : list (string * A)) :
  has_key c (assign c v d) = true.
Proof.
  unfold has_key. induction d as [| [c' v'] d IH]; simpl.
  - rewrite String.eqb_refl. reflexivity.
  - destruct (String.eqb c c') eqn:E; simpl.
    + rewrite String.eqb_refl. reflexivity.
    + rewrite E. exact IH.
Qed.

Lemma test_trip_has_heater (df : table) (ids : list string) :
  has_key "heater_power_W" (cols (test_trip_of df ids)) = true.
Proof.
  unfold test_trip_of.
  set (t := select_trip _ df).
  destruct (in_columns "heater_power_W" t) eqn:E.
  - unfold in_columns in E. simpl in E. exact E.
  - simpl. apply has_key_assign.
Qed.

(** C2 (as amended): on a test trip whose timestamps never go back and
    whose heater readings are not negative, the simulation returns a
    report, and its optimized heater energy is at most its baseline heater
    energy, whatever the model predicts. *)
Theorem simulate_optimized_le_baseline (df : table) (model : regressor)
  (thr : R) (fl ids : list string) :
  let trip := test_trip_of df ids in
  empty trip = false ->
  nondecreasing (column trip (time_col_of trip)) ->
  Forall cell_nonneg (column trip "heater_power_W") ->
  exists rep,
    simulate_complete_trip df model thr fl ids = Some rep
    /\ optimized_energy rep <= baseline_energy rep.
Proof.
  intros trip Hne Htime Hpow.
  unfold simulate_complete_trip. fold trip. rewrite Hne.
  destruct (optimized_heater_power_rows trip model thr fl
              (test_trip_has_heater df ids)) as (g & Hopt & Hg).
  rewrite Hopt. eexists. split; [reflexivity |]. simpl.
  apply heater_energy_policy.
  - exact Hg.
  - exact Hpow.
  - apply sim_time_diff_nonneg. exact Htime.
Qed.

Lemma simulate_optimized_le_baseline_witness :
  exists rep,
    simulate_complete_trip
      {| trip_id := ["T1"%string; "T1"%string];
         cols := [("time_s"%string, [Some 0; Some 1]);
                  ("heater_power_W"%string, [Some 2000; Some 2000])] |}
      (fun _ => 100) 90 [] ["T1"%string] = Some rep
    /\ optimized_energy rep <= baseline_energy rep.
Proof.
  apply (simulate_optimized_le_baseline
           {| trip_id := ["T1"%string; "T1"%string];
              cols := [("time_s"%string, [Some 0; Some 1]);
                       ("heater_power_W"%string, [Some 2000; Some 2000])] |}
           (fun _ => 100) 90 [] ["T1"%string]).
  - reflexivity.
  - simpl. split; [lra | exact I].
  - repeat constructor; simpl; lra.
Defined.

(** C2 as stated fails when a heater reading is negative: on a two-row
    trip with timestamps 0 and 1 and heater power -100 W, a model that
    predicts 100 W against the threshold 90 W makes the optimized energy
    -85 J, above the baseline -100 J. *)
Lemma simulate_negative_heater_reading :
  let df := {| trip_id := ["T1"%string; "T1"%string];
               cols := [("time_s"%string, [Some 0; Some 1]);
                        ("heater_power_W"%string,
                         [Some (-100); Some (-100)])] |} in
  nondecreasing (column (test_trip_of df ["T1"%string])
                   (time_col_of (test_trip_of df ["T1"%string])))
  /\ exists rep,
       simulate_complete_trip df (fun _ => 100) 90 [] ["T1"%string] = Some rep
       /\ baseline_energy rep = -100
       /\ optimized_energy rep = -85
       /\ ~ optimized_energy rep <= baseline_energy rep.
Proof.
  cbv zeta. split.
  - simpl. split; [lra | exact I].
  - unfold simulate_complete_trip. cbn.
    rewrite decide_reduce by lra. cbn.
    eexists. split; [reflexivity |]. cbn.
    repeat split; lra.
Qed.

(** ** Dataset partitioner *)

Lemma unique_In (x : string) (l : list string) : In x (unique l) <-> In x l.
Proof.
  induction l as [| a l IH]; simpl.
  - tauto.
  - rewrite filter_In, IH. split.
    + intros [H | [H _]]; auto.
    + intros [H | H]; auto.
      destruct (String.eqb_spec a x) as [E | E]; auto.
Qed.

Lemma unique_NoDup (l : list string) : NoDup (unique l).
Proof.
  induction l as [| a l IH]; simpl.
  - constructor.
  - constructor.
    + rewrite filter_In. intros [_ H]. rewrite String.eqb_refl in H.
      discriminate.
    + apply NoDup_filter. exact IH.
Qed.

Lemma insert_sorted_perm (x : string) (l : list string) :
  Permutation (x :: l) (insert_sorted x l).
Proof.
  induction l as [| y l IH]; simpl.
  - apply Permutation_refl.
  - destruct (String.leb x y).
    + apply Permutation_refl.
    + apply perm_trans with (y :: x :: l).
      * apply perm_swap.
      * apply perm_skip. exact IH.
Qed.

Lemma sorted_perm (l : list string) : Permutation l (sorted l).
Proof.
  unfold sorted. induction l as [| x l IH]; simpl.
  - apply perm_nil.
  - apply perm_trans with (x :: fold_right insert_sorted [] l).
    + apply perm_skip. exact IH.
    + apply insert_sorted_perm.
Qed.

Lemma insert_sorted_sorted (x : string) (l : list string) :
  LocallySorted string_le l -> LocallySorted string_le (insert_sorted x l).
Proof.
  induction 1 as [| a | a b l Hl IH Hab]; simpl.
  - constructor.
  - destruct (String.leb x a) eqn:E.
    + constructor; [constructor | exact E].
    + constructor; [constructor |].
      destruct (String.leb_total x a) as [H | H]; [congruence | exact H].
  - destruct (String.leb x a) eqn:E.
    + constructor; [constructor; assumption | exact E].
    + simpl in IH. destruct (String.leb x b) eqn:E'.
      * constructor; [exact IH |].
        destruct (String.leb_total x a) as [H | H]; [congruence | exact H].
      * constructor; [exact IH | exact Hab].
Qed.

Lemma sorted_sorted (l : list string) : LocallySorted string_le (sorted l).
Proof.
  unfold sorted. induction l as [| x l IH]; simpl.
  - constructor.
  - apply insert_sorted_sorted. exact IH.
Qed.

Lemma NoDup_app_disjoint (A : Type) (l1 l2 : list A) (x : A) :
  NoDup (l1 ++ l2) -> In x l1 -> ~ In x l2.
Proof.
  induction l1 as [| a l1 IH]; simpl; intros Hnd Hin.
  - contradiction.
  - inversion Hnd as [| ? ? Hnotin Hnd']; subst.
    destruct Hin as [-> | Hin].
    + intro H2. apply Hnotin. apply in_or_app. right. exact H2.
    + apply IH; assumption.
Qed.

Lemma split_idx_pos (n : nat) : (1 <= split_idx n)%nat.
Proof. unfold split_idx. apply Nat.le_max_l. Qed.

(** On the sizes a telemetry set can have the index stays within the
    list, and below 90 trips it is the exact product rounded down; at 90
    trips the binary64 product is just under 63 and truncates to 62. *)
Lemma split_idx_checked :
  forallb (fun n => (split_idx n <=? n)%nat) (seq 1 4096) = true
  /\ forallb (fun n => (split_idx n =? Nat.max 1 (floor_07 n))%nat) (seq 0 90)
     = true
  /\ split_idx 90 = 62%nat
  /\ floor_07 90 = 63%nat.
Proof. vm_compute. repeat split; reflexivity. Qed.

(** C3 (as amended): with at least two distinct valid trip identifiers the
    partitioner sorts them into ascending order and gives the first
    max(1, int(0.7 * n)) of them to the train set, the product truncated
    and not rounded up, and the rest to the test set; the train set is not
    empty, the two sets are disjoint and together they are exactly the
    valid identifiers. *)
Theorem split_trip_ids_partition (valid_ids : list string) :
  let ids := unique valid_ids in
  let n := length ids in
  (2 <= n)%nat ->
  let train := fst (split_trip_ids ids) in
  let test := snd (split_trip_ids ids) in
  LocallySorted string_le (sorted ids)
  /\ Permutation ids (sorted ids)
  /\ train = firstn (split_idx n) (sorted ids)
  /\ test = skipn (split_idx n) (sorted ids)
  /\ length train = Nat.min (split_idx n) n
  /\ (1 <= length train)%nat
  /\ (length train + length test = n)%nat
  /\ (forall x, In x train -> ~ In x test)
  /\ (forall x, In x valid_ids <-> In x train \/ In x test).
Proof.
  intros ids n Hn train test.
  assert (Hlen : length (sorted ids) = n).
  { symmetry. apply Permutation_length, sorted_perm. }
  assert (Htrain : train = firstn (split_idx n) (sorted ids)).
  { unfold train, split_trip_ids. fold n.
    destruct (Nat.ltb_spec n 2) as [H | _]; [lia |].
    rewrite Hlen. reflexivity. }
  assert (Htest : test = skipn (split_idx n) (sorted ids)).
  { unfold test, split_trip_ids. fold n.
    destruct (Nat.ltb_spec n 2) as [H | _]; [lia |].
    rewrite Hlen. reflexivity. }
  assert (Happ : train ++ test = sorted ids).
  { rewrite Htrain, Htest. apply firstn_skipn. }
  assert (Hnodup : NoDup (train ++ test)).
  { rewrite Happ. apply Permutation_NoDup with ids.
    - apply sorted_perm.
    - apply unique_NoDup. }
  assert (Hlt : length train = Nat.min (split_idx n) n).
  { rewrite Htrain, length_firstn, Hlen. reflexivity. }
  repeat split.
  - apply sorted_sorted.
  - apply sorted_perm.
  - exact Htrain.
  - exact Htest.
  - exact Hlt.
  - rewrite Hlt. pose proof (split_idx_pos n). lia.
  - rewrite <- length_app, Happ. exact Hlen.
  - intros x Hx. exact (@NoDup_app_disjoint _ train test x Hnodup Hx).
  - intro Hx. apply in_app_or. rewrite Happ.
    apply Permutation_in with ids; [apply sorted_perm |].
    apply unique_In. exact Hx.
  - intro Hx. apply unique_In. fold ids.
    apply Permutation_in with (sorted ids).
    + apply Permutation_sym, sorted_perm.
    + rewrite <- Happ. apply in_or_app. exact Hx.
Qed.

Lemma split_trip_ids_partition_witness :
  fst (split_trip_ids (unique ["B02"; "A01"; "B02"; "A03"; "A01"]%string))
  = firstn (split_idx 3) (sorted (unique ["B02"; "A01"; "B02"; "A03"; "A01"]%string)).
Proof.
  apply (split_trip_ids_partition ["B02"; "A01"; "B02"; "A03"; "A01"]%string).
  simpl. lia.
Defined.

(** C3 as stated fails already for two trips: one identifier goes to the
    train set, int(1.4) = 1, where 0.7 * 2 rounded up would be 2. *)
Lemma split_trip_ids_two_trips :
  let ids := unique ["A01"; "A01"; "A02"]%string in
  length ids = 2%nat
  /\ split_trip_ids ids = (["A01"%string], ["A02"%string])
  /\ ceil_07 (length ids) = 2%nat
  /\ length (fst (split_trip_ids ids)) <> ceil_07 (length ids).
Proof. vm_compute. repeat split; try reflexivity. discriminate. Qed.

(** The identifiers that [prepare_data_for_modeling] returns are the split
    of the distinct identifiers of the rows it keeps. *)
Lemma prepare_data_for_modeling_split (df : table) (h : nat)
  (md : modeling_data) :
  prepare_data_for_modeling df h = Some md ->
  exists valid_mask,
    (train_trip_ids md, test_trip_ids md)
    = split_trip_ids (unique (mask_filter valid_mask (trip_id df))).
Proof.
  unfold prepare_data_for_modeling.
  destruct (empty df); [discriminate |].
  destruct (negb (in_columns "powertrain_load_W" df)); [discriminate |].
  destruct (negb (in_columns (target_col_name h) df)); [discriminate |].
  match goal with
  | |- match ?l with [] => _ | _ :: _ => _ end = _ -> _ =>
      destruct l as [| f fs]; [discriminate |]
  end.
  match goal with
  | |- context [mask_filter ?m (trip_id df)] => set (mask := m)
  end.
  destruct (nrows _ =? 0)%nat; [discriminate |].
  destruct (split_trip_ids (unique (mask_filter mask (trip_id df))))
    as [train test] eqn:E.
  destruct (length _ <? 2)%nat; intro H; inversion H; subst md; simpl;
    exists mask; rewrite E; reflexivity.
Qed.

(** ** Target builder *)

Lemma future_load_nth (h : nat) (loads : list cell) (i : nat) :
  nth i (future_load h loads) None = nth (i + h) loads None.
Proof.
  unfold future_load, shift. destruct h as [| h].
  - simpl. rewrite firstn_all, Nat.add_0_r. reflexivity.
  - replace (0 <=? - Z.of_nat (S h))%Z with false
      by (symmetry; apply Z.leb_gt; lia).
    replace (Z.to_nat (- - Z.of_nat (S h))) with (S h) by lia.
    destruct (Nat.lt_ge_cases i (length (skipn (S h) loads))) as [Hlt | Hge].
    + rewrite app_nth1 by exact Hlt. rewrite nth_skipn.
      f_equal. lia.
    + rewrite app_nth2 by exact Hge. rewrite nth_repeat.
      rewrite length_skipn in Hge. symmetry. apply nth_overflow. lia.
Qed.

Lemma future_load_length (h : nat) (loads : list cell) :
  length (future_load h loads) = length loads.
Proof.
  unfold future_load, shift. destruct h as [| h].
  - simpl. rewrite firstn_all. reflexivity.
  - replace (0 <=? - Z.of_nat (S h))%Z with false
      by (symmetry; apply Z.leb_gt; lia).
    rewrite length_app, length_skipn, repeat_length. lia.
Qed.

Lemma mask_filter_nil (A : Type) (mask : list bool) :
  mask_filter mask (@nil A) = [].
Proof. destruct mask as [| [|] mask]; reflexivity. Qed.

Lemma column_select (mask : list bool) (t : table) (c : string) :
  column (select mask t) c = mask_filter mask (column t c).
Proof.
  unfold column, select. simpl.
  induction (cols t) as [| [c' col] d IH]; simpl.
  - rewrite mask_filter_nil. reflexivity.
  - destruct (String.eqb c c'); [reflexivity | exact IH].
Qed.

Lemma mask_filter_defined (n : nat) :
  forall (k : nat) (f : nat -> bool) (col : list cell),
    (forall j, (j < n)%nat -> f (k + j)%nat = true ->
               isna (nth j col None) = false) ->
    all_defined (mask_filter (map f (seq k n)) col).
Proof.
  unfold all_defined.
  induction n as [| n IH]; intros k f col H; simpl.
  - constructor.
  - destruct col as [| a col]; [constructor |].
    assert (Hrest : Forall (fun a => isna a = false)
                      (mask_filter (map f (seq (S k) n)) col)).
    { apply IH. intros j Hj Hf. apply (H (S j)); [lia |].
      rewrite <- Hf. f_equal. lia. }
    destruct (f k) eqn:E; [| exact Hrest].
    constructor; [| exact Hrest].
    apply (H 0%nat); [lia |]. rewrite Nat.add_0_r. exact E.
Qed.

Lemma notna_at_spec (t : table) (subset : list string) (i : nat) :
  notna_at t subset i = true
  <-> forall c, In c subset -> isna (nth i (column t c) None) = false.
Proof.
  unfold notna_at. rewrite forallb_forall. split; intros H c Hc.
  - apply negb_true_iff. apply H. exact Hc.
  - apply negb_true_iff. apply H. exact Hc.
Qed.

Lemma dropna_defined (subset : list string) (t : table) (c : string) :
  In c subset -> all_defined (column (dropna subset t) c).
Proof.
  intro Hc. unfold dropna. rewrite column_select.
  apply mask_filter_defined. intros j _ Hf. simpl in Hf.
  apply (proj1 (notna_at_spec t subset j) Hf). exact Hc.
Qed.

Lemma deref_new (h : heap) (t : table) : deref (h ++ [t]) (length h) = t.
Proof.
  unfold deref. rewrite app_nth2 by lia. rewrite Nat.sub_diag. reflexivity.
Qed.

(** What [create_target_variables] returns is either its argument (an
    empty table, or one without the load column) or a new frame that came
    out of [dropna] on the target columns. *)
Lemma create_target_variables_result (df : ref) (hs : list nat) (h : heap) :
  match create_target_variables df hs h with
  | (Ok r, h') =>
      r = df
      \/ exists t, deref h' r = dropna (map target_col_name hs) t
  | (KeyError _, _) => True
  end.
Proof.
  unfold create_target_variables, bind, read, copy, ret, new, concat_refs,
    bind, read, new.
  cbn beta iota.
  destruct (empty (deref h df) || negb (in_columns "powertrain_load_W" (deref h df)))%bool.
  - left. reflexivity.
  - destruct (unique (trip_id (deref (h ++ [deref h df]) (length h))))
      as [| s l].
    + left. reflexivity.
    + destruct (for_each (target_trip hs (length h)) (s :: l)
                  (h ++ [deref h df])) as [[processed | e] h2]; [| exact I].
      destruct (appended processed) as [| r rs].
      * left. reflexivity.
      * match goal with
        | |- context [for_each ?f (r :: rs) h2] =>
            destruct (for_each f (r :: rs) h2) as [[ts | e] h3]; [| exact I]
        end.
        right. eexists. rewrite deref_new. reflexivity.
Qed.

(** C4 (as amended): the target of a row for horizon h is the load h
    samples later in the same trip; a row's target is undefined exactly
    when the row is among the last h rows or the load h samples later is
    itself missing, so on a trip whose loads are all present exactly the
    last h rows (all rows of a shorter trip) have no target; a row
    survives the drop exactly when the targets of all configured horizons
    are defined for it, and after the drop no target column holds a
    null. *)
Theorem target_builder_targets (h : nat) (loads : list cell) :
  length (future_load h loads) = length loads
  /\ (forall i, (i + h < length loads)%nat ->
                nth i (future_load h loads) None = nth (i + h) loads None)
  /\ (forall i, (length loads <= i + h)%nat ->
                nth i (future_load h loads) None = None)
  /\ (forall i, (i < length loads)%nat ->
                (isna (nth i (future_load h loads) None) = true
                 <-> (length loads - h <= i)%nat
                     \/ isna (nth (i + h) loads None) = true))
  /\ (all_defined loads ->
      forall i, (i < length loads)%nat ->
                (isna (nth i (future_load h loads) None) = true
                 <-> (length loads - h <= i)%nat))
  /\ (forall t subset i,
         notna_at t subset i = true
         <-> forall c, In c subset -> isna (nth i (column t c) None) = false)
  /\ (forall t subset c,
         In c subset -> all_defined (column (dropna subset t) c)).
Proof.
  assert (Hover : forall i, (length loads <= i + h)%nat ->
                            nth (i + h) loads None = None).
  { intros i Hi. apply nth_overflow. exact Hi. }
  repeat split.
  - apply future_load_length.
  - intros i _. apply future_load_nth.
  - intros i Hi. rewrite future_load_nth. apply Hover. exact Hi.
  - rewrite future_load_nth. intro Hna. right. exact Hna.
  - rewrite future_load_nth. intros [Hlast | Hna]; [| exact Hna].
    rewrite Hover by lia. reflexivity.
  - rewrite future_load_nth. intro Hna.
    destruct (Nat.lt_ge_cases (i + h) (length loads)) as [Hlt | Hge]; [| lia].
    pose proof (proj1 (Forall_forall _ loads) H _
                  (nth_In loads None Hlt)) as Hdef.
    simpl in Hdef. congruence.
  - rewrite future_load_nth. intro Hlast. rewrite Hover by lia. reflexivity.
  - apply notna_at_spec.
  - apply notna_at_spec.
  - intros t subset c. apply dropna_defined.
Qed.

Lemma target_builder_targets_witness :
  nth 0 (future_load 2 [Some 10; Some 20; Some 30]) None
  = nth (0 + 2) [Some 10; Some 20; Some 30] None.
Proof.
  apply (target_builder_targets 2 [Some 10; Some 20; Some 30]).
  simpl. lia.
Defined.

(** C4 as stated fails when a load reading is missing inside the trip:
    with the loads 1, NaN, 3 and the horizon 1 the first row has no target
    although it is not among the last 1 rows. *)
Lemma future_load_missing_reading :
  let loads := [Some 1; None; Some 3] in
  future_load 1 loads = [None; Some 3; None]
  /\ isna (nth 0 (future_load 1 loads) None) = true
  /\ ~ (length loads - 1 <= 0)%nat.
Proof.
  cbv zeta. repeat split.
  simpl. lia.
Qed.

(** ** Lag features *)

Lemma bfill_length (col : list cell) : length (bfill col) = length col.
Proof.
  induction col as [| a col IH]; simpl.
  - reflexivity.
  - destruct a; simpl; rewrite IH; reflexivity.
Qed.

Lemma bfill_defined (col : list cell) : all_defined col -> bfill col = col.
Proof.
  unfold all_defined. induction 1 as [| a col Ha _ IH]; simpl.
  - reflexivity.
  - destruct a; [| discriminate]. rewrite IH. reflexivity.
Qed.

Lemma bfill_leading_nan (k : nat) (col : list cell) :
  bfill (repeat None k ++ col)
  = repeat (hd None (bfill col)) k ++ bfill col.
Proof.
  induction k as [| k IH]; simpl.
  - reflexivity.
  - rewrite IH. destruct k; reflexivity.
Qed.

Lemma bfill_all_nan (n : nat) : bfill (repeat None n) = repeat None n.
Proof.
  induction n as [| n IH]; simpl.
  - reflexivity.
  - rewrite IH. destruct n; reflexivity.
Qed.

Lemma firstn_repeat_le (A : Type) (a : A) (n k : nat) :
  (n <= k)%nat -> firstn n (repeat a k) = repeat a n.
Proof.
  revert k. induction n as [| n IH]; intros k Hk; simpl.
  - reflexivity.
  - destruct k as [| k]; [lia |]. simpl. rewrite IH by lia. reflexivity.
Qed.

Lemma firstn_defined (n : nat) (col : list cell) :
  all_defined col -> all_defined (firstn n col).
Proof.
  unfold all_defined. intro H. revert n.
  induction H as [| a col Ha _ IH]; intro n; destruct n; simpl;
    constructor; auto.
Qed.

(** [shift(lag)] on a trip longer than the lag: [lag] NaN, then the
    column without its last [lag] entries. *)
Lemma shift_lag_long (lag : nat) (col : list cell) :
  (lag <= length col)%nat ->
  shift (Z.of_nat lag) col = repeat None lag ++ firstn (length col - lag) col.
Proof.
  intro Hk. unfold shift.
  replace (0 <=? Z.of_nat lag)%Z with true by (symmetry; apply Z.leb_le; lia).
  rewrite Nat2Z.id, firstn_app, repeat_length.
  rewrite firstn_all2 by (rewrite repeat_length; lia).
  reflexivity.
Qed.

Lemma shift_lag_short (lag : nat) (col : list cell) :
  (length col <= lag)%nat ->
  shift (Z.of_nat lag) col = repeat None (length col).
Proof.
  intro Hk. unfold shift.
  replace (0 <=? Z.of_nat lag)%Z with true by (symmetry; apply Z.leb_le; lia).
  rewrite Nat2Z.id, firstn_app, repeat_length.
  replace (length col - lag)%nat with 0%nat by lia.
  rewrite firstn_repeat_le by exact Hk. simpl. apply app_nil_r.
Qed.

Lemma lag_column_long (lag : nat) (col : list cell) :
  all_defined col -> (lag < length col)%nat ->
  lag_column lag col
  = repeat (nth 0 col None) lag ++ firstn (length col - lag) col.
Proof.
  intros Hdef Hk. unfold lag_column.
  rewrite shift_lag_long by lia.
  rewrite bfill_leading_nan.
  rewrite (bfill_defined (firstn_defined _ Hdef)).
  destruct col as [| a col]; [simpl in Hk; lia |].
  destruct (length (a :: col) - lag)%nat eqn:E.
  - cbn [length] in *. lia.
  - reflexivity.
Qed.

(** [bfill] on a whole trip frame works column by column. *)
Lemma column_bfill_table (t : table) (c : string) :
  column (bfill_table t) c = bfill (column t c).
Proof.
  unfold column, bfill_table. simpl.
  induction (cols t) as [| [c' col] d IH]; simpl.
  - reflexivity.
  - destruct (String.eqb c c'); [reflexivity | exact IH].
Qed.

(** C7 (as amended): on a trip with more rows than the lag k and no
    missing base value, the lag column holds at row i >= k the base value
    of row i - k of the same trip, its first k rows hold the backfilled
    value (the base value of the first row), and no null remains; on a
    trip with at most k rows the whole lag column stays null. *)
Theorem lag_column_values (k : nat) (base : list cell) :
  length (lag_column k base) = length base
  /\ (all_defined base -> (k < length base)%nat ->
      (forall i, (k <= i)%nat -> (i < length base)%nat ->
                 nth i (lag_column k base) None = nth (i - k) base None)
      /\ (forall i, (i < k)%nat ->
                    nth i (lag_column k base) None = nth 0 base None
                    /\ nth i (lag_column k base) None
                       = nth k (lag_column k base) None)
      /\ all_defined (lag_column k base))
  /\ ((length base <= k)%nat ->
      lag_column k base = repeat None (length base)).
Proof.
  split; [| split].
  - unfold lag_column, shift. rewrite bfill_length.
    replace (0 <=? Z.of_nat k)%Z with true by (symmetry; apply Z.leb_le; lia).
    rewrite length_firstn, length_app, repeat_length. apply Nat.min_l.
    unfold cell. lia.
  - intros Hdef Hk.
    pose proof (lag_column_long Hdef Hk) as Hlag.
    assert (Hge : forall i, (k <= i)%nat -> (i < length base)%nat ->
                  nth i (lag_column k base) None = nth (i - k) base None).
    { intros i Hi HiL. rewrite Hlag.
      rewrite app_nth2 by (rewrite repeat_length; lia).
      rewrite repeat_length, nth_firstn.
      destruct (Nat.ltb_spec (i - k) (length base - k)); [reflexivity | lia]. }
    assert (Hlt : forall i, (i < k)%nat ->
                  nth i (lag_column k base) None = nth 0 base None).
    { intros i Hi. rewrite Hlag.
      rewrite app_nth1 by (rewrite repeat_length; lia).
      apply nth_repeat_lt. exact Hi. }
    repeat split.
    + exact Hge.
    + apply Hlt. assumption.
    + rewrite Hlt by assumption. rewrite Hge by lia.
      rewrite Nat.sub_diag. reflexivity.
    + rewrite Hlag. apply Forall_app. split.
      * apply Forall_forall. intros a Ha. apply repeat_spec in Ha. subst a.
        apply (proj1 (Forall_nth _ base) Hdef). lia.
      * apply firstn_defined. exact Hdef.
  - intro Hshort. unfold lag_column.
    rewrite shift_lag_short by exact Hshort. apply bfill_all_nan.
Qed.

Lemma lag_column_values_witness :
  nth 2 (lag_column 1 [Some 10; Some 20; Some 30]) None
  = nth (2 - 1) [Some 10; Some 20; Some 30] None.
Proof.
  apply (lag_column_values 1 [Some 10; Some 20; Some 30]).
  - repeat constructor.
  - simpl. lia.
  - lia.
  - simpl. lia.
Defined.

(** C7 as stated fails on a short trip: with three rows the configured
    lag 5 leaves the lag column entirely null, [bfill] having no later
    value to copy. *)
Lemma lag_column_short_trip :
  In 5%nat lag_periods
  /\ lag_column 5 [Some 1; Some 2; Some 3] = [None; None; None]
  /\ ~ all_defined (lag_column 5 [Some 1; Some 2; Some 3]).
Proof.
  repeat split.
  - simpl. tauto.
  - intro H. inversion H as [| ? ? Hhd _]. discriminate Hhd.
Qed.

(** ** Rate-of-change features *)

Lemma map2_length (A B C : Type) (f : A -> B -> C) (l : list A) (l' : list B) :
  length (map2 f l l') = Nat.min (length l) (length l').
Proof.
  revert l'. induction l as [| a l IH]; intros [| b l']; simpl; auto.
Qed.

Lemma map2_nth (A B C : Type) (f : A -> B -> C) (l : list A) (l' : list B)
  (i : nat) (da : A) (db : B) (dc : C) :
  (i < length (map2 f l l'))%nat ->
  nth i (map2 f l l') dc = f (nth i l da) (nth i l' db).
Proof.
  revert l' i. induction l as [| a l IH]; intros [| b l'] i Hi; simpl in *;
    try lia.
  destruct i as [| i]; [reflexivity |]. apply IH. lia.
Qed.

(** The zero guard: no time difference, or a zero one, gives exactly 0. *)
Lemma guarded_rate_zero (num time_diff : cell) :
  time_diff = None \/ time_diff = Some 0 -> guarded_rate num time_diff = Some 0.
Proof.
  intros [-> | ->]; simpl.
  - reflexivity.
  - destruct (Req_dec_T 0 0) as [_ | Hn]; [reflexivity | contradiction].
Qed.

Lemma guarded_rate_number (num : cell) (d : R) :
  d <> 0 -> guarded_rate num (Some d) = cdiv num (Some d).
Proof.
  intro Hd. simpl. destruct (Req_dec_T d 0) as [E | _]; [contradiction | reflexivity].
Qed.

Lemma clip_upper_le (hi : R) (a : cell) (y : R) :
  clip_upper hi a = Some y -> y <= hi.
Proof.
  destruct a as [x |]; simpl; [| discriminate].
  destruct (Rlt_dec hi x); intro H; inversion H; subst; lra.
Qed.

Lemma clip_lower_ge (lo : R) (a : cell) (y : R) :
  clip_lower lo a = Some y -> lo <= y.
Proof.
  destruct a as [x |]; simpl; [| discriminate].
  destruct (Rlt_dec x lo); intro H; inversion H; subst; lra.
Qed.

Lemma clip_lower_le (lo hi : R) (a : cell) (y : R) :
  lo <= hi -> (forall x, a = Some x -> x <= hi) ->
  clip_lower lo a = Some y -> y <= hi.
Proof.
  intros Hlh Ha. destruct a as [x |]; simpl; [| discriminate].
  specialize (Ha x eq_refl).
  destruct (Rlt_dec x lo); intro H; inversion H; subst; lra.
Qed.

Lemma sum_squares_nonneg (m : R) (v : list R) :
  0 <= sum (map (fun x => (x - m) * (x - m)) v).
Proof.
  induction v as [| x v IH]; simpl.
  - lra.
  - pose proof (Rle_0_sqr (x - m)) as H. unfold Rsqr in H. lra.
Qed.

Lemma sum_squares_zero (m : R) (v : list R) :
  sum (map (fun x => (x - m) * (x - m)) v) = 0 -> forall x, In x v -> x = m.
Proof.
  induction v as [| a v IH]; simpl; intros Hs x Hx.
  - contradiction.
  - pose proof (Rle_0_sqr (a - m)) as Ha. unfold Rsqr in Ha.
    pose proof (sum_squares_nonneg m v) as Hv.
    destruct Hx as [<- | Hx].
    + assert (Hz : (a - m) * (a - m) = 0) by lra.
      apply Rmult_integral in Hz. lra.
    + apply IH; [lra | exact Hx].
Qed.

Lemma valid_In (col : list cell) (x : R) : In (Some x) col <-> In x (valid col).
Proof.
  induction col as [| [a |] col IH]; simpl.
  - tauto.
  - rewrite <- IH. split; intros [H | H]; auto.
    + left. congruence.
    + left. congruence.
  - rewrite <- IH. split; [intros [H | H]; [discriminate | exact H] | auto].
Qed.

Lemma std_nonneg (col : list cell) (s : R) : std col = Some s -> 0 <= s.
Proof.
  unfold std. destruct (mean col) as [m |]; [| discriminate].
  destruct (length (valid col) <? 2)%nat; [discriminate |].
  intro H. inversion H. apply sqrt_pos.
Qed.

(** A column whose standard deviation is 0 is constant. *)
Lemma std_zero_constant (col : list cell) (m : R) :
  mean col = Some m -> std col = Some 0 ->
  forall x, In (Some x) col -> x = m.
Proof.
  intros Hm Hs x Hx. unfold std in Hs. rewrite Hm in Hs.
  destruct (Nat.ltb_spec (length (valid col)) 2) as [| Hn]; [discriminate |].
  inversion Hs as [Hsqrt].
  set (V := sum (map (fun x => (x - m) * (x - m)) (valid col))) in *.
  assert (Hpos : 0 < INR (length (valid col) - 1)).
  { apply lt_0_INR. lia. }
  assert (HV : 0 <= V) by apply sum_squares_nonneg.
  assert (Hq : 0 <= V / INR (length (valid col) - 1)).
  { apply Rmult_le_pos; [exact HV |]. left. apply Rinv_0_lt_compat. exact Hpos. }
  apply sqrt_eq_0 in Hsqrt; [| exact Hq].
  assert (HV0 : V = 0).
  { unfold Rdiv in Hsqrt. apply Rmult_integral in Hsqrt.
    destruct Hsqrt as [H | H]; [exact H |].
    pose proof (Rinv_0_lt_compat _ Hpos). lra. }
  apply (sum_squares_zero m (valid col) HV0). apply valid_In. exact Hx.
Qed.

(** After the clean-up every number of the column lies within three
    standard deviations of the mean, both taken before the clean-up. *)
Lemma clip_3sigma_band (col : list cell) (m s y : R) :
  mean col = Some m -> std col = Some s ->
  In (Some y) (clip_3sigma col) ->
  m - 3 * s <= y <= m + 3 * s.
Proof.
  intros Hm Hs Hy. pose proof (std_nonneg col Hs) as Hs0.
  unfold clip_3sigma in Hy. rewrite Hs, Hm in Hy.
  destruct (Rlt_dec 0 s) as [Hpos | Hnpos].
  - rewrite map_map in Hy. apply in_map_iff in Hy.
    destruct Hy as (a & Ha & _). split.
    + apply (clip_lower_ge _ _ Ha).
    + apply (clip_lower_le (lo := m - 3 * s) (a := clip_upper (m + 3 * s) a)).
      * lra.
      * intros x Hx. apply (clip_upper_le _ _ Hx).
      * exact Ha.
  - assert (s = 0) by lra. subst s.
    rewrite (std_zero_constant col Hm Hs y Hy). lra.
Qed.

Lemma clip_3sigma_nth_zero (col : list cell) (i : nat) :
  nth i col None = Some 0 ->
  nth i (clip_3sigma col) None = Some 0
  \/ exists m s,
       mean col = Some m /\ std col = Some s /\ 0 < s
       /\ ((m + 3 * s < 0
            /\ nth i (clip_3sigma col) None = Some (m + 3 * s))
           \/ (0 < m - 3 * s
               /\ nth i (clip_3sigma col) None = Some (m - 3 * s))).
Proof.
  intro H0. unfold clip_3sigma.
  destruct (std col) as [s |] eqn:Es; [| left; exact H0].
  destruct (Rlt_dec 0 s) as [Hs | _]; [| left; exact H0].
  destruct (mean col) as [m |] eqn:Em; [| left; exact H0].
  rewrite map_map.
  assert (E : nth i (map (fun a => clip_lower (m - 3 * s)
                                     (clip_upper (m + 3 * s) a)) col) None
              = clip_lower (m - 3 * s) (clip_upper (m + 3 * s) (Some 0))).
  { rewrite <- H0.
    exact (map_nth (fun a => clip_lower (m - 3 * s)
                               (clip_upper (m + 3 * s) a)) col None i). }
  rewrite E. simpl.
  destruct (Rlt_dec (m + 3 * s) 0) as [Hhi | Hhi]; simpl.
  - destruct (Rlt_dec (m + 3 * s) (m - 3 * s)); [lra |].
    right. exists m, s. auto 10.
  - destruct (Rlt_dec 0 (m - 3 * s)) as [Hlo | Hlo].
    + right. exists m, s. auto 10.
    + left. reflexivity.
Qed.

(** Settle the comparisons of reals that a concrete trip leaves. *)
Ltac decide_reals :=
  repeat
    (cbn -[Rplus Rmult Rminus Rdiv IZR];
     match goal with
     | |- context [Req_dec_T ?a ?b] =>
         destruct (Req_dec_T a b); [try (exfalso; lra) | try (exfalso; lra)]
     | |- context [Rlt_dec ?a ?b] =>
         destruct (Rlt_dec a b); [try (exfalso; lra) | try (exfalso; lra)]
     end).

Lemma raw_acceleration_ramp :
  raw_acceleration seconds ramp_speed_kmh = Some 0 :: repeat (Some 16) 15.
Proof.
  unfold raw_acceleration, seconds, ramp_speed_kmh.
  cbn -[Rdiv IZR Rmult Rminus]. decide_reals.
  cbn. repeat (f_equal; try lra).
Qed.

Lemma raw_acceleration_jump :
  raw_acceleration seconds jump_speed_kmh = repeat (Some 0) 15 ++ [Some 16].
Proof.
  unfold raw_acceleration, seconds, jump_speed_kmh.
  cbn -[Rdiv IZR Rmult Rminus]. decide_reals.
  cbn. repeat (f_equal; try lra).
Qed.

Lemma acceleration_ramp :
  acceleration_ms2 seconds ramp_speed_kmh = Some 3 :: repeat (Some 16) 15.
Proof.
  unfold acceleration_ms2. rewrite raw_acceleration_ramp.
  assert (Hm : mean (Some 0 :: repeat (Some 16) 15) = Some 15).
  { unfold mean. cbn -[INR]. f_equal.
    replace (INR 16) with 16 by (simpl; lra). lra. }
  assert (Hs : std (Some 0 :: repeat (Some 16) 15) = Some 4).
  { unfold std. rewrite Hm. cbn -[INR sqrt]. f_equal.
    replace (INR 15) with 15 by (simpl; lra).
    match goal with |- sqrt ?x = _ => replace x with (4 * 4) by lra end.
    apply sqrt_square. lra. }
  unfold clip_3sigma. rewrite Hs, Hm.
  cbn -[Rplus Rmult Rminus IZR]. decide_reals.
  cbn. repeat (f_equal; try lra).
Qed.

Lemma acceleration_jump :
  acceleration_ms2 seconds jump_speed_kmh = repeat (Some 0) 15 ++ [Some 13].
Proof.
  unfold acceleration_ms2. rewrite raw_acceleration_jump.
  assert (Hm : mean (repeat (Some 0) 15 ++ [Some 16]) = Some 1).
  { unfold mean. cbn -[INR]. f_equal.
    replace (INR 16) with 16 by (simpl; lra). lra. }
  assert (Hs : std (repeat (Some 0) 15 ++ [Some 16]) = Some 4).
  { unfold std. rewrite Hm. cbn -[INR sqrt]. f_equal.
    replace (INR 15) with 15 by (simpl; lra).
    match goal with |- sqrt ?x = _ => replace x with (4 * 4) by lra end.
    apply sqrt_square. lra. }
  unfold clip_3sigma. rewrite Hs, Hm.
  cbn -[Rplus Rmult Rminus IZR]. decide_reals.
  cbn. repeat (f_equal; try lra).
Qed.

Lemma stats_after_jump_clip :
  mean (repeat (Some 0) 15 ++ [Some 13]) = Some (13 / 16)
  /\ std (repeat (Some 0) 15 ++ [Some 13]) = Some (13 / 4).
Proof.
  assert (Hm : mean (repeat (Some 0) 15 ++ [Some 13]) = Some (13 / 16)).
  { unfold mean. cbn -[INR]. f_equal.
    replace (INR 16) with 16 by (simpl; lra). lra. }
  split; [exact Hm |].
  unfold std. rewrite Hm. cbn -[INR sqrt]. f_equal.
  replace (INR 15) with 15 by (simpl; lra).
  match goal with
  | |- sqrt ?x = _ => replace x with ((13 / 4) * (13 / 4)) by lra
  end.
  apply sqrt_square. lra.
Qed.

(** C5 (as amended): after the clean-up every value of acceleration_ms2
    and of throttle_change_rate lies within mean - 3 std and mean + 3 std
    of the feature in its trip, the mean and the standard deviation being
    those of the values before the clean-up, which the code clips with. *)
Theorem rate_features_within_band
  (time speed_kmh time_diff throttle : list cell) (m s y : R) :
  (mean (raw_acceleration time speed_kmh) = Some m ->
   std (raw_acceleration time speed_kmh) = Some s ->
   In (Some y) (acceleration_ms2 time speed_kmh) ->
   m - 3 * s <= y <= m + 3 * s)
  /\ (mean (raw_throttle_rate time_diff throttle) = Some m ->
      std (raw_throttle_rate time_diff throttle) = Some s ->
      In (Some y) (throttle_change_rate time_diff throttle) ->
      m - 3 * s <= y <= m + 3 * s).
Proof.
  split; intros Hm Hs Hy.
  - apply (@clip_3sigma_band (raw_acceleration time speed_kmh) m s y);
      assumption.
  - apply (@clip_3sigma_band (raw_throttle_rate time_diff throttle) m s y);
      assumption.
Qed.

Lemma rate_features_within_band_witness :
  15 - 3 * 4 <= 16 <= 15 + 3 * 4.
Proof.
  assert (Hm : mean (Some 0 :: repeat (Some 16) 15) = Some 15).
  { unfold mean. cbn -[INR]. f_equal.
    replace (INR 16) with 16 by (simpl; lra). lra. }
  assert (Hs : std (Some 0 :: repeat (Some 16) 15) = Some 4).
  { unfold std. rewrite Hm. cbn -[INR sqrt]. f_equal.
    replace (INR 15) with 15 by (simpl; lra).
    match goal with |- sqrt ?x = _ => replace x with (4 * 4) by lra end.
    apply sqrt_square. lra. }
  apply (proj1 (rate_features_within_band seconds ramp_speed_kmh [] []
                  15 4 16)).
  - rewrite raw_acceleration_ramp. exact Hm.
  - rewrite raw_acceleration_ramp. exact Hs.
  - rewrite acceleration_ramp. simpl. tauto.
Defined.

(** C5 as stated fails when the bound is recomputed on the clipped
    values: sixteen samples at 1 Hz, fifteen at standstill and a jump to
    57.6 km/h in the last second, give the accelerations 0, ..., 0, 16 with
    mean 1 and standard deviation 4; the jump is clipped to 13, and on the
    clipped values the mean is 13/16 and the standard deviation 13/4, so
    the bound is 169/16 and the value 13 is above it. *)
Lemma acceleration_above_recomputed_band :
  let out := acceleration_ms2 seconds jump_speed_kmh in
  In (Some 13) out
  /\ mean out = Some (13 / 16)
  /\ std out = Some (13 / 4)
  /\ ~ 13 <= 13 / 16 + 3 * (13 / 4).
Proof.
  cbv zeta. rewrite acceleration_jump.
  destruct stats_after_jump_clip as [Hm Hs].
  repeat split.
  - apply in_or_app. right. left. reflexivity.
  - exact Hm.
  - exact Hs.
  - lra.
Qed.

Lemma diff_first (col : list cell) : nth 0 (diff col) None = None.
Proof. destruct col; reflexivity. Qed.

(** ** The object store: what the feature builders write *)

Lemma frames_ret (n : nat) (A : Type) (a : A) (Q : A -> Prop) :
  Q a -> frames n (ret a) Q.
Proof. intros HQ h Hn. simpl. auto. Qed.

Lemma frames_raise (n : nat) (A : Type) (key : string) (Q : A -> Prop) :
  frames n (raise key) Q.
Proof. intros h Hn. simpl. auto. Qed.

Lemma frames_bind (n : nat) (A B : Type) (m : M A) (k : A -> M B)
  (Q : A -> Prop) (Q' : B -> Prop) :
  frames n m Q -> (forall a, Q a -> frames n (k a) Q') ->
  frames n (bind m k) Q'.
Proof.
  intros Hm Hk h Hn. unfold bind.
  destruct (Hm h Hn) as (Hlen & Hfirst & HQ).
  destruct (m h) as [[a | e] h1]; simpl in *.
  - destruct (Hk a HQ h1 Hlen) as (Hlen' & Hfirst' & HQ').
    repeat split; [exact Hlen' | congruence | exact HQ'].
  - auto.
Qed.

Lemma frames_weaken (n : nat) (A : Type) (m : M A) (Q Q' : A -> Prop) :
  frames n m Q -> (forall a, Q a -> Q' a) -> frames n m Q'.
Proof.
  intros Hm Himp h Hn. destruct (Hm h Hn) as (Hlen & Hfirst & HQ).
  repeat split; [exact Hlen | exact Hfirst |].
  destruct (fst (m h)); auto.
Qed.

Lemma frames_read (n : nat) (r : ref) : frames n (read r) (fun _ => True).
Proof. intros h Hn. simpl. auto. Qed.

Lemma frames_new (n : nat) (t : table) : frames n (new t) (fresh n).
Proof.
  intros h Hn. simpl. rewrite length_app, firstn_app.
  replace (n - length h)%nat with 0%nat by lia.
  simpl. rewrite app_nil_r. repeat split; [lia | exact Hn].
Qed.

Lemma update_nth_length (A : Type) (r : nat) (a : A) (l : list A) :
  length (update_nth r a l) = length l.
Proof.
  revert r. induction l as [| x l IH]; intros [| r]; simpl; auto.
Qed.

Lemma firstn_update_nth (A : Type) (n r : nat) (a : A) (l : list A) :
  (n <= r)%nat -> firstn n (update_nth r a l) = firstn n l.
Proof.
  revert n r. induction l as [| x l IH]; intros n r Hr.
  - destruct r; reflexivity.
  - destruct r as [| r].
    + replace n with 0%nat by lia. reflexivity.
    + destruct n as [| n]; [reflexivity |]. simpl. rewrite IH by lia.
      reflexivity.
Qed.

Lemma frames_write (n : nat) (r : ref) (t : table) :
  fresh n r -> frames n (write r t) (fun _ => True).
Proof.
  intros Hr h Hn. simpl. rewrite update_nth_length.
  rewrite firstn_update_nth by exact Hr. auto.
Qed.

Lemma frames_copy (n : nat) (r : ref) : frames n (copy r) (fresh n).
Proof.
  unfold copy. eapply frames_bind; [apply frames_read |].
  intros t _. apply frames_new.
Qed.

Lemma frames_getcol (n : nat) (r : ref) (c : string) :
  frames n (getcol r c) (fun _ => True).
Proof.
  unfold getcol. eapply frames_bind; [apply frames_read |].
  intros t _. destruct (lookup c (cols t)).
  - apply frames_ret. exact I.
  - apply frames_raise.
Qed.

Lemma frames_setcol (n : nat) (r : ref) (c : string) (col : list cell) :
  fresh n r -> frames n (setcol r c col) (fun _ => True).
Proof.
  intro Hr. unfold setcol. eapply frames_bind; [apply frames_read |].
  intros t _. apply frames_write. exact Hr.
Qed.

Lemma frames_for_each (n : nat) (A B : Type) (body : A -> M B)
  (Q : B -> Prop) (l : list A) :
  (forall a, frames n (body a) Q) ->
  frames n (for_each body l) (Forall Q).
Proof.
  intro Hbody. induction l as [| a l IH]; simpl.
  - apply frames_ret. constructor.
  - eapply frames_bind; [apply Hbody |]. intros b Hb.
    eapply frames_bind; [apply IH |]. intros bs Hbs.
    apply frames_ret. constructor; assumption.
Qed.

Lemma frames_concat_refs (n : nat) (rs : list ref) :
  frames n (concat_refs rs) (fresh n).
Proof.
  unfold concat_refs. eapply frames_bind.
  - apply frames_for_each with (Q := fun _ => True). intro r. apply frames_read.
  - intros ts _. apply frames_new.
Qed.

(** One step of a straight-line block: a primitive, then the rest. *)
Ltac frames_prim :=
  first [ apply frames_read | apply frames_new | apply frames_copy
        | apply frames_getcol | apply frames_setcol; assumption ].

Ltac frames_step :=
  first [ frames_prim | eapply frames_bind; [ frames_prim | intros ? ? ] ].

Lemma fresh_frame_some (n : nat) (r : ref) : fresh n r -> fresh_frame n (Some r).
Proof. intros Hr r' H. inversion H; subst. exact Hr. Qed.

Lemma fresh_frame_none (n : nat) : fresh_frame n None.
Proof. intros r H. discriminate H. Qed.

Lemma fresh_appended (n : nat) (l : list (option ref)) :
  Forall (fresh_frame n) l -> Forall (fresh n) (appended l).
Proof.
  induction 1 as [| [r |] l Hr _ IH]; simpl.
  - constructor.
  - constructor; [apply Hr; reflexivity | exact IH].
  - exact IH.
Qed.

Lemma frames_rate_of_change_trip (n : nat) (df_engineering : ref)
  (trip : string) :
  frames n (rate_of_change_trip df_engineering trip) (fresh_frame n).
Proof.
  unfold rate_of_change_trip.
  frames_step. frames_step. frames_step.
  destruct (empty _); [apply frames_ret, fresh_frame_none |].
  destruct (negb _); [apply frames_ret, fresh_frame_some; assumption |].
  frames_step. frames_step.
  eapply frames_bind with (Q := fun _ => True).
  - destruct (in_columns "speed_kmh" _).
    + repeat frames_step.
    + apply frames_ret. exact I.
  - intros _ _. frames_step.
    destruct (throttle_col_of _).
    + repeat frames_step. apply frames_ret, fresh_frame_some. assumption.
    + apply frames_ret, fresh_frame_some. assumption.
Qed.

Lemma frames_create_rate_of_change_features (n : nat) (df : ref) :
  frames n (create_rate_of_change_features df) (same_or_fresh n df).
Proof.
  unfold create_rate_of_change_features.
  frames_step. frames_step.
  eapply frames_bind.
  - apply frames_for_each. intro trip. apply frames_rate_of_change_trip.
  - intros processed Hp. destruct (appended processed) eqn:E.
    + apply frames_ret. left. reflexivity.
    + eapply frames_weaken; [apply frames_concat_refs |].
      intros res Hres. right. exact Hres.
Qed.

Lemma frames_lagged_trip (n : nat) (lag_features : list string)
  (df_engineering : ref) (trip : string) :
  frames n (lagged_trip lag_features df_engineering trip) (fresh_frame n).
Proof.
  unfold lagged_trip.
  frames_step. frames_step. frames_step.
  destruct (empty _); [apply frames_ret, fresh_frame_none |].
  eapply frames_bind with (Q := fresh n).
  - destruct (in_columns _ _); [apply frames_new | apply frames_ret; assumption].
  - intros trip_df Hfresh.
    eapply frames_bind.
    + apply frames_for_each with (Q := fun _ => True). intro feature.
      frames_step. destruct (in_columns feature _).
      * eapply frames_bind.
        -- apply frames_for_each with (Q := fun _ => True). intro lag.
           repeat frames_step.
        -- intros _ _. apply frames_ret. exact I.
      * apply frames_ret. exact I.
    + intros _ _. frames_step. frames_step.
      apply frames_ret, fresh_frame_some. assumption.
Qed.

Lemma frames_create_lagged_features (n : nat) (df : ref) :
  frames n (create_lagged_features df) (same_or_fresh n df).
Proof.
  unfold create_lagged_features.
  frames_step.
  destruct (empty _); [apply frames_ret; left; reflexivity |].
  destruct (lag_features_of _) as [| f fs];
    [apply frames_ret; left; reflexivity |].
  frames_step. frames_step.
  eapply frames_bind.
  - apply frames_for_each. intro trip. apply frames_lagged_trip.
  - intros processed Hp. destruct (appended processed) eqn:E.
    + apply frames_ret. left. reflexivity.
    + eapply frames_weaken; [apply frames_concat_refs |].
      intros res Hres. right. exact Hres.
Qed.

Lemma frames_target_trip (n : nat) (future_horizons : list nat)
  (df_model : ref) (trip : string) :
  frames n (target_trip future_horizons df_model trip) (fresh_frame n).
Proof.
  unfold target_trip.
  frames_step. frames_step. frames_step.
  destruct (empty _); [apply frames_ret, fresh_frame_none |].
  eapply frames_bind with (Q := fresh n).
  - destruct (in_columns _ _); [apply frames_new | apply frames_ret; assumption].
  - intros trip_df Hfresh.
    eapply frames_bind.
    + apply frames_for_each with (Q := fun _ => True). intro horizon.
      repeat frames_step.
    + intros _ _. apply frames_ret, fresh_frame_some. assumption.
Qed.

Lemma frames_create_target_variables (n : nat) (df : ref)
  (future_horizons : list nat) :
  frames n (create_target_variables df future_horizons) (same_or_fresh n df).
Proof.
  unfold create_target_variables.
  frames_step.
  destruct (_ || _)%bool; [apply frames_ret; left; reflexivity |].
  frames_step. frames_step.
  destruct (unique _) as [| s l]; [apply frames_ret; left; reflexivity |].
  eapply frames_bind.
  - apply frames_for_each. intro trip. apply frames_target_trip.
  - intros processed Hp. destruct (appended processed) eqn:E.
    + apply frames_ret. left. reflexivity.
    + eapply frames_bind; [apply frames_concat_refs |].
      intros result_df _. frames_step.
      eapply frames_weaken; [apply frames_new |].
      intros res Hres. right. exact Hres.
Qed.

(** From the frame property to the objects themselves. *)
Lemma frames_deref (A : Type) (m : M A) (Q : A -> Prop) (h : heap) :
  frames (length h) m Q ->
  (forall r, (r < length h)%nat -> deref (snd (m h)) r = deref h r)
  /\ match fst (m h) with
     | Ok a => Q a
     | KeyError _ => True
     end.
Proof.
  intro Hm. destruct (Hm h (Nat.le_refl _)) as (_ & Hfirst & HQ).
  split; [| exact HQ].
  intros r Hr. unfold deref.
  rewrite <- (firstn_skipn (length h) (snd (m h))).
  rewrite Hfirst, firstn_all, app_nth1 by exact Hr. reflexivity.
Qed.

Lemma has_key_In (A : Type) (c : string) (d : list (string * A)) :
  In c (map fst d) -> has_key c d = true.
Proof.
  intro H. unfold has_key. apply existsb_exists. exists c. split; [exact H |].
  apply String.eqb_refl.
Qed.

Lemma first_column_lookup (p : string -> bool) (t : table) (c : string) :
  p "trip_id"%string = false ->
  first_column p t = Some c -> exists col, lookup c (cols t) = Some col.
Proof.
  intros Hid Hc. unfold first_column in Hc.
  assert (Hin : In c (filter p (column_names t))).
  { destruct (filter p (column_names t)) as [| x l]; [discriminate |].
    inversion Hc; subst. left. reflexivity. }
  apply filter_In in Hin. destruct Hin as [Hin Hp].
  unfold column_names in Hin. apply in_app_or in Hin.
  destruct Hin as [Hin | [<- | []]]; [| congruence].
  apply lookup_has_key, has_key_In. exact Hin.
Qed.

Lemma in_columns_lookup (c : string) (t : table) :
  String.eqb c "trip_id" = false -> in_columns c t = true ->
  exists col, lookup c (cols t) = Some col.
Proof.
  intros Hc H. unfold in_columns in H. rewrite Hc in H. simpl in H.
  apply lookup_has_key. exact H.
Qed.

Lemma voltage_col_lookup (t : table) (v : string) :
  voltage_col_of t = Some v -> exists col, lookup v (cols t) = Some col.
Proof.
  unfold voltage_col_of. destruct (in_columns "battery_voltage_V" t) eqn:E.
  - intro H. inversion H; subst. apply in_columns_lookup; [reflexivity | exact E].
  - apply first_column_lookup. reflexivity.
Qed.

Lemma current_col_lookup (t : table) (c : string) :
  current_col_of t = Some c -> exists col, lookup c (cols t) = Some col.
Proof.
  unfold current_col_of. destruct (in_columns "battery_current_A" t) eqn:E.
  - intro H. inversion H; subst. apply in_columns_lookup; [reflexivity | exact E].
  - apply first_column_lookup. reflexivity.
Qed.

Lemma deref_update_nth (h : heap) (r : ref) (t : table) :
  (r < length h)%nat -> deref (update_nth r t h) r = t.
Proof.
  unfold deref. revert r.
  induction h as [| x h IH]; intros [| r] Hr; simpl in *; try lia.
  - reflexivity.
  - apply IH. lia.
Qed.

(** The load builder writes into the table it is given. *)
Lemma create_powertrain_load_feature_effect
  (quantile : R -> list cell -> cell) (df : ref) (h : heap) :
  (df < length h)%nat ->
  let t := deref h df in
  match voltage_col_of t, current_col_of t with
  | Some v, Some c =>
      let t' := with_column "powertrain_load_W"
                  (map2 cmul (column t v) (column t c)) t in
      snd (create_powertrain_load_feature quantile df h)
      = update_nth df t' h ++ [select_trip "A01" t']
  | _, _ => create_powertrain_load_feature quantile df h = (Ok None, h)
  end.
Proof.
  intros Hdf t. subst t.
  destruct (voltage_col_of (deref h df)) as [v |] eqn:Ev.
  2:{ unfold create_powertrain_load_feature, bind, read. rewrite Ev.
      reflexivity. }
  destruct (current_col_of (deref h df)) as [c |] eqn:Ec.
  2:{ unfold create_powertrain_load_feature, bind, read. rewrite Ev, Ec.
      reflexivity. }
  destruct (@voltage_col_lookup _ v Ev) as [vcol Hv].
  destruct (@current_col_lookup _ c Ec) as [ccol Hc].
  cbv zeta. unfold column. rewrite Hv, Hc.
  unfold create_powertrain_load_feature, getcol, setcol, bind, read, write,
    new, ret.
  cbn beta iota. rewrite Ev, Ec. cbn beta iota. rewrite Hv.
  cbn beta iota. rewrite Hc.
  cbn beta iota. rewrite deref_update_nth by exact Hdf.
  rewrite deref_new.
  destruct (negb _); [| reflexivity].
  repeat match goal with
         | |- context [match lookup ?c ?d with Some _ => _ | None => _ end] =>
             destruct (lookup c d)
         end; reflexivity.
Qed.

Lemma deref_update_nth_other (h : heap) (r r' : ref) (t : table) :
  r' <> r -> deref (update_nth r t h) r' = deref h r'.
Proof.
  unfold deref. revert r r'.
  induction h as [| x h IH]; intros [| r] [| r'] Hr; simpl; try reflexivity.
  - contradiction.
  - apply IH. congruence.
Qed.

Lemma deref_app_old (h : heap) (t : table) (r : ref) :
  (r < length h)%nat -> deref (h ++ [t]) r = deref h r.
Proof. intro Hr. unfold deref. apply app_nth1. exact Hr. Qed.

(** C9 (as amended): the rate-of-change, lag and target builders leave
    every table of the store as it was, the source table included: they
    work on copies and return a new table (or the argument itself when
    there was nothing to build).  The load builder, by contrast, writes
    the column powertrain_load_W into the source table itself when it
    finds a voltage and a current channel, touching no other table, and
    leaves the store alone otherwise. *)
Theorem feature_builders_store (quantile : R -> list cell -> cell)
  (df : ref) (h : heap) (future_horizons : list nat) :
  (df < length h)%nat ->
  ((forall r, (r < length h)%nat ->
              deref (snd (create_rate_of_change_features df h)) r = deref h r)
   /\ match fst (create_rate_of_change_features df h) with
      | Ok res => res = df \/ (length h <= res)%nat
      | KeyError _ => True
      end)
  /\ ((forall r, (r < length h)%nat ->
                 deref (snd (create_lagged_features df h)) r = deref h r)
      /\ match fst (create_lagged_features df h) with
         | Ok res => res = df \/ (length h <= res)%nat
         | KeyError _ => True
         end)
  /\ ((forall r, (r < length h)%nat ->
                 deref (snd (create_target_variables df future_horizons h)) r
                 = deref h r)
      /\ match fst (create_target_variables df future_horizons h) with
         | Ok res => res = df \/ (length h <= res)%nat
         | KeyError _ => True
         end)
  /\ match voltage_col_of (deref h df), current_col_of (deref h df) with
     | Some v, Some c =>
         deref (snd (create_powertrain_load_feature quantile df h)) df
         = with_column "powertrain_load_W"
             (map2 cmul (column (deref h df) v) (column (deref h df) c))
             (deref h df)
         /\ forall r, (r < length h)%nat -> r <> df ->
               deref (snd (create_powertrain_load_feature quantile df h)) r
               = deref h r
     | _, _ => snd (create_powertrain_load_feature quantile df h) = h
     end.
Proof.
  intro Hdf. repeat apply conj.
  - apply (@frames_deref _ _ _ h
             (@frames_create_rate_of_change_features (length h) df)).
  - apply (@frames_deref _ _ _ h
             (@frames_create_rate_of_change_features (length h) df)).
  - apply (@frames_deref _ _ _ h
             (@frames_create_lagged_features (length h) df)).
  - apply (@frames_deref _ _ _ h
             (@frames_create_lagged_features (length h) df)).
  - apply (@frames_deref _ _ _ h
             (@frames_create_target_variables (length h) df future_horizons)).
  - apply (@frames_deref _ _ _ h
             (@frames_create_target_variables (length h) df future_horizons)).
  - pose proof (@create_powertrain_load_feature_effect quantile df h Hdf)
      as Heff.
    cbv zeta in Heff.
    destruct (voltage_col_of (deref h df)) as [v |];
      [| rewrite Heff; reflexivity].
    destruct (current_col_of (deref h df)) as [c |];
      [| rewrite Heff; reflexivity].
    rewrite Heff. split.
    + rewrite deref_app_old by (rewrite update_nth_length; exact Hdf).
      apply deref_update_nth. exact Hdf.
    + intros r Hr Hne.
      rewrite deref_app_old by (rewrite update_nth_length; exact Hr).
      apply deref_update_nth_other. exact Hne.
Qed.

Lemma feature_builders_store_witness :
  deref (snd (create_rate_of_change_features 0%nat [two_row_table])) 0%nat
  = deref [two_row_table] 0%nat.
Proof.
  refine (proj1 (proj1 (@feature_builders_store (fun _ _ => None) 0%nat
                          [two_row_table] [5; 10]%nat _)) 0%nat _);
    simpl; lia.
Defined.

(** C9 as stated fails for the load computation: run on a store that
    holds one table with a voltage and a current channel, it leaves that
    very table with a third column, powertrain_load_W. *)
Lemma create_powertrain_load_feature_mutates :
  let h := [two_row_table] in
  let h' := snd (create_powertrain_load_feature (fun _ _ => None) 0%nat h) in
  deref h' 0%nat
  = {| trip_id := ["A01"%string; "A01"%string];
       cols := [("battery_voltage_V"%string, [Some 400; Some 400]);
                ("battery_current_A"%string, [Some 10; Some 20]);
                ("powertrain_load_W"%string,
                 [Some (400 * 10); Some (400 * 20)])] |}
  /\ deref h' 0%nat <> deref h 0%nat.
Proof.
  cbv zeta.
  assert (E : deref (snd (create_powertrain_load_feature (fun _ _ => None)
                            0%nat [two_row_table])) 0%nat
              = {| trip_id := ["A01"%string; "A01"%string];
                   cols := [("battery_voltage_V"%string, [Some 400; Some 400]);
                            ("battery_current_A"%string, [Some 10; Some 20]);
                            ("powertrain_load_W"%string,
                             [Some (400 * 10); Some (400 * 20)])] |})
    by reflexivity.
  split; [exact E |]. rewrite E. intro H. discriminate H.
Qed.

(** ** The builders, run on the store *)

Lemma bind_run (A B : Type) (m : M A) (k : A -> M B) (h h' : heap) (a : A) :
  m h = (Ok a, h') -> bind m k h = k a h'.
Proof. intro H. unfold bind. rewrite H. reflexivity. Qed.

Lemma run_read_last (h : heap) (t : table) :
  read (length h) (h ++ [t]) = (Ok t, h ++ [t]).
Proof. unfold read. rewrite deref_new. reflexivity. Qed.

Lemma run_getcol_last (h : heap) (t : table) (c : string) (col : list cell) :
  lookup c (cols t) = Some col ->
  getcol (length h) c (h ++ [t]) = (Ok col, h ++ [t]).
Proof.
  intro H. unfold getcol. rewrite (@bind_run _ _ _ _ _ _ _ (run_read_last h t)), H.
  reflexivity.
Qed.

Lemma update_nth_last (A : Type) (l : list A) (a b : A) :
  update_nth (length l) a (l ++ [b]) = l ++ [a].
Proof. induction l as [| x l IH]; simpl; [| rewrite IH]; reflexivity. Qed.

Lemma run_setcol_last (h : heap) (t : table) (c : string) (col : list cell) :
  setcol (length h) c col (h ++ [t]) = (Ok tt, h ++ [with_column c col t]).
Proof.
  unfold setcol. rewrite (@bind_run _ _ _ _ _ _ _ (run_read_last h t)).
  unfold write. rewrite update_nth_last. reflexivity.
Qed.

Lemma column_with_column_same (c : string) (col : list cell) (t : table) :
  column (with_column c col t) c = col.
Proof.
  unfold column, with_column. simpl. rewrite lookup_assign_same. reflexivity.
Qed.

Lemma lookup_with_column_same (c : string) (col : list cell) (t : table) :
  lookup c (cols (with_column c col t)) = Some col.
Proof. apply lookup_assign_same. Qed.

Lemma lookup_with_column_other (c c' : string) (col : list cell) (t : table) :
  c <> c' -> lookup c (cols (with_column c' col t)) = lookup c (cols t).
Proof. apply lookup_assign_other. Qed.

Lemma column_with_column_other (c c' : string) (col : list cell) (t : table) :
  c <> c' -> column (with_column c' col t) c = column t c.
Proof.
  intro H. unfold column. rewrite lookup_with_column_other by exact H.
  reflexivity.
Qed.

Lemma lookup_column (c : string) (t : table) (col : list cell) :
  lookup c (cols t) = Some col -> column t c = col.
Proof. intro H. unfold column. rewrite H. reflexivity. Qed.

Lemma has_key_column (c : string) (t : table) :
  has_key c (cols t) = true -> lookup c (cols t) = Some (column t c).
Proof.
  intro H. destruct (lookup_has_key _ _ H) as [col Hc].
  rewrite (lookup_column _ _ Hc). exact Hc.
Qed.

(** The speed part of the body, run on the trip frame at the top of the
    store. *)
Lemma run_acceleration_block (h : heap) (s : table) (time_col : string) :
  has_key "speed_kmh" (cols s) = true ->
  has_key time_col (cols s) = true ->
  time_col = "time_s"%string \/ time_col = "timestamp"%string ->
  (speed_kmh <- getcol (length h) "speed_kmh" ;;
   setcol (length h) "speed_ms" (map (fun v => cdiv v (Some 3.6)) speed_kmh) ;;
   speed_ms <- getcol (length h) "speed_ms" ;;
   setcol (length h) "speed_diff" (diff speed_ms) ;;
   time <- getcol (length h) time_col ;;
   setcol (length h) "time_diff" (diff time) ;;
   speed_diff <- getcol (length h) "speed_diff" ;;
   time_diff <- getcol (length h) "time_diff" ;;
   setcol (length h) "acceleration_ms2"
     (map2 guarded_rate speed_diff time_diff) ;;
   acc <- getcol (length h) "acceleration_ms2" ;;
   setcol (length h) "acceleration_ms2" (clip_3sigma acc)) (h ++ [s])
  = (Ok tt, h ++ [acceleration_block time_col s]).
Proof.
  intros Hspeed Htime Htc.
  assert (Hne1 : time_col <> "speed_ms"%string)
    by (destruct Htc; subst; discriminate).
  assert (Hne2 : time_col <> "speed_diff"%string)
    by (destruct Htc; subst; discriminate).
  set (t1 := with_column "speed_ms"
                (map (fun v => cdiv v (Some 3.6)) (column s "speed_kmh")) s).
  set (t2 := with_column "speed_diff" (diff (column t1 "speed_ms")) t1).
  set (t3 := with_column "time_diff" (diff (column t2 time_col)) t2).
  set (t4 := with_column "acceleration_ms2"
                (map2 guarded_rate (column t3 "speed_diff")
                   (column t3 "time_diff")) t3).
  assert (L0 : lookup "speed_kmh" (cols s) = Some (column s "speed_kmh"))
    by (apply has_key_column; exact Hspeed).
  assert (L1 : lookup "speed_ms" (cols t1) = Some (column t1 "speed_ms")).
  { unfold t1. rewrite column_with_column_same. apply lookup_with_column_same. }
  assert (L2 : lookup time_col (cols t2) = Some (column t2 time_col)).
  { apply has_key_column. unfold t2, t1.
    apply has_key_lookup with (v := column s time_col).
    rewrite !lookup_with_column_other by assumption.
    apply has_key_column. exact Htime. }
  assert (L3 : lookup "speed_diff" (cols t3) = Some (column t3 "speed_diff")).
  { apply has_key_column. unfold t3.
    apply has_key_lookup with (v := diff (column t1 "speed_ms")).
    rewrite lookup_with_column_other by discriminate.
    apply lookup_with_column_same. }
  assert (L4 : lookup "time_diff" (cols t3) = Some (column t3 "time_diff")).
  { unfold t3. rewrite column_with_column_same. apply lookup_with_column_same. }
  assert (L5 : lookup "acceleration_ms2" (cols t4)
               = Some (column t4 "acceleration_ms2")).
  { unfold t4. rewrite column_with_column_same. apply lookup_with_column_same. }
  rewrite (@bind_run _ _ _ _ _ _ _ (run_getcol_last h s _ L0)).
  rewrite (@bind_run _ _ _ _ _ _ _ (run_setcol_last h s _ _)). fold t1.
  rewrite (@bind_run _ _ _ _ _ _ _ (run_getcol_last h t1 _ L1)).
  rewrite (@bind_run _ _ _ _ _ _ _ (run_setcol_last h t1 _ _)). fold t2.
  rewrite (@bind_run _ _ _ _ _ _ _ (run_getcol_last h t2 _ L2)).
  rewrite (@bind_run _ _ _ _ _ _ _ (run_setcol_last h t2 _ _)). fold t3.
  rewrite (@bind_run _ _ _ _ _ _ _ (run_getcol_last h t3 _ L3)).
  rewrite (@bind_run _ _ _ _ _ _ _ (run_getcol_last h t3 _ L4)).
  rewrite (@bind_run _ _ _ _ _ _ _ (run_setcol_last h t3 _ _)). fold t4.
  rewrite (@bind_run _ _ _ _ _ _ _ (run_getcol_last h t4 _ L5)).
  rewrite run_setcol_last. reflexivity.
Qed.

Lemma run_throttle_block (h : heap) (t : table) (throttle_col : string) :
  has_key throttle_col (cols t) = true ->
  has_key "time_diff" (cols t) = true ->
  (throttle <- getcol (length h) throttle_col ;;
   setcol (length h) "throttle_change" (diff throttle) ;;
   throttle_change <- getcol (length h) "throttle_change" ;;
   time_diff <- getcol (length h) "time_diff" ;;
   setcol (length h) "throttle_change_rate"
     (map2 guarded_rate throttle_change time_diff) ;;
   rate <- getcol (length h) "throttle_change_rate" ;;
   setcol (length h) "throttle_change_rate" (clip_3sigma rate) ;;
   ret (Some (length h))) (h ++ [t])
  = (Ok (Some (length h)), h ++ [throttle_block throttle_col t]).
Proof.
  intros Hthr Htd.
  set (t1 := with_column "throttle_change" (diff (column t throttle_col)) t).
  set (t2 := with_column "throttle_change_rate"
                (map2 guarded_rate (column t1 "throttle_change")
                   (column t1 "time_diff")) t1).
  assert (L0 : lookup throttle_col (cols t) = Some (column t throttle_col))
    by (apply has_key_column; exact Hthr).
  assert (L1 : lookup "throttle_change" (cols t1)
               = Some (column t1 "throttle_change")).
  { unfold t1. rewrite column_with_column_same. apply lookup_with_column_same. }
  assert (L2 : lookup "time_diff" (cols t1) = Some (column t1 "time_diff")).
  { apply has_key_column. unfold t1.
    apply has_key_lookup with (v := column t "time_diff").
    rewrite lookup_with_column_other by discriminate.
    apply has_key_column. exact Htd. }
  assert (L3 : lookup "throttle_change_rate" (cols t2)
               = Some (column t2 "throttle_change_rate")).
  { unfold t2. rewrite column_with_column_same. apply lookup_with_column_same. }
  rewrite (@bind_run _ _ _ _ _ _ _ (run_getcol_last h t _ L0)).
  rewrite (@bind_run _ _ _ _ _ _ _ (run_setcol_last h t _ _)). fold t1.
  rewrite (@bind_run _ _ _ _ _ _ _ (run_getcol_last h t1 _ L1)).
  rewrite (@bind_run _ _ _ _ _ _ _ (run_getcol_last h t1 _ L2)).
  rewrite (@bind_run _ _ _ _ _ _ _ (run_setcol_last h t1 _ _)). fold t2.
  rewrite (@bind_run _ _ _ _ _ _ _ (run_getcol_last h t2 _ L3)).
  rewrite (@bind_run _ _ _ _ _ _ _ (run_setcol_last h t2 _ _)).
  reflexivity.
Qed.

Lemma has_key_sort_values (c k : string) (t : table) :
  has_key c (cols (sort_values k t)) = has_key c (cols t).
Proof.
  unfold sort_values, has_key. simpl.
  induction (cols t) as [| [n col] d IH]; simpl.
  - reflexivity.
  - rewrite IH. reflexivity.
Qed.

Lemma in_columns_sort_values (c k : string) (t : table) :
  in_columns c (sort_values k t) = in_columns c t.
Proof. unfold in_columns. rewrite has_key_sort_values. reflexivity. Qed.

Lemma time_col_of_cases (t : table) :
  time_col_of t = "time_s"%string \/ time_col_of t = "timestamp"%string.
Proof. unfold time_col_of. destruct (in_columns "time_s" t); auto. Qed.

Lemma in_columns_has_key (c : string) (t : table) :
  String.eqb c "trip_id" = false -> in_columns c t = true ->
  has_key c (cols t) = true.
Proof. intros Hc H. unfold in_columns in H. rewrite Hc in H. exact H. Qed.

Lemma throttle_col_has_key (t : table) (c : string) :
  throttle_col_of t = Some c -> has_key c (cols t) = true.
Proof.
  unfold throttle_col_of. destruct (in_columns "throttle_pedal_%" t) eqn:E.
  - intro H. inversion H; subst.
    apply in_columns_has_key; [reflexivity | exact E].
  - intro H. apply first_column_lookup in H; [| reflexivity].
    destruct H as [col Hc]. exact (has_key_lookup _ _ Hc).
Qed.

Lemma acceleration_block_time_diff (time_col : string) (s : table) :
  lookup "time_diff" (cols (acceleration_block time_col s))
  = Some (diff (column
                  (with_column "speed_diff"
                     (diff (column
                              (with_column "speed_ms"
                                 (map (fun v => cdiv v (Some 3.6))
                                    (column s "speed_kmh")) s) "speed_ms"))
                     (with_column "speed_ms"
                        (map (fun v => cdiv v (Some 3.6))
                           (column s "speed_kmh")) s)) time_col)).
Proof.
  unfold acceleration_block. cbv zeta.
  rewrite !lookup_with_column_other by discriminate.
  apply lookup_with_column_same.
Qed.

(** The loop body of [create_rate_of_change_features] on a trip that has
    a time and a speed channel: the frame it appends is the sorted trip
    after the speed part and, when a throttle channel is found, the
    throttle part. *)
Lemma rate_of_change_trip_run (h : heap) (df_engineering : ref)
  (trip : string) :
  let t0 := select_trip trip (deref h df_engineering) in
  let s := sort_values (time_col_of t0) t0 in
  let a := acceleration_block (time_col_of t0) s in
  empty t0 = false ->
  in_columns (time_col_of t0) t0 = true ->
  in_columns "speed_kmh" t0 = true ->
  rate_of_change_trip df_engineering trip h
  = (Ok (Some (S (length h))),
     (h ++ [t0]) ++ [match throttle_col_of a with
                     | Some throttle_col => throttle_block throttle_col a
                     | None => a
                     end]).
Proof.
  intros t0 s a Hne Htime Hspeed.
  assert (Hlen : length (h ++ [t0]) = S (length h))
    by (rewrite length_app; simpl; lia).
  unfold rate_of_change_trip.
  unfold bind at 1. unfold read at 1. fold t0.
  unfold bind at 1. unfold new at 1.
  rewrite (@bind_run _ _ _ _ _ _ _ (run_read_last h t0)).
  rewrite Hne, Htime. cbn [negb].
  unfold bind at 1. unfold new at 1. fold s. rewrite Hlen.
  rewrite <- Hlen.
  rewrite (@bind_run _ _ _ _ _ _ _ (run_read_last (h ++ [t0]) s)).
  assert (Hs : in_columns "speed_kmh" s = true).
  { unfold s. rewrite in_columns_sort_values. exact Hspeed. }
  rewrite Hs.
  erewrite (@bind_run _ _ _ _ _ _ _).
  2:{ apply run_acceleration_block.
      - apply in_columns_has_key; [reflexivity | exact Hs].
      - unfold s. rewrite has_key_sort_values.
        destruct (time_col_of_cases t0) as [E | E]; rewrite E in *;
          (apply in_columns_has_key; [reflexivity | exact Htime]).
      - apply time_col_of_cases. }
  fold a.
  rewrite (@bind_run _ _ _ _ _ _ _ (run_read_last (h ++ [t0]) a)).
  destruct (throttle_col_of a) as [thr |] eqn:Ethr.
  - rewrite run_throttle_block.
    + rewrite Hlen. reflexivity.
    + apply throttle_col_has_key. exact Ethr.
    + apply has_key_lookup with (v := column a "time_diff").
      apply has_key_column.
      exact (has_key_lookup _ _ (acceleration_block_time_diff _ _)).
  - unfold ret. rewrite Hlen. reflexivity.
Qed.

Lemma acceleration_block_acceleration (time_col : string) (s : table) :
  time_col = "time_s"%string \/ time_col = "timestamp"%string ->
  column (acceleration_block time_col s) "acceleration_ms2"
  = acceleration_ms2 (column s time_col) (column s "speed_kmh").
Proof.
  intro Htc.
  assert (Hne1 : time_col <> "speed_ms"%string)
    by (destruct Htc; subst; discriminate).
  assert (Hne2 : time_col <> "speed_diff"%string)
    by (destruct Htc; subst; discriminate).
  unfold acceleration_block, acceleration_ms2, raw_acceleration. cbv zeta.
  rewrite !column_with_column_same.
  rewrite (@column_with_column_other "speed_diff" "time_diff") by discriminate.
  rewrite !column_with_column_same.
  rewrite !(@column_with_column_other time_col) by assumption.
  reflexivity.
Qed.

Lemma acceleration_block_time_diff_column (time_col : string) (s : table) :
  time_col = "time_s"%string \/ time_col = "timestamp"%string ->
  column (acceleration_block time_col s) "time_diff" = diff (column s time_col).
Proof.
  intro Htc.
  assert (Hne1 : time_col <> "speed_ms"%string)
    by (destruct Htc; subst; discriminate).
  assert (Hne2 : time_col <> "speed_diff"%string)
    by (destruct Htc; subst; discriminate).
  rewrite (lookup_column _ _ (acceleration_block_time_diff time_col s)).
  rewrite !(@column_with_column_other time_col) by assumption.
  reflexivity.
Qed.

Lemma throttle_block_columns (throttle_col : string) (a : table) :
  column (throttle_block throttle_col a) "acceleration_ms2"
  = column a "acceleration_ms2"
  /\ column (throttle_block throttle_col a) "throttle_change_rate"
     = clip_3sigma (map2 guarded_rate (diff (column a throttle_col))
                      (column a "time_diff")).
Proof.
  unfold throttle_block. cbv zeta. split.
  - rewrite !column_with_column_other by discriminate. reflexivity.
  - rewrite !column_with_column_same.
    rewrite (@column_with_column_other "time_diff" "throttle_change")
      by discriminate.
    reflexivity.
Qed.

(** The columns that the loop body leaves in the frame it appends are the
    rate-of-change features of the sorted trip. *)
Lemma rate_of_change_trip_features (h : heap) (df_engineering : ref)
  (trip : string) :
  let t0 := select_trip trip (deref h df_engineering) in
  let time_col := time_col_of t0 in
  let s := sort_values time_col t0 in
  empty t0 = false ->
  in_columns time_col t0 = true ->
  in_columns "speed_kmh" t0 = true ->
  exists out h',
    rate_of_change_trip df_engineering trip h = (Ok (Some out), h')
    /\ column (deref h' out) "acceleration_ms2"
       = acceleration_ms2 (column s time_col) (column s "speed_kmh")
    /\ forall throttle_col,
         throttle_col_of (acceleration_block time_col s) = Some throttle_col ->
         column (deref h' out) "throttle_change_rate"
         = throttle_change_rate (diff (column s time_col))
             (column (acceleration_block time_col s) throttle_col).
Proof.
  intros t0 time_col s Hne Htime Hspeed.
  pose proof (@rate_of_change_trip_run h df_engineering trip Hne Htime Hspeed)
    as Hrun.
  cbv zeta in Hrun. fold t0 in Hrun. fold time_col in Hrun. fold s in Hrun.
  do 2 eexists. split; [exact Hrun |].
  replace (S (length h)) with (length (h ++ [t0]))
    by (rewrite length_app; simpl; lia).
  rewrite deref_new.
  pose proof (time_col_of_cases t0) as Htc. fold time_col in Htc.
  destruct (throttle_col_of (acceleration_block time_col s)) as [thr |].
  - destruct (throttle_block_columns thr (acceleration_block time_col s))
      as [Hacc Hthr].
    split.
    + rewrite Hacc. apply acceleration_block_acceleration. exact Htc.
    + intros c Hc. inversion Hc; subst c. rewrite Hthr.
      rewrite acceleration_block_time_diff_column by exact Htc.
      reflexivity.
  - split.
    + apply acceleration_block_acceleration. exact Htc.
    + intros c Hc. discriminate Hc.
Qed.

(** A table with a throttle channel and no speed channel makes the loop
    body fail: the throttle part reads the column time_diff that only the
    speed part writes. *)
Lemma rate_of_change_throttle_without_speed :
  fst (create_rate_of_change_features 0%nat [throttle_only_table])
  = KeyError "time_diff".
Proof. reflexivity. Qed.

(** Settle the comparisons of reals that a run on a concrete table
    leaves. *)
Ltac decide_order :=
  repeat
    (cbv -[Rplus Rmult Rminus Rdiv Ropp Rinv IZR Rle_dec Rlt_dec Req_dec_T
           sqrt INR];
     match goal with
     | |- context [Rle_dec ?a ?b] =>
         destruct (Rle_dec a b); [try (exfalso; lra) | try (exfalso; lra)]
     | |- context [Req_dec_T ?a ?b] =>
         destruct (Req_dec_T a b); [try (exfalso; lra) | try (exfalso; lra)]
     | |- context [Rlt_dec ?a ?b] =>
         destruct (Rlt_dec a b); [try (exfalso; lra) | try (exfalso; lra)]
     end).

(** ** Rate-of-change features: rows without a time difference *)

(** C6 (as amended): on a row whose time difference to the previous row
    is zero or missing, the first row included, the zero-guarded division
    gives exactly 0, never NaN, for the acceleration and, on a trip that
    has a speed_kmh channel, for the throttle change rate: the throttle
    part divides by the column time_diff, which on such a trip holds the
    differences of the time stamps that the speed part has just written.
    The clean-up that follows keeps this 0 unless 0 lies outside
    mean - 3 std and mean + 3 std of the trip, and then puts the nearer of
    the two bounds in its place. *)
Theorem rate_features_zero_guard (time speed_kmh : list cell) (i : nat) :
  nth i (diff time) None = None \/ nth i (diff time) None = Some 0 ->
  nth 0 (diff time) None = None
  /\ ((i < length (raw_acceleration time speed_kmh))%nat ->
      let raw := raw_acceleration time speed_kmh in
      let out := nth i (acceleration_ms2 time speed_kmh) None in
      nth i raw None = Some 0
      /\ (out = Some 0
          \/ exists m s,
               mean raw = Some m /\ std raw = Some s /\ 0 < s
               /\ ((m + 3 * s < 0 /\ out = Some (m + 3 * s))
                   \/ (0 < m - 3 * s /\ out = Some (m - 3 * s)))))
  /\ (forall (frame : table) (time_col throttle_col : string),
        in_columns "speed_kmh" frame = true ->
        time_col = "time_s"%string \/ time_col = "timestamp"%string ->
        column frame time_col = time ->
        let a := acceleration_block time_col frame in
        let raw := raw_throttle_rate (column a "time_diff")
                     (column a throttle_col) in
        let out := nth i (column (throttle_block throttle_col a)
                            "throttle_change_rate") None in
        column a "time_diff" = diff time
        /\ column (throttle_block throttle_col a) "throttle_change_rate"
           = throttle_change_rate (column a "time_diff")
               (column a throttle_col)
        /\ ((i < length raw)%nat ->
            nth i raw None = Some 0
            /\ (out = Some 0
                \/ exists m s,
                     mean raw = Some m /\ std raw = Some s /\ 0 < s
                     /\ ((m + 3 * s < 0 /\ out = Some (m + 3 * s))
                         \/ (0 < m - 3 * s /\ out = Some (m - 3 * s)))))).
Proof.
  intro Hdt. split; [apply diff_first |]. split.
  - intros Hi raw out.
    assert (Hraw : nth i raw None = Some 0).
    { unfold raw, raw_acceleration in *.
      rewrite (map2_nth guarded_rate _ _ None None None Hi).
      apply guarded_rate_zero. exact Hdt. }
    split; [exact Hraw |]. apply clip_3sigma_nth_zero. exact Hraw.
  - intros frame time_col throttle_col _ Htc Htime a raw out.
    assert (Htd : column a "time_diff" = diff time).
    { unfold a. rewrite acceleration_block_time_diff_column by exact Htc.
      rewrite Htime. reflexivity. }
    assert (Hout : column (throttle_block throttle_col a)
                     "throttle_change_rate"
                   = throttle_change_rate (column a "time_diff")
                       (column a throttle_col))
      by apply (proj2 (throttle_block_columns throttle_col a)).
    split; [exact Htd |]. split; [exact Hout |].
    intro Hi.
    assert (Hraw : nth i raw None = Some 0).
    { unfold raw, raw_throttle_rate in *.
      rewrite (map2_nth guarded_rate _ _ None None None Hi).
      apply guarded_rate_zero. rewrite Htd. exact Hdt. }
    split; [exact Hraw |]. unfold out. rewrite Hout.
    apply clip_3sigma_nth_zero. exact Hraw.
Qed.

Lemma rate_features_zero_guard_witness :
  nth 0 (raw_acceleration [Some 0; Some 1] [Some 0; Some 36]) None = Some 0.
Proof.
  refine (proj1 (proj1 (proj2 (@rate_features_zero_guard
                                 [Some 0; Some 1] [Some 0; Some 36]
                                 0%nat _)) _)).
  - left. reflexivity.
  - simpl. lia.
Defined.

(** C6 as stated fails for the value the feature ends up with: on
    sixteen samples at 1 Hz with a steady acceleration of 16 m/s2 the
    first row, whose time difference is missing, gets 0 from the guarded
    division; the mean of the trip is 15 and the standard deviation 4, so
    the clean-up raises this 0 to the lower bound 3. *)
Lemma acceleration_first_row_clipped :
  nth 0 (diff seconds) None = None
  /\ nth 0 (raw_acceleration seconds ramp_speed_kmh) None = Some 0
  /\ nth 0 (acceleration_ms2 seconds ramp_speed_kmh) None = Some 3
  /\ nth 0 (acceleration_ms2 seconds ramp_speed_kmh) None <> Some 0.
Proof.
  rewrite raw_acceleration_ramp, acceleration_ramp. repeat split.
  simpl. intro H. inversion H. lra.
Qed.

(** Without a speed channel the throttle part divides by the column
    time_diff that the table brought along: on two rows with the same
    time stamp, throttle readings 10 and 20 and a column time_diff of 5
    and 5, the rate of the second row is (20 - 10) / 5 = 2 and that of
    the first row is NaN, the difference of the throttle readings being
    missing there. *)
Lemma throttle_rate_reads_stale_time_diff :
  exists r h',
    create_rate_of_change_features 0%nat [stale_time_diff_table] = (Ok r, h')
    /\ column (deref h' r) "throttle_change_rate"
       = [None; Some ((20 - 10) / 5)].
Proof.
  decide_order. do 2 eexists. split; [reflexivity |]. reflexivity.
Qed.

(** The target builder, run on a store with one three-row trip and the
    horizon 1: the last row is dropped and the two rows left carry the
    load of the next row. *)
Lemma create_target_variables_run :
  exists r h',
    create_target_variables 0%nat [1%nat] [three_row_table] = (Ok r, h')
    /\ deref h' r
       = {| trip_id := ["A01"; "A01"]%string;
            cols := [("time_s"%string, [Some 0; Some 1]);
                     ("powertrain_load_W"%string, [Some 10; Some 20]);
                     ("future_load_W_1s"%string, [Some 20; Some 30])] |}
    /\ deref h' 0%nat = three_row_table.
Proof.
  decide_order. do 2 eexists. repeat split.
Qed.

(** The lag builder, run on the same store: the lag columns of the frame
    it returns are [lag_column] of the load column; the lag 5, longer than
    the trip, stays null. *)
Lemma create_lagged_features_run :
  exists r h',
    create_lagged_features 0%nat [three_row_table] = (Ok r, h')
    /\ column (deref h' r) "powertrain_load_W_lag1"
       = lag_column 1 [Some 10; Some 20; Some 30]
    /\ column (deref h' r) "powertrain_load_W_lag1"
       = [Some 10; Some 10; Some 20]
    /\ column (deref h' r) "powertrain_load_W_lag2"
       = [Some 10; Some 10; Some 10]
    /\ column (deref h' r) "powertrain_load_W_lag5" = [None; None; None]
    /\ deref h' 0%nat = three_row_table.
Proof.
  decide_order. do 2 eexists. repeat split.
Qed.

(** ** Tables with the same columns *)

Lemma select_keys (mask : list bool) (t : table) :
  map fst (cols (select mask t)) = map fst (cols t).
Proof.
  unfold select. simpl. rewrite map_map. apply map_ext. intros [c col].
  reflexivity.
Qed.

Lemma sort_values_keys (k : string) (t : table) :
  map fst (cols (sort_values k t)) = map fst (cols t).
Proof.
  unfold sort_values. simpl. rewrite map_map. apply map_ext. intros [c col].
  reflexivity.
Qed.

(** Which columns a table has decides what the builders look for in it. *)
Lemma same_keys_in_columns (t t' : table) (c : string) :
  map fst (cols t) = map fst (cols t') -> in_columns c t = in_columns c t'.
Proof. intro H. unfold in_columns, has_key. rewrite H. reflexivity. Qed.

Lemma same_keys_has_key (t t' : table) (c : string) :
  map fst (cols t) = map fst (cols t') ->
  has_key c (cols t) = has_key c (cols t').
Proof. intro H. unfold has_key. rewrite H. reflexivity. Qed.

Lemma same_keys_time_col (t t' : table) :
  map fst (cols t) = map fst (cols t') -> time_col_of t = time_col_of t'.
Proof.
  intro H. unfold time_col_of. rewrite (@same_keys_in_columns t t' _ H). reflexivity.
Qed.

Lemma same_keys_throttle_col (t t' : table) :
  map fst (cols t) = map fst (cols t') -> throttle_col_of t = throttle_col_of t'.
Proof.
  intro H. unfold throttle_col_of, first_column, column_names.
  rewrite (@same_keys_in_columns t t' _ H), H. reflexivity.
Qed.

(** ** Inference-time features: which columns the prepared frame has *)

Lemma lookup_none_has_key (A : Type) (k : string) (s : list (string * A)) :
  lookup k s = None -> has_key k s = false.
Proof.
  intro H. destruct (has_key k s) eqn:E; [| reflexivity].
  destruct (lookup_has_key _ _ E) as [v Hv]. congruence.
Qed.

Lemma In_existsb_eqb (f : string) (l : list string) :
  existsb (String.eqb f) l = true -> In f l.
Proof.
  intro H. apply existsb_exists in H. destruct H as (x & Hx & E).
  apply String.eqb_eq in E. subst. exact Hx.
Qed.

Lemma has_key_In_keys (A : Type) (c : string) (d : list (string * A)) :
  has_key c d = true <-> In c (map fst d).
Proof.
  unfold has_key. split.
  - apply In_existsb_eqb.
  - apply existsb_eqb_In.
Qed.

Lemma assign_keys (A : Type) (c : string) (v : A) (d : list (string * A)) :
  map fst (assign c v d) = if has_key c d then map fst d else map fst d ++ [c].
Proof.
  unfold has_key. induction d as [| [k w] d IH]; simpl.
  - reflexivity.
  - destruct (String.eqb_spec c k) as [-> | Hne]; simpl.
    + reflexivity.
    + rewrite IH. destruct (existsb (String.eqb c) (map fst d)); reflexivity.
Qed.

Lemma assign_keys_NoDup (A : Type) (c : string) (v : A) (d : list (string * A)) :
  NoDup (map fst d) -> NoDup (map fst (assign c v d)).
Proof.
  intro H. rewrite assign_keys. destruct (has_key c d) eqn:E; [exact H |].
  apply NoDup_app; [exact H | repeat constructor; auto |].
  intros a Ha [<- | []]. apply has_key_In_keys in Ha. congruence.
Qed.

Lemma prepare_features_columns_NoDup (vd : vehicle_data) (fl : list string) :
  NoDup (columns (prepare_features_for_prediction vd fl)).
Proof.
  unfold prepare_features_for_prediction, columns. cbv zeta.
  assert (Hgen : forall init, NoDup (map fst (data init)) ->
    NoDup (map fst (data (fold_left
      (fun features_df feature =>
         if has_col feature (frame_of vd) then
           set_col features_df feature (get_col (frame_of vd) feature)
         else if contains "_lag" feature then
           let base_feature := split_first "_lag" feature in
           if has_col base_feature (frame_of vd) then
             set_col features_df feature (get_col (frame_of vd) base_feature)
           else features_df
         else
           set_col features_df feature
             (repeat (Some 0) (nrows (frame_of vd))))
      fl init)))).
  { induction fl as [| a l IH]; intros init Hinit; simpl.
    - exact Hinit.
    - apply IH.
      destruct (has_col a (frame_of vd)); [apply assign_keys_NoDup; exact Hinit |].
      destruct (contains "_lag" a); [| apply assign_keys_NoDup; exact Hinit].
      destruct (has_col (split_first "_lag" a) (frame_of vd));
        [apply assign_keys_NoDup; exact Hinit | exact Hinit]. }
  apply Hgen. constructor.
Qed.

(** X1: a trained feature whose name holds "_lag", which the vehicle data
    lack and whose base feature (the part of the name before the first
    "_lag") they lack too, gets no column: the prepared frame misses the
    feature, whatever else the feature list holds. *)
Theorem prepare_features_lag_without_base (vd : vehicle_data)
  (feature_list : list string) (feature : string) :
  has_channel feature vd = false ->
  contains "_lag" feature = true ->
  has_col (split_first "_lag" feature) (frame_of vd) = false ->
  has_col feature (prepare_features_for_prediction vd feature_list) = false.
Proof.
  intros Hc Hlag Hbase. apply lookup_none_has_key.
  rewrite prepare_features_lookup. unfold substitute. cbv zeta.
  rewrite has_channel_frame_of, Hc, Hlag, Hbase.
  destruct (existsb _ _); reflexivity.
Qed.

Lemma prepare_features_lag_without_base_witness :
  has_col "speed_kmh_lag1"
    (prepare_features_for_prediction
       (Series [("heater_power_W"%string, Some 2000)])
       ["speed_kmh_lag1"%string]) = false.
Proof.
  apply (@prepare_features_lag_without_base
           (Series [("heater_power_W"%string, Some 2000)])
           ["speed_kmh_lag1"%string] "speed_kmh_lag1"%string);
    reflexivity.
Defined.

(** X2: the columns of the prepared frame are without duplicates and are
    exactly the trained features for which the loop assigns a column; a
    channel of the vehicle data that is not a trained feature is not
    carried over. *)
Theorem prepare_features_columns (vd : vehicle_data) (feature_list : list string) :
  let features_df := prepare_features_for_prediction vd feature_list in
  NoDup (columns features_df)
  /\ (forall c, In c (columns features_df)
                <-> In c feature_list /\ substitute vd c <> None)
  /\ (forall c, has_channel c vd = true -> ~ In c feature_list ->
                has_col c features_df = false).
Proof.
  intro features_df. split; [apply prepare_features_columns_NoDup |].
  assert (Hl : forall c, lookup c (data features_df)
              = if existsb (String.eqb c) feature_list then substitute vd c else None)
    by (intro c; apply prepare_features_lookup).
  split.
  - intro c. unfold columns. rewrite <- has_key_In_keys. split.
    + intro Hk. destruct (lookup_has_key _ _ Hk) as [col Hcol].
      rewrite Hl in Hcol.
      destruct (existsb (String.eqb c) feature_list) eqn:E; [| discriminate].
      split; [apply In_existsb_eqb; exact E | congruence].
    + intros [Hin Hs]. specialize (Hl c).
      rewrite (existsb_eqb_In _ _ Hin) in Hl.
      destruct (substitute vd c) as [col |]; [| contradiction].
      exact (has_key_lookup _ _ Hl).
  - intros c _ Hnin. apply lookup_none_has_key. rewrite Hl.
    destruct (existsb (String.eqb c) feature_list) eqn:E; [| reflexivity].
    exfalso. apply Hnin. apply In_existsb_eqb. exact E.
Qed.

Lemma prepare_features_columns_witness :
  has_col "heater_power_W"
    (prepare_features_for_prediction
       (Series [("heater_power_W"%string, Some 2000);
                ("speed_kmh"%string, Some 50)])
       ["speed_kmh"%string]) = false.
Proof.
  refine (proj2 (proj2 (@prepare_features_columns
                          (Series [("heater_power_W"%string, Some 2000);
                                   ("speed_kmh"%string, Some 50)])
                          ["speed_kmh"%string]))
            "heater_power_W"%string _ _).
  - reflexivity.
  - intros [E | []]. discriminate E.
Defined.

(** X4: called on one row (a Series) the policy always returns, and the
    load it reports is the model's prediction for the prepared row; called
    on a DataFrame without rows it raises instead of returning. *)
Theorem run_intelli_therm_returns (model : regressor) (t : R) (fl : list string) :
  (forall s, exists new_power status,
      run_intelli_therm (Series s) model t fl
      = Some (new_power, status,
              model (row_at (prepare_features_for_prediction (Series s) fl) 0)))
  /\ (forall f, nrows f = 0%nat ->
                run_intelli_therm (DataFrame f) model t fl = None).
Proof.
  split.
  - intro s.
    assert (Hp : predicted_load_of (Series s) model fl
                 = Some (model (row_at (prepare_features_for_prediction (Series s) fl) 0))).
    { unfold predicted_load_of, predict, rows. rewrite prepare_features_nrows. reflexivity. }
    assert (Hb : exists b, base_heater_power (Series s) = Some b).
    { unfold base_heater_power, has_channel.
      destruct (has_key "heater_power_W" s) eqn:E.
      - exact (lookup_has_key _ _ E).
      - eexists. reflexivity. }
    destruct Hb as [b Hb].
    rewrite (run_intelli_therm_unfold _ _ t _ Hp Hb). do 2 eexists. reflexivity.
  - intros f Hf. unfold run_intelli_therm, predicted_load_of, predict, rows.
    rewrite prepare_features_nrows. simpl. rewrite Hf. reflexivity.
Qed.

Lemma run_intelli_therm_returns_witness :
  run_intelli_therm (DataFrame {| nrows := 0; data := [] |})
    (fun _ => 100) 90 [] = None.
Proof.
  apply (proj2 (@run_intelli_therm_returns (fun _ => 100) 90 [])).
  reflexivity.
Defined.

Lemma prefix_cons (a b : ascii) (s1 s2 : string) :
  prefix (String a s1) (String b s2)
  = if ascii_dec a b then prefix s1 s2 else false.
Proof. reflexivity. Qed.

(** No occurrence of the pattern starts inside [f] and ends in the
    pattern appended to it: the pattern has its only underscore in front. *)
Lemma prefix_lag_append (a : ascii) (f s : string) :
  prefix "_lag" (String a f) = false ->
  prefix "_lag" (String a (f ++ "_lag" ++ s)) = false.
Proof.
  rewrite !prefix_cons.
  destruct (ascii_dec "_" a) as [_ | _]; [| reflexivity].
  destruct f as [| b f]; cbn [append].
  { intros _. rewrite prefix_cons.
    destruct (ascii_dec "l" "_") as [E | _]; [discriminate E | reflexivity]. }
  rewrite !prefix_cons.
  destruct (ascii_dec "l" b) as [_ | _]; [| reflexivity].
  destruct f as [| c f]; cbn [append].
  { intros _. rewrite prefix_cons.
    destruct (ascii_dec "a" "_") as [E | _]; [discriminate E | reflexivity]. }
  rewrite !prefix_cons.
  destruct (ascii_dec "a" c) as [_ | _]; [| reflexivity].
  destruct f as [| d f]; cbn [append].
  { intros _. rewrite prefix_cons.
    destruct (ascii_dec "g" "_") as [E | _]; [discriminate E | reflexivity]. }
  rewrite !prefix_cons.
  destruct (ascii_dec "g" d) as [_ | _]; [| reflexivity].
  destruct f; cbn [append]; discriminate.
Qed.

Lemma index_lag_append (f s : string) :
  index 0 "_lag" f = None ->
  index 0 "_lag" (f ++ "_lag" ++ s) = Some (String.length f).
Proof.
  induction f as [| a f IH]; intro H.
  - cbn [append String.length].
    change (index 0 "_lag" (String "_" (String "l" (String "a" (String "g" s)))))
      with (if prefix "_lag" (String "_" (String "l" (String "a" (String "g" s))))
            then Some 0%nat
            else match index 0 "_lag" (String "l" (String "a" (String "g" s))) with
                 | Some n => Some (S n)
                 | None => None
                 end).
    rewrite !prefix_cons.
    destruct (ascii_dec "_" "_") as [_ | N]; [| congruence].
    destruct (ascii_dec "l" "l") as [_ | N]; [| congruence].
    destruct (ascii_dec "a" "a") as [_ | N]; [| congruence].
    destruct (ascii_dec "g" "g") as [_ | N]; [| congruence].
    destruct s; reflexivity.
  - change (index 0 "_lag" (String a f))
      with (if prefix "_lag" (String a f) then Some 0%nat
            else match index 0 "_lag" f with
                 | Some n => Some (S n)
                 | None => None
                 end) in H.
    destruct (prefix "_lag" (String a f)) eqn:Ep; [discriminate |].
    destruct (index 0 "_lag" f) eqn:Ei; [discriminate |].
    change (index 0 "_lag" (String a f ++ "_lag" ++ s))
      with (if prefix "_lag" (String a (f ++ "_lag" ++ s)) then Some 0%nat
            else match index 0 "_lag" (f ++ "_lag" ++ s) with
                 | Some n => Some (S n)
                 | None => None
                 end).
    rewrite (prefix_lag_append a f s Ep), (IH eq_refl). reflexivity.
Qed.

Lemma substring_append (f r : string) :
  substring 0 (String.length f) (f ++ r) = f.
Proof.
  induction f as [| a f IH]; simpl.
  - destruct r; reflexivity.
  - rewrite IH. reflexivity.
Qed.

Lemma lag_name_parts (f : string) (k : nat) :
  contains "_lag" f = false ->
  contains "_lag" (lag_col_name f k) = true
  /\ split_first "_lag" (lag_col_name f k) = f.
Proof.
  intro H.
  assert (Hidx : index 0 "_lag" (lag_col_name f k) = Some (String.length f)).
  { unfold lag_col_name. apply index_lag_append.
    unfold contains in H. destruct (index 0 "_lag" f); [discriminate | reflexivity]. }
  split.
  - unfold contains. rewrite Hidx. reflexivity.
  - unfold split_first. rewrite Hidx. unfold lag_col_name.
    apply substring_append.
Qed.

(** X3: for a feature whose name holds no "_lag", the name the lag builder
    gives its lag column, feature_lag<k>, holds "_lag" and its part before
    the first "_lag" is the feature again; so at inference time a trained
    lag feature that the vehicle data lack is filled with the current
    value of the feature it lags, when the data have that one. *)
Theorem lag_name_round_trip (f : string) (k : nat) :
  contains "_lag" f = false ->
  contains "_lag" (lag_col_name f k) = true
  /\ split_first "_lag" (lag_col_name f k) = f
  /\ forall vd feature_list,
       In (lag_col_name f k) feature_list ->
       has_channel (lag_col_name f k) vd = false ->
       has_col f (frame_of vd) = true ->
       lookup (lag_col_name f k)
         (data (prepare_features_for_prediction vd feature_list))
       = Some (get_col (frame_of vd) f).
Proof.
  intro H. destruct (@lag_name_parts f k H) as [Hc Hs].
  split; [exact Hc |]. split; [exact Hs |].
  intros vd fl Hin Habs Hbase.
  rewrite prepare_features_lookup, (existsb_eqb_In _ _ Hin).
  unfold substitute. cbv zeta.
  rewrite has_channel_frame_of, Habs, Hc, Hs, Hbase. reflexivity.
Qed.

Lemma lag_name_round_trip_witness :
  contains "_lag" (lag_col_name "speed_kmh" 2) = true
  /\ split_first "_lag" (lag_col_name "speed_kmh" 2) = "speed_kmh"%string
  /\ forall vd feature_list,
       In (lag_col_name "speed_kmh" 2) feature_list ->
       has_channel (lag_col_name "speed_kmh" 2) vd = false ->
       has_col "speed_kmh" (frame_of vd) = true ->
       lookup (lag_col_name "speed_kmh" 2)
         (data (prepare_features_for_prediction vd feature_list))
       = Some (get_col (frame_of vd) "speed_kmh").
Proof.
  apply (@lag_name_round_trip "speed_kmh" 2). reflexivity.
Defined.

(** ** Trip simulator: when it returns and what it can report *)

Lemma mask_filter_eqb_nil (trip : string) (ids : list string) :
  mask_filter (map (String.eqb trip) ids) ids = [] <-> ~ In trip ids.
Proof.
  induction ids as [| x ids IH]; simpl.
  - tauto.
  - destruct (String.eqb_spec trip x) as [-> | Hne].
    + split; [discriminate | intro H; exfalso; apply H; left; reflexivity].
    + rewrite IH. split.
      * intros H [E | Hin]; [congruence | auto].
      * intros H Hin. apply H. right. exact Hin.
Qed.

Lemma empty_select_trip (trip : string) (t : table) :
  empty (select_trip trip t) = true <-> ~ In trip (trip_id t).
Proof.
  rewrite <- mask_filter_eqb_nil. unfold empty, select_trip, select. simpl.
  destruct (mask_filter _ _); split; congruence.
Qed.

Lemma empty_test_trip_of (df : table) (ids : list string) :
  empty (test_trip_of df ids) = empty (select_trip (hd "B30"%string ids) df).
Proof.
  unfold test_trip_of.
  replace (match ids with id :: _ => id | [] => "B30"%string end)
    with (hd "B30"%string ids) by (destruct ids; reflexivity).
  cbv zeta. destruct (in_columns _ _); reflexivity.
Qed.

(** X5: the simulator returns (None, None) exactly when the trip it picks,
    the first test trip or 'B30' when the list is empty, has no row in the
    table; on every other input it returns its report. *)
Theorem simulate_complete_trip_none (df : table) (model : regressor)
  (thr : R) (fl ids : list string) :
  simulate_complete_trip df model thr fl ids = None
  <-> ~ In (hd "B30"%string ids) (trip_id df).
Proof.
  rewrite <- empty_select_trip, <- empty_test_trip_of.
  unfold simulate_complete_trip. cbv zeta.
  destruct (empty (test_trip_of df ids)).
  - tauto.
  - destruct (optimized_heater_power_rows (test_trip_of df ids) model thr fl
                (test_trip_has_heater df ids)) as (g & Hopt & _).
    rewrite Hopt. split; discriminate.
Qed.

Lemma simulate_complete_trip_none_witness :
  simulate_complete_trip three_row_table (fun _ => 100) 90 [] [] = None.
Proof.
  apply (proj2 (@simulate_complete_trip_none three_row_table (fun _ => 100)
                  90 [] [])).
  intros [E | [E | [E | []]]]; discriminate E.
Defined.




Lemma all_results_length (A : Type) (l : list (option A)) (r : list A) :
  all_results l = Some r -> length r = length l.
Proof.
  revert r. induction l as [| [a |] l IH]; intros r H; simpl in *.
  - inversion H. reflexivity.
  - destruct (all_results l) as [r' |]; [| discriminate].
    inversion H. simpl. rewrite (IH r' eq_refl). reflexivity.
  - discriminate.
Qed.

Lemma test_trip_of_default_heater (df : table) (ids : list string) :
  in_columns "heater_power_W" df = false ->
  column (test_trip_of df ids) "heater_power_W"
  = repeat (Some 2000) (len (test_trip_of df ids)).
Proof.
  intro Habs. unfold test_trip_of. cbv zeta.
  set (sel := select_trip _ df).
  assert (Hsel : in_columns "heater_power_W" sel = false).
  { rewrite (@same_keys_in_columns sel df _ (select_keys _ df)). exact Habs. }
  rewrite Hsel. rewrite column_with_column_same. reflexivity.
Qed.

(** X7: inside the simulator the policy is called once per row of the trip
    and answers with the heater reading of that row or 0.85 times it; when
    the table has no heater channel the reading is the simulator's default
    of 2000 W, so every answer is 2000 W or 1700 W and the 1000 W default
    of the policy is never used. *)
Theorem simulate_policy_base (df : table) (model : regressor) (thr : R)
  (fl ids : list string) :
  let trip := test_trip_of df ids in
  exists powers,
    optimized_heater_power trip model thr fl = Some powers
    /\ length powers = len trip
    /\ (forall i, (i < len trip)%nat ->
          policy_answer (nth i powers None)
            (nth i (column trip "heater_power_W") None))
    /\ (in_columns "heater_power_W" df = false ->
        forall i, (i < len trip)%nat ->
          nth i powers None = Some 2000
          \/ nth i powers None = Some (2000 * 0.85)).
Proof.
  intro trip.
  destruct (optimized_heater_power_rows trip model thr fl
              (test_trip_has_heater df ids)) as (g & Hopt & Hg).
  exists (map g (seq 0 (len trip))). split; [exact Hopt |].
  assert (Hnth : forall i, (i < len trip)%nat ->
                           nth i (map g (seq 0 (len trip))) None = g i).
  { intros i Hi.
    rewrite (nth_indep _ None (g 0%nat)) by (rewrite length_map, length_seq; exact Hi).
    rewrite map_nth, seq_nth by exact Hi. reflexivity. }
  split; [rewrite length_map, length_seq; reflexivity |]. split.
  - intros i Hi. rewrite Hnth by exact Hi. apply Hg.
  - intros Habs i Hi. rewrite Hnth by exact Hi.
    assert (Hcol : nth i (column trip "heater_power_W") None = Some 2000).
    { unfold trip. rewrite (test_trip_of_default_heater df ids Habs).
      apply nth_repeat_lt. exact Hi. }
    specialize (Hg i). rewrite Hcol in Hg.
    destruct Hg as [-> | ->]; [left | right]; reflexivity.
Qed.

Lemma simulate_policy_base_witness :
  exists powers,
    optimized_heater_power (test_trip_of three_row_table ["A01"%string])
      (fun _ => 100) 90 [] = Some powers
    /\ forall i, (i < len (test_trip_of three_row_table ["A01"%string]))%nat ->
         nth i powers None = Some 2000
         \/ nth i powers None = Some (2000 * 0.85).
Proof.
  destruct (@simulate_policy_base three_row_table (fun _ => 100) 90 []
              ["A01"%string]) as (powers & Hopt & _ & _ & Hdef).
  exists powers. split; [exact Hopt |]. apply Hdef. reflexivity.
Defined.

(** ** Dataset partitioner: order, sizes and contents of the split *)

Lemma ascii_compare_trans (a b c : ascii) :
  Ascii.compare a b <> Gt -> Ascii.compare b c <> Gt ->
  Ascii.compare a c <> Gt
  /\ (Ascii.compare a c = Eq -> Ascii.compare a b = Eq /\ Ascii.compare b c = Eq).
Proof.
  unfold Ascii.compare.
  destruct (N.compare_spec (N_of_ascii a) (N_of_ascii b));
  destruct (N.compare_spec (N_of_ascii b) (N_of_ascii c));
  destruct (N.compare_spec (N_of_ascii a) (N_of_ascii c));
  intros Hab Hbc; split; try congruence; try lia; try (intros; split; congruence).
Qed.

Lemma string_compare_trans (s1 : string) :
  forall s2 s3, String.compare s1 s2 <> Gt -> String.compare s2 s3 <> Gt ->
                String.compare s1 s3 <> Gt.
Proof.
  induction s1 as [| a s1 IH]; intros [| b s2] [| c s3]; simpl;
    try congruence.
  intros H1 H2.
  destruct (Ascii.compare a b) eqn:Eab; try congruence;
  destruct (Ascii.compare b c) eqn:Ebc; try congruence;
  destruct (@ascii_compare_trans a b c) as [Hac Heq];
    try (rewrite ?Eab, ?Ebc; congruence);
  destruct (Ascii.compare a c) eqn:Eac; try congruence;
  try (destruct (Heq eq_refl); congruence).
  apply IH with s2; assumption.
Qed.

Lemma string_leb_trans (s1 s2 s3 : string) :
  String.leb s1 s2 = true -> String.leb s2 s3 = true -> String.leb s1 s3 = true.
Proof.
  unfold String.leb. intros H1 H2.
  pose proof (@string_compare_trans s1 s2 s3) as H.
  destruct (String.compare s1 s2); try discriminate;
  destruct (String.compare s2 s3); try discriminate;
  destruct (String.compare s1 s3); try reflexivity;
  exfalso; apply H; congruence.
Qed.

Lemma sorted_head_least (a : string) (l : list string) :
  LocallySorted string_le (a :: l) -> forall x, In x l -> string_le a x.
Proof.
  revert a. induction l as [| b l IH]; intros a Hs x Hx.
  - destruct Hx.
  - inversion Hs; subst. destruct Hx as [<- | Hx]; [assumption |].
    unfold string_le in *. apply string_leb_trans with b; [assumption |].
    apply IH; assumption.
Qed.

Lemma sorted_unique_perm (l1 : list string) :
  forall l2, LocallySorted string_le l1 -> LocallySorted string_le l2 ->
             Permutation l1 l2 -> l1 = l2.
Proof.
  induction l1 as [| a l1 IH]; intros l2 H1 H2 Hp.
  - apply Permutation_nil in Hp. congruence.
  - destruct l2 as [| b l2].
    + apply Permutation_sym, Permutation_nil in Hp. discriminate.
    + assert (Hab : a = b).
      { assert (Ha : In a (b :: l2))
          by (apply Permutation_in with (a :: l1); [exact Hp | left; reflexivity]).
        assert (Hb : In b (a :: l1))
          by (apply Permutation_in with (b :: l2);
              [apply Permutation_sym; exact Hp | left; reflexivity]).
        destruct Ha as [E | Ha]; [congruence |].
        destruct Hb as [E | Hb]; [congruence |].
        apply String.leb_antisym.
        - exact (sorted_head_least H1 _ Hb).
        - exact (sorted_head_least H2 _ Ha). }
      subst b. f_equal. apply IH.
      * inversion H1; subst; [constructor | assumption].
      * inversion H2; subst; [constructor | assumption].
      * apply Permutation_cons_inv with a. exact Hp.
Qed.

Lemma sorted_permutation (l1 l2 : list string) :
  Permutation l1 l2 -> sorted l1 = sorted l2.
Proof.
  intro Hp. apply sorted_unique_perm; try apply sorted_sorted.
  apply perm_trans with l1; [apply Permutation_sym, sorted_perm |].
  apply perm_trans with l2; [exact Hp | apply sorted_perm].
Qed.

(** X8: with at least two trip identifiers the train and test sets do not
    depend on the order in which the identifiers arrive: any rearrangement
    of them, the sorted one included, gives the same split. *)
Theorem split_trip_ids_order_independent (ids ids' : list string) :
  Permutation ids ids' ->
  (2 <= length ids)%nat ->
  split_trip_ids ids = split_trip_ids ids'
  /\ split_trip_ids ids = split_trip_ids (sorted ids).
Proof.
  intros Hp Hn.
  assert (Hgen : forall l l', Permutation l l' -> (2 <= length l)%nat ->
                              split_trip_ids l = split_trip_ids l').
  { intros l l' P N. unfold split_trip_ids.
    rewrite <- (Permutation_length P).
    destruct (Nat.ltb_spec (length l) 2) as [H | _]; [lia |].
    rewrite (sorted_permutation P). reflexivity. }
  split.
  - apply Hgen; assumption.
  - apply Hgen; [apply sorted_perm | assumption].
Qed.

Lemma split_trip_ids_order_independent_witness :
  split_trip_ids ["B02"; "A01"; "B01"]%string
  = split_trip_ids ["A01"; "B01"; "B02"]%string
  /\ split_trip_ids ["B02"; "A01"; "B01"]%string
     = split_trip_ids (sorted ["B02"; "A01"; "B01"]%string).
Proof.
  apply (@split_trip_ids_order_independent
           ["B02"; "A01"; "B01"]%string ["A01"; "B01"; "B02"]%string).
  - apply perm_trans with ["A01"; "B02"; "B01"]%string.
    + apply perm_swap.
    + apply perm_skip, perm_swap.
  - simpl. lia.
Defined.

Lemma split_idx_share_checked :
  forallb (fun n => (split_idx n <? n)%nat
                    && (7 * Z.of_nat n - 10 <=? 10 * Z.of_nat (split_idx n))%Z
                    && (10 * Z.of_nat (split_idx n) <=? 7 * Z.of_nat n)%Z)
    (seq 2 4095) = true.
Proof. vm_compute. reflexivity. Qed.

(** X9: for 2 to 4096 trip identifiers the test set is not empty, the two
    sets together have as many identifiers as were given, and the train
    set holds at most 70 percent of them and at least 70 percent less one
    trip. *)
Theorem split_trip_ids_sizes (ids : list string) :
  let n := length ids in
  (2 <= n <= 4096)%nat ->
  let train := fst (split_trip_ids ids) in
  let test := snd (split_trip_ids ids) in
  (1 <= length test)%nat
  /\ (length train + length test = n)%nat
  /\ (7 * n - 10 <= 10 * length train <= 7 * n)%nat.
Proof.
  intros n Hn train test.
  pose proof split_idx_share_checked as Hc.
  rewrite forallb_forall in Hc.
  specialize (Hc n). rewrite in_seq in Hc.
  assert (Hc' := Hc ltac:(lia)). clear Hc.
  apply andb_prop in Hc'. destruct Hc' as [Hc' H3].
  apply andb_prop in Hc'. destruct Hc' as [H1 H2].
  apply Nat.ltb_lt in H1. apply Z.leb_le in H2, H3.
  assert (Hlen : length (sorted ids) = n)
    by (symmetry; apply Permutation_length, sorted_perm).
  assert (Htrain : length train = split_idx n).
  { unfold train, split_trip_ids. fold n.
    destruct (Nat.ltb_spec n 2) as [H | _]; [lia |].
    simpl. rewrite Hlen, length_firstn, Hlen. lia. }
  assert (Htest : length test = (n - split_idx n)%nat).
  { unfold test, split_trip_ids. fold n.
    destruct (Nat.ltb_spec n 2) as [H | _]; [lia |].
    simpl. rewrite Hlen, length_skipn, Hlen. reflexivity. }
  rewrite Htrain, Htest. lia.
Qed.

Lemma split_trip_ids_sizes_witness :
  (1 <= length (snd (split_trip_ids ["B02"; "A01"; "B01"]%string)))%nat
  /\ (length (fst (split_trip_ids ["B02"; "A01"; "B01"]%string))
      + length (snd (split_trip_ids ["B02"; "A01"; "B01"]%string)) = 3)%nat
  /\ (7 * 3 - 10
      <= 10 * length (fst (split_trip_ids ["B02"; "A01"; "B01"]%string))
      <= 7 * 3)%nat.
Proof.
  apply (@split_trip_ids_sizes ["B02"; "A01"; "B01"]%string).
  simpl. lia.
Defined.

Lemma mask_filter_sub_defined (mask : list bool) (col : list cell) :
  all_defined col -> all_defined (mask_filter mask col).
Proof.
  unfold all_defined. intro H. revert mask.
  induction H as [| a col Ha _ IH]; intros [| b mask]; simpl;
    try constructor.
  destruct b; [constructor; [exact Ha | apply IH] | apply IH].
Qed.

Lemma mask_filter_length (A B : Type) (mask : list bool) :
  forall (l : list A) (l' : list B), length l = length l' ->
    length (mask_filter mask l) = length (mask_filter mask l').
Proof.
  induction mask as [| b mask IH]; intros [| x l] [| y l'] H;
    simpl in *; try reflexivity; try discriminate.
  destruct b; simpl; [f_equal |]; apply IH; lia.
Qed.

Lemma select_frame_data (mask : list bool) (X : dataframe) (c : string)
  (col : list cell) :
  In (c, col) (data (select_frame mask X)) ->
  exists col0, In (c, col0) (data X) /\ col = mask_filter mask col0.
Proof.
  unfold select_frame. simpl. intro H. apply in_map_iff in H.
  destruct H as ([c0 col0] & E & Hin). inversion E; subst.
  exists col0. split; [exact Hin | reflexivity].
Qed.

Lemma select_frame_columns (mask : list bool) (X : dataframe) :
  columns (select_frame mask X) = columns X.
Proof.
  unfold columns, select_frame. simpl. rewrite map_map.
  apply map_ext. intros [c col]. reflexivity.
Qed.

Lemma unique_constant (t : string) (l : list string) :
  l <> [] -> (forall id, In id l -> id = t) -> unique l = [t].
Proof.
  destruct l as [| a l]; [congruence |]. intros _ H. simpl.
  rewrite (H a (or_introl eq_refl)). f_equal.
  assert (Hf : forall l', (forall id, In id l' -> id = t) ->
               filter (fun y => negb (String.eqb t y)) l' = []).
  { induction l' as [| b l' IH]; intro Hl; simpl; [reflexivity |].
    rewrite (Hl b (or_introl eq_refl)), String.eqb_refl. simpl.
    apply IH. intros id Hid. apply Hl. right. exact Hid. }
  apply Hf. intros id Hid. apply H. right.
  exact (proj1 (unique_In id l) Hid).
Qed.

Lemma mask_filter_In (A : Type) (mask : list bool) :
  forall (l : list A) x, In x (mask_filter mask l) -> In x l.
Proof.
  induction mask as [| b mask IH]; intros [| y l] x H; simpl in *;
    try contradiction.
  destruct b; [destruct H as [-> | H]; [left; reflexivity |] |];
    right; apply IH; exact H.
Qed.

Lemma lag_col_name_not_trip_id (f : string) (lag : nat) :
  In lag [1; 2; 3; 5]%nat -> String.eqb (lag_col_name f lag) "trip_id" = false.
Proof.
  intro Hl. unfold lag_col_name.
  assert (H : forall s, String.eqb (f ++ "_lag" ++ s) "trip_id" = false).
  { intro s.
    do 7 (destruct f as [| ? f]; [reflexivity |];
          simpl; destruct (Ascii.eqb _ _); [| reflexivity]).
    destruct f; reflexivity. }
  apply H.
Qed.

Lemma prepare_data_for_modeling_inv (df : table) (h : nat) (md : modeling_data) :
  prepare_data_for_modeling df h = Some md ->
  let features := all_features md in
  let mask := valid_rows df features (target_col_name h) in
  let X := select_frame mask (feature_frame df features) in
  let y := mask_filter mask (column df (target_col_name h)) in
  let valid_ids := mask_filter mask (trip_id df) in
  features = filter (fun f => in_columns f df) (base_features_of df)
             ++ filter (fun f => in_columns f df) (lag_features_wished df)
  /\ target_column md = target_col_name h
  /\ in_columns "powertrain_load_W" df = true
  /\ nrows X <> 0%nat
  /\ (train_trip_ids md, test_trip_ids md) = split_trip_ids (unique valid_ids)
  /\ (((length (unique valid_ids) < 2)%nat
       /\ X_train md = X /\ X_test md = X /\ y_train md = y /\ y_test md = y)
      \/ ((2 <= length (unique valid_ids))%nat
          /\ X_train md = select_frame (isin (train_trip_ids md) valid_ids) X
          /\ X_test md = select_frame (isin (test_trip_ids md) valid_ids) X
          /\ y_train md = mask_filter (isin (train_trip_ids md) valid_ids) y
          /\ y_test md = mask_filter (isin (test_trip_ids md) valid_ids) y)).
Proof.
  unfold prepare_data_for_modeling.
  destruct (empty df); [discriminate |].
  destruct (negb (in_columns "powertrain_load_W" df)) eqn:Hload; [discriminate |].
  apply negb_false_iff in Hload.
  destruct (negb (in_columns (target_col_name h) df)); [discriminate |].
  cbv zeta. fold (lag_features_wished df).
  set (features := filter _ (base_features_of df) ++ filter _ (lag_features_wished df)).
  destruct features as [| f fs] eqn:Ef; [discriminate |].
  rewrite <- Ef. clear Ef.
  fold (feature_frame df features).
  fold (valid_rows df features (target_col_name h)).
  set (mask := valid_rows df features (target_col_name h)).
  destruct (nrows (select_frame mask (feature_frame df features)) =? 0)%nat eqn:En;
    [discriminate |].
  apply Nat.eqb_neq in En.
  destruct (split_trip_ids (unique (mask_filter mask (trip_id df))))
    as [train test] eqn:E.
  destruct (Nat.ltb_spec (length (unique (mask_filter mask (trip_id df)))) 2)
    as [Hlt | Hge];
    intro H; inversion H; subst md; simpl; fold mask; rewrite E;
    repeat split; try assumption; try reflexivity.
  - left. repeat split; [exact Hlt]. 
  - right. repeat split. exact Hge.
Qed.

Lemma valid_rows_defined (df : table) (features : list string)
  (target : string) (c : string) (col : list cell) :
  In (c, col) (data (feature_frame df features)) ->
  all_defined (mask_filter (valid_rows df features target) col).
Proof.
  intro Hin. unfold valid_rows. apply mask_filter_defined.
  intros j _ Hf. simpl in Hf.
  apply negb_true_iff, orb_false_iff in Hf. destruct Hf as [Hf _].
  destruct (isna (nth j col None)) eqn:E; [| reflexivity].
  rewrite <- Hf. symmetry. apply existsb_exists.
  exists (c, col). split; [exact Hin | exact E].
Qed.

Lemma valid_rows_target_defined (df : table) (features : list string)
  (target : string) :
  all_defined (mask_filter (valid_rows df features target) (column df target)).
Proof.
  unfold valid_rows. apply mask_filter_defined.
  intros j _ Hf. simpl in Hf.
  apply negb_true_iff, orb_false_iff in Hf. destruct Hf as [_ Hf]. exact Hf.
Qed.

(** X11: when the function returns its results, no feature column of
    X_train or X_test and no entry of y_train or y_test is NaN. *)
Theorem prepare_data_no_missing_values (df : table) (h : nat)
  (md : modeling_data) :
  prepare_data_for_modeling df h = Some md ->
  (forall c col, In (c, col) (data (X_train md)) -> all_defined col)
  /\ (forall c col, In (c, col) (data (X_test md)) -> all_defined col)
  /\ all_defined (y_train md)
  /\ all_defined (y_test md).
Proof.
  intro H. apply prepare_data_for_modeling_inv in H. cbv zeta in H.
  destruct H as (_ & _ & _ & _ & _ & Hsplit).
  set (features := all_features md) in *.
  set (mask := valid_rows df features (target_col_name h)) in *.
  assert (HX : forall c col,
             In (c, col) (data (select_frame mask (feature_frame df features))) ->
             all_defined col).
  { intros c col Hin. apply select_frame_data in Hin.
    destruct Hin as (col0 & Hin & ->).
    exact (valid_rows_defined df features (target_col_name h) c col0 Hin). }
  assert (Hy : all_defined (mask_filter mask (column df (target_col_name h))))
    by apply valid_rows_target_defined.
  destruct Hsplit as [(_ & -> & -> & -> & ->) | (_ & -> & -> & -> & ->)].
  - repeat split; assumption.
  - repeat split.
    + intros c col Hin. apply select_frame_data in Hin.
      destruct Hin as (col0 & Hin & ->).
      apply mask_filter_sub_defined. exact (HX c col0 Hin).
    + intros c col Hin. apply select_frame_data in Hin.
      destruct Hin as (col0 & Hin & ->).
      apply mask_filter_sub_defined. exact (HX c col0 Hin).
    + apply mask_filter_sub_defined. exact Hy.
    + apply mask_filter_sub_defined. exact Hy.
Qed.

Lemma feature_frame_columns (df : table) (features : list string) :
  columns (feature_frame df features) = features.
Proof.
  unfold columns, feature_frame. simpl. rewrite map_map. simpl.
  apply map_id.
Qed.

Lemma lag_features_wished_In (df : table) (f : string) :
  In f (lag_features_wished df) ->
  exists b lag, In b (base_features_of df) /\ In lag [1; 2; 3; 5]%nat
                /\ f = lag_col_name b lag.
Proof.
  unfold lag_features_wished. intro H. apply in_flat_map in H.
  destruct H as (b & Hb & Hf). apply filter_In in Hf. destruct Hf as [Hf _].
  apply in_map_iff in Hf. destruct Hf as (lag & <- & Hlag).
  exists b, lag. repeat split; assumption.
Qed.

(** X12: when the function returns its results, the first selected feature
    is powertrain_load_W, the columns of X_train and of X_test are the
    selected features in their order, the target column is
    future_load_W_<horizon>s, and every selected feature is a column of
    the table that is a base feature or the lag 1, 2, 3 or 5 of one: the
    lag 10 that the lag builder also makes is never selected. *)
Theorem prepare_data_selected_features (df : table) (h : nat)
  (md : modeling_data) :
  prepare_data_for_modeling df h = Some md ->
  hd_error (all_features md) = Some "powertrain_load_W"%string
  /\ columns (X_train md) = all_features md
  /\ columns (X_test md) = all_features md
  /\ target_column md = target_col_name h
  /\ (forall f, In f (all_features md) ->
        in_columns f df = true
        /\ (In f (base_features_of df)
            \/ exists b lag, In b (base_features_of df)
                             /\ In lag [1; 2; 3; 5]%nat
                             /\ f = lag_col_name b lag)).
Proof.
  intro H. apply prepare_data_for_modeling_inv in H. cbv zeta in H.
  destruct H as (Hf & Ht & Hload & _ & _ & Hsplit).
  split.
  { rewrite Hf. unfold base_features_of. simpl app at 1. cbn [filter].
    rewrite Hload. reflexivity. }
  split.
  { destruct Hsplit as [(_ & -> & _) | (_ & -> & _)];
      rewrite ?select_frame_columns; apply feature_frame_columns. }
  split.
  { destruct Hsplit as [(_ & _ & -> & _) | (_ & _ & -> & _)];
      rewrite ?select_frame_columns; apply feature_frame_columns. }
  split; [exact Ht |].
  intros f Hin. rewrite Hf in Hin. apply in_app_or in Hin.
  destruct Hin as [Hin | Hin]; apply filter_In in Hin; destruct Hin as [Hin Hc].
  - split; [exact Hc | left; exact Hin].
  - split; [exact Hc | right; apply lag_features_wished_In; exact Hin].
Qed.

(** X13: on a table whose rows all belong to one trip the function, when
    it returns, gives the same frame as train and as test set: X_train is
    X_test, y_train is y_test, and both identifier lists hold that one
    trip. *)
Theorem prepare_data_single_trip (df : table) (h : nat) (md : modeling_data)
  (trip : string) :
  (forall id, In id (trip_id df) -> id = trip) ->
  prepare_data_for_modeling df h = Some md ->
  X_train md = X_test md
  /\ y_train md = y_test md
  /\ train_trip_ids md = [trip]
  /\ test_trip_ids md = [trip].
Proof.
  intros Hone H. apply prepare_data_for_modeling_inv in H. cbv zeta in H.
  destruct H as (_ & _ & _ & Hn & Hids & Hsplit).
  set (mask := valid_rows df (all_features md) (target_col_name h)) in *.
  assert (Hu : unique (mask_filter mask (trip_id df)) = [trip]).
  { apply unique_constant.
    - intro E. apply Hn. unfold select_frame. simpl.
      rewrite (@mask_filter_length _ _ mask (seq 0 (len df)) (trip_id df)).
      + rewrite E. reflexivity.
      + rewrite length_seq. reflexivity.
    - intros id Hid. apply Hone. exact (mask_filter_In _ _ _ Hid). }
  rewrite Hu in Hids, Hsplit. simpl in Hids. inversion Hids.
  destruct Hsplit as [(_ & -> & -> & -> & ->) | (Hge & _)].
  - repeat split.
  - simpl in Hge. lia.
Qed.

Lemma first_column_not_trip_id (p : string -> bool) (t : table) (c : string) :
  p "trip_id"%string = false -> first_column p t = Some c ->
  String.eqb c "trip_id" = false.
Proof.
  intros Hid Hc. unfold first_column in Hc.
  assert (Hin : In c (filter p (column_names t))).
  { destruct (filter p (column_names t)) as [| x l]; [discriminate |].
    inversion Hc; subst. left. reflexivity. }
  apply filter_In in Hin. destruct Hin as [_ Hp].
  destruct (String.eqb_spec c "trip_id") as [-> | _]; [congruence | reflexivity].
Qed.

Lemma base_features_not_trip_id (df : table) (f : string) :
  In f (base_features_of df) -> String.eqb f "trip_id" = false.
Proof.
  unfold base_features_of. intro H.
  repeat (apply in_app_or in H; destruct H as [H | H]).
  - destruct H as [<- | []]. reflexivity.
  - destruct (in_columns "speed_kmh" df); [| destruct H].
    destruct H as [<- | []]. reflexivity.
  - destruct (in_columns "acceleration_ms2" df); [| destruct H].
    destruct H as [<- | []]. reflexivity.
  - destruct (in_columns "throttle_pedal_%" df).
    + destruct H as [<- | []]. reflexivity.
    + destruct (first_column _ df) as [c |] eqn:E; [| destruct H].
      destruct H as [<- | []].
      exact (@first_column_not_trip_id _ df c eq_refl E).
  - destruct (in_columns "ambient_temperature_C" df).
    + destruct H as [<- | []]. reflexivity.
    + destruct (first_column _ df) as [c |] eqn:E; [| destruct H].
      destruct H as [<- | []].
      exact (@first_column_not_trip_id _ df c eq_refl E).
  - destruct (in_columns "heater_power_W" df); [| destruct H].
    destruct H as [<- | []]. reflexivity.
  - destruct (in_columns "throttle_change_rate" df); [| destruct H].
    destruct H as [<- | []]. reflexivity.
Qed.

Lemma complete_row_column (df : table) (c : string) (i : nat) :
  notna_at df (map fst (cols df)) i = true ->
  String.eqb c "trip_id" = false -> in_columns c df = true ->
  isna (nth i (column df c) None) = false.
Proof.
  intros Hrow Hc Hin.
  apply (proj1 (notna_at_spec df (map fst (cols df)) i) Hrow).
  apply has_key_In_keys. exact (in_columns_has_key _ _ Hc Hin).
Qed.

Lemma mask_filter_some (f : nat -> bool) (n : nat) :
  forall k i, (k <= i < k + n)%nat -> f i = true ->
              mask_filter (map f (seq k n)) (seq k n) <> [].
Proof.
  induction n as [| n IH]; intros k i Hi Hf; [lia |].
  simpl. destruct (f k) eqn:E; [discriminate |].
  apply IH with i; [| exact Hf].
  destruct (Nat.eq_dec i k) as [-> | Hne]; [congruence | lia].
Qed.

(** X10: on a table with the load column and the target column and at
    least one row in which every channel is present, the function returns
    its eight results: the branch for an empty feature list cannot be
    taken, the load column being always selected. *)
Theorem prepare_data_for_modeling_succeeds (df : table) (h : nat) (i : nat) :
  in_columns "powertrain_load_W" df = true ->
  in_columns (target_col_name h) df = true ->
  (i < len df)%nat ->
  notna_at df (map fst (cols df)) i = true ->
  exists md, prepare_data_for_modeling df h = Some md.
Proof.
  intros Hload Htarget Hi Hrow.
  unfold prepare_data_for_modeling.
  assert (Hne : empty df = false).
  { unfold empty, len in *. destruct (trip_id df); [simpl in Hi; lia | reflexivity]. }
  rewrite Hne, Hload, Htarget. cbv zeta. cbn [negb].
  fold (lag_features_wished df).
  set (features := filter _ (base_features_of df) ++ filter _ (lag_features_wished df)).
  assert (Hfeat : forall f, In f features ->
            in_columns f df = true /\ String.eqb f "trip_id" = false).
  { intros f Hin. unfold features in Hin. apply in_app_or in Hin.
    destruct Hin as [Hin | Hin]; apply filter_In in Hin;
      destruct Hin as [Hin Hc]; (split; [exact Hc |]).
    - exact (@base_features_not_trip_id df f Hin).
    - apply lag_features_wished_In in Hin.
      destruct Hin as (b & lag & _ & Hlag & ->).
      apply lag_col_name_not_trip_id. exact Hlag. }
  destruct features as [| f fs] eqn:Ef.
  { exfalso. unfold features in Ef. unfold base_features_of in Ef.
    simpl app at 1 in Ef. cbn [filter] in Ef. rewrite Hload in Ef.
    discriminate. }
  rewrite <- Ef in *. clear Ef.
  fold (feature_frame df features).
  fold (valid_rows df features (target_col_name h)).
  set (mask := valid_rows df features (target_col_name h)).
  assert (Hvalid : mask_filter mask (seq 0 (len df)) <> []).
  { unfold mask, valid_rows. apply mask_filter_some with i; [lia |].
    apply negb_true_iff, orb_false_iff. split.
    - destruct (existsb _ _) eqn:E; [| reflexivity].
      apply existsb_exists in E. destruct E as ([c col] & Hin & Hna).
      unfold feature_frame in Hin. simpl in Hin. apply in_map_iff in Hin.
      destruct Hin as (c' & E' & Hin). injection E' as <- <-.
      destruct (Hfeat c' Hin) as [Hc Hid].
      change (isna (nth i (column df c') None) = true) in Hna.
      rewrite (@complete_row_column df c' i Hrow Hid Hc) in Hna. discriminate.
    - apply complete_row_column; [exact Hrow | reflexivity | exact Htarget]. }
  destruct (nrows (select_frame mask (feature_frame df features)) =? 0)%nat eqn:En.
  { exfalso. apply Nat.eqb_eq in En. unfold select_frame in En. simpl in En.
    apply Hvalid. apply length_zero_iff_nil. exact En. }
  destruct (split_trip_ids (unique (mask_filter mask (trip_id df))))
    as [train test].
  destruct (length _ <? 2)%nat; eexists; reflexivity.
Qed.

Lemma prepare_data_no_missing_values_witness :
  (forall c col, In (c, col) (data (X_train modeling_split)) -> all_defined col)
  /\ (forall c col, In (c, col) (data (X_test modeling_split)) -> all_defined col)
  /\ all_defined (y_train modeling_split)
  /\ all_defined (y_test modeling_split).
Proof.
  apply (@prepare_data_no_missing_values modeling_table 5 modeling_split).
  reflexivity.
Defined.

Lemma prepare_data_selected_features_witness :
  hd_error (all_features modeling_split) = Some "powertrain_load_W"%string
  /\ columns (X_train modeling_split) = all_features modeling_split
  /\ columns (X_test modeling_split) = all_features modeling_split
  /\ target_column modeling_split = target_col_name 5
  /\ (forall f, In f (all_features modeling_split) ->
        in_columns f modeling_table = true
        /\ (In f (base_features_of modeling_table)
            \/ exists b lag, In b (base_features_of modeling_table)
                             /\ In lag [1; 2; 3; 5]%nat
                             /\ f = lag_col_name b lag)).
Proof.
  apply (@prepare_data_selected_features modeling_table 5 modeling_split).
  reflexivity.
Defined.

Lemma prepare_data_single_trip_witness :
  X_train single_trip_split = X_test single_trip_split
  /\ y_train single_trip_split = y_test single_trip_split
  /\ train_trip_ids single_trip_split = ["A01"%string]
  /\ test_trip_ids single_trip_split = ["A01"%string].
Proof.
  apply (@prepare_data_single_trip single_trip_table 5 single_trip_split
           "A01"%string).
  - intros id [<- | [<- | []]]; reflexivity.
  - reflexivity.
Defined.

Lemma prepare_data_for_modeling_succeeds_witness :
  exists md, prepare_data_for_modeling modeling_table 5 = Some md.
Proof.
  apply (@prepare_data_for_modeling_succeeds modeling_table 5 0%nat).
  - reflexivity.
  - reflexivity.
  - unfold len. simpl. lia.
  - reflexivity.
Defined.

(** Rows split by a mask and by its complement are all the rows. *)
Lemma mask_filter_complement (A : Type) (m m' : list bool) :
  length m = length m' ->
  (forall i, (i < length m)%nat -> nth i m' false = negb (nth i m false)) ->
  forall l : list A, (length l <= length m)%nat ->
    Permutation (mask_filter m l ++ mask_filter m' l) l.
Proof.
  revert m'. induction m as [| b m IH]; intros [| b' m'] Hlen Hc l Hl;
    simpl in Hlen; try discriminate.
  - destruct l; [constructor | simpl in Hl; lia].
  - destruct l as [| x l]; [constructor |].
    pose proof (Hc 0%nat ltac:(simpl; lia)) as H0. simpl in H0. subst b'.
    assert (IH' : Permutation (mask_filter m l ++ mask_filter m' l) l).
    { apply IH.
      - lia.
      - intros i Hi. apply (Hc (S i)). simpl. lia.
      - simpl in Hl. lia. }
    simpl. destruct b; simpl.
    + apply perm_skip. exact IH'.
    + apply Permutation_sym, Permutation_cons_app, Permutation_sym. exact IH'.
Qed.

Lemma mask_filter_length_le (A B : Type) (mask : list bool) :
  forall (l : list A) (l' : list B), (length l <= length l')%nat ->
    (length (mask_filter mask l) <= length (mask_filter mask l'))%nat.
Proof.
  induction mask as [| b mask IH]; intros [| x l] [| y l'] H;
    simpl in *; try lia.
  assert (H' : (length l <= length l')%nat) by lia.
  specialize (IH l l' H'). destruct b; simpl; lia.
Qed.

Lemma existsb_eqb_false (x : string) (l : list string) :
  ~ In x l -> existsb (String.eqb x) l = false.
Proof.
  intro H. destruct (existsb (String.eqb x) l) eqn:E; [| reflexivity].
  exfalso. apply H. apply In_existsb_eqb. exact E.
Qed.

Lemma split_trip_ids_complement (ids : list string) (x : string) :
  NoDup ids -> (2 <= length ids)%nat -> In x ids ->
  existsb (String.eqb x) (snd (split_trip_ids ids))
  = negb (existsb (String.eqb x) (fst (split_trip_ids ids))).
Proof.
  intros Hnd Hn Hx. unfold split_trip_ids.
  destruct (Nat.ltb_spec (length ids) 2) as [H | _]; [lia |].
  cbv zeta. simpl fst. simpl snd.
  set (k := split_idx (length (sorted ids))).
  assert (Happ : firstn k (sorted ids) ++ skipn k (sorted ids) = sorted ids)
    by apply firstn_skipn.
  assert (Hnd' : NoDup (firstn k (sorted ids) ++ skipn k (sorted ids))).
  { rewrite Happ. apply Permutation_NoDup with ids; [apply sorted_perm | exact Hnd]. }
  assert (Hin : In x (firstn k (sorted ids) ++ skipn k (sorted ids))).
  { rewrite Happ. apply Permutation_in with ids; [apply sorted_perm | exact Hx]. }
  apply in_app_or in Hin. destruct Hin as [Hin | Hin].
  - rewrite (existsb_eqb_In _ _ Hin). simpl.
    apply existsb_eqb_false.
    exact (@NoDup_app_disjoint _ _ _ x Hnd' Hin).
  - rewrite (existsb_eqb_In _ _ Hin).
    rewrite existsb_eqb_false; [reflexivity |].
    intro Hin'. exact (@NoDup_app_disjoint _ _ _ x Hnd' Hin' Hin).
Qed.

Lemma isin_complement (ids valid_ids : list string) :
  NoDup ids -> (2 <= length ids)%nat ->
  (forall x, In x valid_ids -> In x ids) ->
  length (isin (fst (split_trip_ids ids)) valid_ids)
  = length (isin (snd (split_trip_ids ids)) valid_ids)
  /\ forall i, (i < length (isin (fst (split_trip_ids ids)) valid_ids))%nat ->
       nth i (isin (snd (split_trip_ids ids)) valid_ids) false
       = negb (nth i (isin (fst (split_trip_ids ids)) valid_ids) false).
Proof.
  intros Hnd Hn Hsub. unfold isin. rewrite !length_map. split; [reflexivity |].
  intros i Hi.
  assert (Hnth : forall group,
            nth i (map (fun id => existsb (String.eqb id) group) valid_ids) false
            = existsb (String.eqb (nth i valid_ids ""%string)) group).
  { intro group.
    rewrite (nth_indep _ false
               ((fun id => existsb (String.eqb id) group) ""%string))
      by (rewrite length_map; exact Hi).
    exact (map_nth (fun id => existsb (String.eqb id) group) valid_ids
             ""%string i). }
  rewrite !Hnth. apply split_trip_ids_complement; [exact Hnd | exact Hn |].
  apply Hsub. apply nth_In. exact Hi.
Qed.

(** X14: when the train and the test identifiers differ, every valid row
    goes to exactly one of the two sets: y_train followed by y_test is a
    rearrangement of the valid targets, no identifier is in both lists and
    every identifier of a valid row is in one of them. *)
Theorem prepare_data_rows_partition (df : table) (h : nat)
  (md : modeling_data) :
  prepare_data_for_modeling df h = Some md ->
  train_trip_ids md <> test_trip_ids md ->
  let mask := valid_rows df (all_features md) (target_col_name h) in
  (length (column df (target_col_name h)) <= len df)%nat ->
  Permutation (y_train md ++ y_test md)
    (mask_filter mask (column df (target_col_name h)))
  /\ (forall x, In x (train_trip_ids md) -> ~ In x (test_trip_ids md))
  /\ (forall x, In x (mask_filter mask (trip_id df)) ->
                In x (train_trip_ids md) \/ In x (test_trip_ids md)).
Proof.
  intros H Hdiff mask Hlen.
  apply prepare_data_for_modeling_inv in H. cbv zeta in H.
  destruct H as (_ & _ & _ & _ & Hids & Hsplit). fold mask in Hids, Hsplit.
  set (valid_ids := mask_filter mask (trip_id df)) in *.
  set (y := mask_filter mask (column df (target_col_name h))) in *.
  assert (Htr : train_trip_ids md = fst (split_trip_ids (unique valid_ids)))
    by (rewrite <- Hids; reflexivity).
  assert (Hte : test_trip_ids md = snd (split_trip_ids (unique valid_ids)))
    by (rewrite <- Hids; reflexivity).
  destruct Hsplit as [(Hlt & _) | (Hge & _ & _ & Hytr & Hyte)].
  { exfalso. apply Hdiff. rewrite Htr, Hte. unfold split_trip_ids.
    destruct (Nat.ltb_spec (length (unique valid_ids)) 2) as [_ | Hc];
      [reflexivity | lia]. }
  destruct (@isin_complement (unique valid_ids) valid_ids (unique_NoDup _) Hge
              (fun x Hx => proj2 (unique_In x valid_ids) Hx))
    as [Hmlen Hcompl].
  rewrite <- Htr, <- Hte in Hmlen, Hcompl.
  assert (Happ : firstn (split_idx (length (sorted (unique valid_ids))))
                   (sorted (unique valid_ids))
                 ++ skipn (split_idx (length (sorted (unique valid_ids))))
                      (sorted (unique valid_ids))
                 = sorted (unique valid_ids)) by apply firstn_skipn.
  assert (Hparts : train_trip_ids md ++ test_trip_ids md
                   = sorted (unique valid_ids)).
  { rewrite Htr, Hte. unfold split_trip_ids.
    destruct (Nat.ltb_spec (length (unique valid_ids)) 2) as [Hc | _]; [lia |].
    exact Happ. }
  split; [| split].
  - rewrite Hytr, Hyte. apply mask_filter_complement.
    + exact Hmlen.
    + exact Hcompl.
    + unfold isin. rewrite length_map. unfold y, valid_ids.
      apply mask_filter_length_le. exact Hlen.
  - intros x Hx.
    apply (@NoDup_app_disjoint _ (train_trip_ids md) (test_trip_ids md) x);
      [| exact Hx].
    rewrite Hparts. apply Permutation_NoDup with (unique valid_ids);
      [apply sorted_perm | apply unique_NoDup].
  - intros x Hx. apply in_app_or. rewrite Hparts.
    apply Permutation_in with (unique valid_ids); [apply sorted_perm |].
    apply unique_In. exact Hx.
Qed.

Lemma prepare_data_rows_partition_witness :
  Permutation (y_train modeling_split ++ y_test modeling_split)
    (mask_filter
       (valid_rows modeling_table (all_features modeling_split)
          (target_col_name 5))
       (column modeling_table (target_col_name 5)))
  /\ (forall x, In x (train_trip_ids modeling_split) ->
                ~ In x (test_trip_ids modeling_split))
  /\ (forall x,
         In x (mask_filter
                 (valid_rows modeling_table (all_features modeling_split)
                    (target_col_name 5))
                 (trip_id modeling_table)) ->
         In x (train_trip_ids modeling_split)
         \/ In x (test_trip_ids modeling_split)).
Proof.
  apply (@prepare_data_rows_partition modeling_table 5 modeling_split).
  - reflexivity.
  - discriminate.
  - unfold len. simpl. lia.
Defined.

(** ** Rate, clean-up and lag columns in general *)

Lemma diff_nth (col : list cell) (i : nat) :
  (S i < length col)%nat ->
  nth (S i) (diff col) None = csub (nth (S i) col None) (nth i col None).
Proof.
  intro Hi. destruct col as [| a rest]; [simpl in Hi; lia |].
  unfold diff. cbn [nth].
  rewrite (@map2_nth _ _ _ csub rest (a :: rest) i None None None).
  - reflexivity.
  - rewrite map2_length. simpl in *. lia.
Qed.

Lemma diff_length (col : list cell) : length (diff col) = length col.
Proof.
  destruct col as [| a rest]; [reflexivity |].
  unfold diff. simpl. rewrite map2_length. simpl. rewrite Nat.min_l by lia.
  reflexivity.
Qed.

(** X15: on a row whose time stamp and the one before it are present and
    differ, the acceleration before the clean-up is the difference of the
    two speeds in m/s (km/h divided by 3.6) over the time difference.  The
    throttle rate before the clean-up is the difference of the two
    throttle readings over the row's entry of the column time_diff, when
    that entry is a number other than 0; on a trip with a speed channel
    that entry is the time difference, which the speed part has written.
    A missing speed or throttle reading on either row makes the value NaN,
    not 0. *)
Theorem raw_rates_interior (time speed_kmh time_diff throttle : list cell)
  (i : nat) (t0 t1 : R) :
  nth i time None = Some t0 ->
  nth (S i) time None = Some t1 ->
  t1 <> t0 ->
  ((S i < length speed_kmh)%nat ->
   (forall v0 v1,
       nth i speed_kmh None = Some v0 -> nth (S i) speed_kmh None = Some v1 ->
       nth (S i) (raw_acceleration time speed_kmh) None
       = Some ((v1 / 3.6 - v0 / 3.6) / (t1 - t0)))
   /\ (nth i speed_kmh None = None \/ nth (S i) speed_kmh None = None ->
       nth (S i) (raw_acceleration time speed_kmh) None = None))
  /\ (forall d : R,
        nth (S i) time_diff None = Some d -> d <> 0 ->
        (S i < length throttle)%nat ->
        (forall p0 p1,
            nth i throttle None = Some p0 ->
            nth (S i) throttle None = Some p1 ->
            nth (S i) (raw_throttle_rate time_diff throttle) None
            = Some ((p1 - p0) / d))
        /\ (nth i throttle None = None \/ nth (S i) throttle None = None ->
            nth (S i) (raw_throttle_rate time_diff throttle) None = None))
  /\ (forall (frame : table) (time_col : string),
        time_col = "time_s"%string \/ time_col = "timestamp"%string ->
        column frame time_col = time ->
        nth (S i) (column (acceleration_block time_col frame) "time_diff")
          None
        = Some (t1 - t0)).
Proof.
  intros Ht0 Ht1 Hne.
  assert (Hlt : (S i < length time)%nat).
  { destruct (Nat.lt_ge_cases (S i) (length time)) as [H | H]; [exact H |].
    rewrite (nth_overflow time None H) in Ht1. discriminate. }
  assert (Hd : nth (S i) (diff time) None = Some (t1 - t0)).
  { rewrite diff_nth by exact Hlt. rewrite Ht0, Ht1. reflexivity. }
  assert (Hrate : forall (col steps : list cell) d, (S i < length col)%nat ->
            nth (S i) steps None = Some d -> d <> 0 ->
            nth (S i) (map2 guarded_rate (diff col) steps) None
            = cdiv (csub (nth (S i) col None) (nth i col None)) (Some d)).
  { intros col steps d Hc Hsd Hd0.
    assert (Hs : (S i < length steps)%nat).
    { destruct (Nat.lt_ge_cases (S i) (length steps)) as [H | H];
        [exact H |].
      rewrite (nth_overflow steps None H) in Hsd. discriminate. }
    rewrite (@map2_nth _ _ _ guarded_rate (diff col) steps (S i)
               None None None).
    - rewrite diff_nth by exact Hc.
      rewrite <- (guarded_rate_number _ Hd0). f_equal. exact Hsd.
    - rewrite map2_length, diff_length. lia. }
  split; [| split].
  - intro Hs.
    assert (Hacc : nth (S i) (raw_acceleration time speed_kmh) None
                   = cdiv (csub (cdiv (nth (S i) speed_kmh None) (Some 3.6))
                             (cdiv (nth i speed_kmh None) (Some 3.6)))
                       (Some (t1 - t0))).
    { unfold raw_acceleration. cbv zeta.
      rewrite (Hrate _ (diff time) (t1 - t0))
        by (first [rewrite length_map; exact Hs | exact Hd | lra]).
      assert (Hmap : forall j,
                nth j (map (fun v => cdiv v (Some 3.6)) speed_kmh) None
                = cdiv (nth j speed_kmh None) (Some 3.6))
        by (intro j; exact (map_nth (fun v => cdiv v (Some 3.6)) speed_kmh None j)).
      rewrite !Hmap. reflexivity. }
    split.
    + intros v0 v1 H0 H1. rewrite Hacc, H0, H1. reflexivity.
    + intros [H | H]; rewrite Hacc, H; [| reflexivity].
      destruct (nth (S i) speed_kmh None); reflexivity.
  - intros d Hsd Hd0 Hs. unfold raw_throttle_rate.
    rewrite (Hrate throttle time_diff d Hs Hsd Hd0). split.
    + intros p0 p1 H0 H1. rewrite H0, H1. reflexivity.
    + intros [H | H]; rewrite H; [| reflexivity].
      destruct (nth (S i) throttle None); reflexivity.
  - intros frame time_col Htc Htime.
    rewrite acceleration_block_time_diff_column by exact Htc.
    rewrite Htime. exact Hd.
Qed.

Lemma raw_rates_interior_witness :
  nth 1 (raw_acceleration [Some 0; Some 2] [Some 0; Some 36]) None
  = Some ((36 / 3.6 - 0 / 3.6) / (2 - 0)).
Proof.
  refine (proj1 (proj1 (@raw_rates_interior [Some 0; Some 2] [Some 0; Some 36]
                          [] [] 0%nat 0 2 eq_refl eq_refl _) _)
            0 36 eq_refl eq_refl).
  - lra.
  - simpl. lia.
Defined.

Lemma clip_isna (lo hi : R) (a : cell) :
  isna (clip_lower lo (clip_upper hi a)) = isna a.
Proof.
  destruct a as [x |]; simpl; [| reflexivity].
  destruct (Rlt_dec hi x); simpl.
  - destruct (Rlt_dec hi lo); reflexivity.
  - destruct (Rlt_dec x lo); reflexivity.
Qed.

Lemma clip_inside (lo hi x : R) :
  lo <= x <= hi -> clip_lower lo (clip_upper hi (Some x)) = Some x.
Proof.
  intro H. simpl. destruct (Rlt_dec hi x); [lra |]. simpl.
  destruct (Rlt_dec x lo); [lra | reflexivity].
Qed.

(** X16: the clean-up of extreme values keeps the length of the column and
    its NaN entries, leaves every value that lies within mean - 3 std and
    mean + 3 std as it is, and changes nothing at all on a column with
    fewer than two numbers or with all numbers equal. *)
Theorem clip_3sigma_keeps (col : list cell) :
  length (clip_3sigma col) = length col
  /\ (forall i, isna (nth i (clip_3sigma col) None) = isna (nth i col None))
  /\ (forall i m s x,
         mean col = Some m -> std col = Some s ->
         nth i col None = Some x -> m - 3 * s <= x <= m + 3 * s ->
         nth i (clip_3sigma col) None = Some x)
  /\ ((length (valid col) < 2)%nat -> clip_3sigma col = col)
  /\ (forall c, (forall x, In (Some x) col -> x = c) -> clip_3sigma col = col).
Proof.
  assert (Hnth : forall lo hi i,
            nth i (map (clip_lower lo) (map (clip_upper hi) col)) None
            = clip_lower lo (clip_upper hi (nth i col None))).
  { intros lo hi i. rewrite map_map.
    exact (map_nth (fun a => clip_lower lo (clip_upper hi a)) col None i). }
  split; [| split; [| split; [| split]]].
  - unfold clip_3sigma. destruct (std col) as [s |]; [| reflexivity].
    destruct (Rlt_dec 0 s); [| reflexivity].
    destruct (mean col) as [m |]; [| reflexivity].
    rewrite !length_map. reflexivity.
  - intro i. unfold clip_3sigma. destruct (std col) as [s |]; [| reflexivity].
    destruct (Rlt_dec 0 s); [| reflexivity].
    destruct (mean col) as [m |]; [| reflexivity].
    rewrite Hnth. apply clip_isna.
  - intros i m s x Hm Hs Hx Hband. unfold clip_3sigma. rewrite Hs, Hm.
    destruct (Rlt_dec 0 s); [| exact Hx].
    rewrite Hnth, Hx. apply clip_inside. exact Hband.
  - intro Hn. unfold clip_3sigma, std.
    destruct (mean col) as [m |]; [| reflexivity].
    destruct (Nat.ltb_spec (length (valid col)) 2) as [_ | H]; [reflexivity | lia].
  - intros c Hc. unfold clip_3sigma.
    destruct (std col) as [s |] eqn:Hs; [| reflexivity].
    destruct (Rlt_dec 0 s) as [Hpos |]; [| reflexivity].
    destruct (mean col) as [m |] eqn:Hm; [| reflexivity].
    exfalso.
    assert (Hall : forall x, In x (valid col) -> x = c).
    { intros x Hx. apply Hc. apply valid_In. exact Hx. }
    assert (Hmc : m = c).
    { unfold mean in Hm. destruct (valid col) as [| a v] eqn:Ev; [discriminate |].
      injection Hm as <-.
      assert (Hsum : forall l, (forall x, In x l -> x = c) ->
                sum l = INR (length l) * c).
      { induction l as [| b l IH]; intro Hl.
        - simpl. lra.
        - change (sum (b :: l)) with (b + sum l).
          rewrite IH by (intros x Hx; apply Hl; right; exact Hx).
          rewrite (Hl b (or_introl eq_refl)).
          cbn [length]. rewrite S_INR. lra. }
      change (sum (a :: v) / INR (length (a :: v)) = c).
      rewrite (Hsum (a :: v) Hall).
      assert (Hlen : 0 < INR (length (a :: v))) by (apply lt_0_INR; simpl; lia).
      field. lra. }
    subst m. unfold std in Hs. rewrite Hm in Hs.
    destruct (length (valid col) <? 2)%nat; [discriminate |].
    inversion Hs as [Hs']. clear Hs.
    assert (Hz : sum (map (fun x => (x - c) * (x - c)) (valid col)) = 0).
    { clear - Hall. induction (valid col) as [| b l IH]; simpl; [reflexivity |].
      rewrite IH by (intros x Hx; apply Hall; right; exact Hx).
      rewrite (Hall b (or_introl eq_refl)). lra. }
    rewrite Hz in Hs'. unfold Rdiv in Hs'. rewrite Rmult_0_l, sqrt_0 in Hs'.
    lra.
Qed.

Lemma clip_3sigma_keeps_witness :
  clip_3sigma [Some 1; None] = [Some 1; None].
Proof.
  apply (proj1 (proj2 (proj2 (proj2 (clip_3sigma_keeps [Some 1; None]))))).
  simpl. lia.
Defined.

Lemma bfill_nth_defined (col : list cell) (i : nat) (x : R) :
  nth i col None = Some x -> nth i (bfill col) None = Some x.
Proof.
  revert i. induction col as [| a col IH]; intros i H.
  - destruct i; discriminate.
  - destruct i as [| i]; simpl in *.
    + subst a. reflexivity.
    + destruct a; simpl; apply IH; exact H.
Qed.

Lemma bfill_nth_next (col : list cell) (i : nat) :
  nth i col None = None -> nth i (bfill col) None = nth (S i) (bfill col) None.
Proof.
  revert i. induction col as [| a col IH]; intros i H.
  - destruct i; reflexivity.
  - destruct i as [| i]; simpl in *.
    + subst a. simpl. destruct (bfill col); reflexivity.
    + destruct a; simpl; apply IH; exact H.
Qed.

Lemma hd_nth_0 (A : Type) (l : list A) (d : A) : hd d l = nth 0 l d.
Proof. destruct l; reflexivity. Qed.

Lemma bfill_isna (col : list cell) (i : nat) :
  isna (nth i (bfill col) None) = true
  <-> forall j, (i <= j)%nat -> nth j col None = None.
Proof.
  revert i. induction col as [| a col IH]; intro i.
  - simpl. split.
    + intros _ j _. destruct j; reflexivity.
    + intros _. destruct i; reflexivity.
  - destruct i as [| i].
    + destruct a as [x |].
      * simpl. split; [discriminate |]. intro H. specialize (H 0%nat (le_n _)).
        discriminate.
      * assert (E0 : nth 0 (bfill (None :: col)) None = nth 0 (bfill col) None)
          by (simpl; destruct (bfill col); reflexivity).
        unfold cell in *. rewrite E0, IH. split.
        -- intros H [| j] _; [reflexivity |]. apply H. lia.
        -- intros H j Hj. apply (H (S j)). lia.
    + assert (E : nth (S i) (bfill (a :: col)) None = nth i (bfill col) None)
        by (destruct a; reflexivity).
      rewrite E, IH. split.
      * intros H [| j] Hj; [lia |]. apply H. lia.
      * intros H j Hj. apply (H (S j)). lia.
Qed.

(** X17: on a trip with at least k rows the lag-k column is the base
    column without its last k rows, back-filled, and moved down k rows,
    its first k rows taking the first back-filled value; so a base value
    that is present k rows earlier is copied as it is, and an entry stays
    NaN exactly when no base value is present from k rows earlier up to
    the k-th row from the end.  Where the base value k rows earlier is
    missing the entry takes a later value of the trip. *)
Theorem lag_column_general (k : nat) (base : list cell) :
  (k <= length base)%nat ->
  let kept := firstn (length base - k) base in
  lag_column k base = repeat (nth 0 (bfill kept) None) k ++ bfill kept
  /\ (forall i x, (k <= i)%nat -> (i < length base)%nat ->
        nth (i - k) base None = Some x ->
        nth i (lag_column k base) None = Some x)
  /\ (forall i, (i < length base)%nat ->
        (isna (nth i (lag_column k base) None) = true
         <-> forall j, (i - k <= j)%nat -> (j < length base - k)%nat ->
                       nth j base None = None)).
Proof.
  intros Hk kept.
  assert (Hlag : lag_column k base
                 = repeat (nth 0 (bfill kept) None) k ++ bfill kept).
  { unfold lag_column. rewrite shift_lag_long by exact Hk.
    rewrite bfill_leading_nan. fold kept.
    rewrite hd_nth_0. reflexivity. }
  assert (Hkept : forall j, (j < length base - k)%nat ->
                            nth j kept None = nth j base None).
  { intros j Hj. unfold kept. rewrite nth_firstn.
    destruct (Nat.ltb_spec j (length base - k)) as [_ | H]; [reflexivity | lia]. }
  assert (Hkept_len : length kept = (length base - k)%nat).
  { unfold kept. rewrite length_firstn. unfold cell. lia. }
  split; [exact Hlag |]. split.
  - intros i x Hi HiL Hx. rewrite Hlag.
    rewrite app_nth2 by (rewrite repeat_length; lia).
    rewrite repeat_length. apply bfill_nth_defined.
    rewrite Hkept by lia. exact Hx.
  - intros i HiL. rewrite Hlag.
    assert (Hcase : nth i (repeat (nth 0 (bfill kept) None) k ++ bfill kept) None
                    = nth (i - k) (bfill kept) None).
    { destruct (Nat.lt_ge_cases i k) as [Hlt | Hge].
      - rewrite app_nth1 by (rewrite repeat_length; exact Hlt).
        rewrite nth_repeat_lt by exact Hlt.
        replace (i - k)%nat with 0%nat by lia. reflexivity.
      - rewrite app_nth2 by (rewrite repeat_length; lia).
        rewrite repeat_length. reflexivity. }
    rewrite Hcase, bfill_isna. split.
    + intros H j Hj HjL. rewrite <- Hkept by exact HjL. apply H. exact Hj.
    + intros H j Hj. destruct (Nat.lt_ge_cases j (length base - k)) as [Hlt | Hge].
      * rewrite Hkept by exact Hlt. apply H; assumption.
      * apply nth_overflow. rewrite Hkept_len. exact Hge.
Qed.

Lemma lag_column_general_witness :
  lag_column 1 [None; Some 20; Some 30] = [Some 20; Some 20; Some 20].
Proof.
  refine (proj1 (@lag_column_general 1 [None; Some 20; Some 30] _)).
  simpl. lia.
Defined.

(** ** Data cleaning: the filling of missing values *)

Lemma ffill_from_length (col : list cell) :
  forall last, length (ffill_from last col) = length col.
Proof.
  induction col as [| [x |] col IH]; intro last; simpl; auto.
Qed.

Lemma ffill_from_defined (col : list cell) :
  forall last, all_defined col -> ffill_from last col = col.
Proof.
  unfold all_defined.
  induction col as [| [x |] col IH]; intros last H; simpl.
  - reflexivity.
  - rewrite IH by exact (Forall_inv_tail H). reflexivity.
  - apply Forall_inv in H. discriminate.
Qed.

Lemma ffill_from_nth_defined (col : list cell) :
  forall last i x, nth i col None = Some x ->
                   nth i (ffill_from last col) None = Some x.
Proof.
  induction col as [| [y |] col IH]; intros last i x H.
  - destruct i; discriminate.
  - destruct i as [| i]; simpl in *; [exact H | apply IH; exact H].
  - destruct i as [| i]; simpl in *; [discriminate | apply IH; exact H].
Qed.

Lemma ffill_from_nth_previous (col : list cell) :
  forall last i, nth (S i) col None = None -> (S i < length col)%nat ->
    nth (S i) (ffill_from last col) None = nth i (ffill_from last col) None.
Proof.
  induction col as [| a col IH]; intros last i H Hlen.
  - simpl in Hlen. lia.
  - destruct i as [| i].
    + destruct col as [| b col]; [simpl in Hlen; lia |].
      simpl in H. subst b. destruct a; reflexivity.
    + assert (Hlen' : (S i < length col)%nat) by (simpl in Hlen; lia).
      destruct a as [x |]; simpl; apply IH; assumption.
Qed.

(** Once a number has been seen, forward filling leaves no NaN. *)
Lemma ffill_from_some (col : list cell) (x : R) :
  all_defined (ffill_from (Some x) col).
Proof.
  unfold all_defined. revert x.
  induction col as [| [y |] col IH]; intro x; simpl; constructor;
    try reflexivity; apply IH.
Qed.

(** After forward filling the NaN of a column are its leading ones. *)
Lemma ffill_leading (col : list cell) :
  exists k rest, ffill col = repeat None k ++ rest /\ all_defined rest
                 /\ forall j, (j < k)%nat -> nth j col None = None.
Proof.
  unfold ffill. induction col as [| [x |] col IH].
  - exists 0%nat, []. repeat split; [constructor | intros; lia].
  - exists 0%nat, (Some x :: ffill_from (Some x) col). repeat split.
    + constructor; [reflexivity | apply ffill_from_some].
    + intros; lia.
  - destruct IH as (k & rest & E & Hdef & Hnan).
    exists (S k), rest. simpl. rewrite E. repeat split; [exact Hdef |].
    intros [| j] Hj; [reflexivity |]. apply Hnan. lia.
Qed.

Lemma bfill_leading_defined (k : nat) (rest : list cell) :
  all_defined rest ->
  bfill (repeat None k ++ rest) = repeat (hd None rest) k ++ rest.
Proof.
  intro H. rewrite bfill_leading_nan, (bfill_defined H). reflexivity.
Qed.

Lemma fill_column (col : list cell) :
  length (bfill (ffill col)) = length col
  /\ (forall i x, nth i col None = Some x ->
                  nth i (bfill (ffill col)) None = Some x)
  /\ (all_defined (bfill (ffill col))
      \/ (bfill (ffill col) = repeat None (length col)
          /\ col = repeat None (length col))).
Proof.
  split; [| split].
  - rewrite bfill_length. apply ffill_from_length.
  - intros i x H. apply bfill_nth_defined, ffill_from_nth_defined. exact H.
  - destruct (ffill_leading col) as (k & rest & E & Hdef & Hnan).
    rewrite E, (bfill_leading_defined k Hdef).
    destruct rest as [| a rest].
    + right.
      assert (Hk : k = length col).
      { rewrite <- (ffill_from_length col None). fold (ffill col). rewrite E.
        rewrite length_app, repeat_length. simpl. lia. }
      rewrite app_nil_r. simpl. subst k. split; [reflexivity |].
      apply nth_ext with (d := None) (d' := None).
      * rewrite repeat_length. reflexivity.
      * intros n Hn. rewrite nth_repeat. apply Hnan. exact Hn.
    + left. unfold all_defined in *. apply Forall_app. split; [| exact Hdef].
      simpl. apply Forall_forall. intros b Hb. apply repeat_spec in Hb. subst b.
      exact (Forall_inv Hdef).
Qed.

Lemma fill_column_previous (col : list cell) (i : nat) :
  nth (S i) col None = None -> (S i < length col)%nat ->
  nth (S i) (bfill (ffill col)) None = nth i (bfill (ffill col)) None.
Proof.
  intros H Hlen.
  pose proof (@ffill_from_nth_previous col None i H Hlen) as Hf.
  fold (ffill col) in Hf.
  destruct (nth i (ffill col) None) as [x |] eqn:E.
  - rewrite (@bfill_nth_defined _ _ _ E), (@bfill_nth_defined _ _ _ Hf). reflexivity.
  - symmetry. apply bfill_nth_next. exact E.
Qed.

Lemma column_ffill_table (t : table) (c : string) :
  column (ffill_table t) c = ffill (column t c).
Proof.
  unfold column, ffill_table. simpl.
  induction (cols t) as [| [c' col] d IH]; simpl.
  - reflexivity.
  - destruct (String.eqb c c'); [reflexivity | exact IH].
Qed.

Lemma filter_isna_nil (col : list cell) :
  length (filter isna col) = 0%nat -> all_defined col.
Proof.
  unfold all_defined. induction col as [| [x |] col IH]; simpl; intro H.
  - constructor.
  - constructor; [reflexivity | apply IH; exact H].
  - discriminate.
Qed.

Lemma no_missing_values (t : table) (c : string) :
  list_sum (map snd (missing_values t)) = 0%nat -> all_defined (column t c).
Proof.
  unfold missing_values, column.
  induction (cols t) as [| [c' col] d IH]; simpl; intro H.
  - constructor.
  - destruct (String.eqb c c').
    + apply filter_isna_nil. lia.
    + apply IH. lia.
Qed.

(** X18: the filling of the cleaning step keeps the trip identifiers, the
    length of every column and every value that was present; a missing
    reading below the first row takes the filled value of the row above
    it, whichever trip that row belongs to; afterwards a column holds no
    NaN unless it held nothing but NaN. *)
Theorem fill_missing_complete (t : table) (c : string) :
  let cleaned := fill_missing t in
  trip_id cleaned = trip_id t
  /\ column cleaned c = bfill (ffill (column t c))
  /\ length (column cleaned c) = length (column t c)
  /\ (forall i x, nth i (column t c) None = Some x ->
                  nth i (column cleaned c) None = Some x)
  /\ (forall i, (S i < length (column t c))%nat ->
                nth (S i) (column t c) None = None ->
                nth (S i) (column cleaned c) None
                = nth i (column cleaned c) None)
  /\ (all_defined (column cleaned c)
      \/ (column t c = repeat None (length (column t c))
          /\ column cleaned c = column t c)).
Proof.
  intro cleaned.
  assert (Hcol : column cleaned c = bfill (ffill (column t c))).
  { unfold cleaned, fill_missing.
    destruct (Nat.ltb_spec 0 (list_sum (map snd (missing_values t)))) as [_ | H].
    - rewrite column_bfill_table, column_ffill_table. reflexivity.
    - assert (Hdef : all_defined (column t c))
        by (apply no_missing_values; lia).
      unfold ffill. rewrite (@ffill_from_defined _ None Hdef).
      rewrite (bfill_defined Hdef). reflexivity. }
  destruct (fill_column (column t c)) as (Hlen & Hkeep & Hfull).
  split.
  { unfold cleaned, fill_missing. destruct (_ <? _)%nat; reflexivity. }
  split; [exact Hcol |]. rewrite Hcol.
  split; [exact Hlen |]. split; [exact Hkeep |]. split.
  - intros i Hi Hna. apply fill_column_previous; assumption.
  - destruct Hfull as [Hdef | [Hb Hc]]; [left; exact Hdef |].
    right. split; [exact Hc |]. rewrite Hb. symmetry. exact Hc.
Qed.

Lemma fill_missing_complete_witness :
  nth 2 (column (fill_missing gappy_table) "speed_kmh") None
  = nth 1 (column (fill_missing gappy_table) "speed_kmh") None.
Proof.
  refine (proj1 (proj2 (proj2 (proj2 (proj2
            (@fill_missing_complete gappy_table "speed_kmh"))))) 1%nat _ _).
  - simpl. lia.
  - reflexivity.
Defined.

(** ** The feature builders, trip by trip *)

Lemma rate_of_change_trip_key_error (h : heap) (df_engineering : ref)
  (trip throttle_col : string) :
  let t0 := select_trip trip (deref h df_engineering) in
  empty t0 = false ->
  in_columns (time_col_of t0) t0 = true ->
  in_columns "speed_kmh" t0 = false ->
  throttle_col_of t0 = Some throttle_col ->
  has_key "time_diff" (cols t0) = false ->
  fst (rate_of_change_trip df_engineering trip h) = KeyError "time_diff".
Proof.
  intros t0 Hne Htime Hspeed Hthr Htd.
  set (s := sort_values (time_col_of t0) t0).
  assert (Hkeys : map fst (cols s) = map fst (cols t0))
    by apply sort_values_keys.
  assert (Hlen : length (h ++ [t0]) = S (length h))
    by (rewrite length_app; simpl; lia).
  unfold rate_of_change_trip.
  unfold bind at 1. unfold read at 1. fold t0.
  unfold bind at 1. unfold new at 1.
  rewrite (@bind_run _ _ _ _ _ _ _ (run_read_last h t0)).
  rewrite Hne, Htime. cbn [negb].
  unfold bind at 1. unfold new at 1. fold s. rewrite Hlen.
  rewrite <- Hlen.
  rewrite (@bind_run _ _ _ _ _ _ _ (run_read_last (h ++ [t0]) s)).
  rewrite (@same_keys_in_columns s t0 "speed_kmh" Hkeys), Hspeed.
  unfold bind at 1. unfold ret at 1.
  rewrite (@bind_run _ _ _ _ _ _ _ (run_read_last (h ++ [t0]) s)).
  rewrite (@same_keys_throttle_col s t0 Hkeys), Hthr.
  assert (Hc : lookup throttle_col (cols s) = Some (column s throttle_col)).
  { apply has_key_column. rewrite (@same_keys_has_key s t0 throttle_col Hkeys).
    apply throttle_col_has_key. exact Hthr. }
  rewrite (@bind_run _ _ _ _ _ _ _ (run_getcol_last (h ++ [t0]) s _ Hc)).
  rewrite (@bind_run _ _ _ _ _ _ _
             (run_setcol_last (h ++ [t0]) s "throttle_change"
                (diff (column s throttle_col)))).
  set (s1 := with_column "throttle_change" (diff (column s throttle_col)) s).
  rewrite (@bind_run _ _ _ _ _ _ _
             (run_getcol_last (h ++ [t0]) s1 "throttle_change"
                (lookup_with_column_same _ _ _))).
  assert (Hnone : lookup "time_diff" (cols s1) = None).
  { unfold s1. rewrite lookup_with_column_other by discriminate.
    apply has_key_lookup_none.
    rewrite (@same_keys_has_key s t0 "time_diff" Hkeys). exact Htd. }
  unfold bind at 1. unfold getcol.
  rewrite (@bind_run _ _ _ _ _ _ _ (run_read_last (h ++ [t0]) s1)), Hnone.
  reflexivity.
Qed.

Lemma unique_head (l : list string) :
  l <> [] -> exists rest, unique l = hd ""%string l :: rest.
Proof.
  destruct l as [| x l]; [congruence |]. intros _. simpl. eexists. reflexivity.
Qed.

(** X21: on a table that has rows, a time column and a throttle channel
    but no speed_kmh and no time_diff column, the rate-of-change builder
    raises KeyError 'time_diff': the throttle part reads the column that
    only the speed part writes. *)
Theorem rate_builder_throttle_without_speed (df : ref) (h : heap)
  (throttle_col : string) :
  let t := deref h df in
  empty t = false ->
  in_columns (time_col_of t) t = true ->
  in_columns "speed_kmh" t = false ->
  throttle_col_of t = Some throttle_col ->
  has_key "time_diff" (cols t) = false ->
  fst (create_rate_of_change_features df h) = KeyError "time_diff".
Proof.
  intros t Hne Htime Hspeed Hthr Htd.
  unfold create_rate_of_change_features, copy.
  unfold bind at 1. unfold bind at 1. unfold read at 1. fold t.
  unfold new at 1.
  rewrite (@bind_run _ _ _ _ _ _ _ (run_read_last h t)).
  assert (Hids : trip_id t <> [])
    by (unfold empty in Hne; destruct (trip_id t); [discriminate | congruence]).
  destruct (unique_head Hids) as [rest Hu]. rewrite Hu.
  set (trip := hd ""%string (trip_id t)) in *.
  assert (Hin : In trip (trip_id t))
    by (unfold trip; destruct (trip_id t); [congruence | left; reflexivity]).
  assert (Hkeys : map fst (cols (select_trip trip t)) = map fst (cols t))
    by apply select_keys.
  assert (Hbody : fst (rate_of_change_trip (length h) trip (h ++ [t]))
                  = KeyError "time_diff").
  { apply rate_of_change_trip_key_error with throttle_col;
      rewrite deref_new.
    - destruct (empty (select_trip trip t)) eqn:E; [| reflexivity].
      exfalso. exact (proj1 (empty_select_trip trip t) E Hin).
    - rewrite (@same_keys_time_col _ t Hkeys).
      rewrite (@same_keys_in_columns _ t _ Hkeys). exact Htime.
    - rewrite (@same_keys_in_columns _ t _ Hkeys). exact Hspeed.
    - rewrite (@same_keys_throttle_col _ t Hkeys). exact Hthr.
    - rewrite (@same_keys_has_key _ t _ Hkeys). exact Htd. }
  unfold bind at 1. simpl for_each. unfold bind at 1.
  destruct (rate_of_change_trip (length h) trip (h ++ [t])) as [[o | e] h'];
    simpl in Hbody; [discriminate |].
  inversion Hbody. reflexivity.
Qed.

Lemma rate_builder_throttle_without_speed_witness :
  fst (create_rate_of_change_features 0%nat [throttle_only_table])
  = KeyError "time_diff".
Proof.
  apply (@rate_builder_throttle_without_speed 0%nat [throttle_only_table]
           "throttle_pedal_%"%string); reflexivity.
Defined.

Lemma for_each_read (rs : list ref) (h : heap) :
  for_each read rs h = (Ok (map (deref h) rs), h).
Proof.
  induction rs as [| r rs IH]; simpl.
  - reflexivity.
  - unfold bind at 1. unfold read at 1. unfold bind at 1. rewrite IH.
    reflexivity.
Qed.

Lemma run_concat_refs (rs : list ref) (h : heap) :
  concat_refs rs h = (Ok (length h), h ++ [concat (map (deref h) rs)]).
Proof.
  unfold concat_refs. rewrite (@bind_run _ _ _ _ _ _ _ (for_each_read rs h)).
  reflexivity.
Qed.

Lemma appended_map_Some (A : Type) (l : list A) : appended (map Some l) = l.
Proof. induction l as [| a l IH]; simpl; [| rewrite IH]; reflexivity. Qed.

Lemma deref_middle (h1 h2 : heap) (t : table) :
  deref (h1 ++ [t] ++ h2) (length h1) = t.
Proof.
  unfold deref. rewrite app_nth2 by lia. rewrite Nat.sub_diag. reflexivity.
Qed.

Lemma deref_app_left (h1 h2 : heap) (r : ref) :
  (r < length h1)%nat -> deref (h1 ++ h2) r = deref h1 r.
Proof. intro H. unfold deref. apply app_nth1. exact H. Qed.

Section PerTrip.

Variable body : string -> M (option ref).
Variable out : string -> table.
Variable h0 : heap.
Variable trip_ok : string -> Prop.

(** Every iteration appends tables to the store, the last of them the
    frame of the trip, and returns the reference of that frame. *)
Hypothesis body_run :
  forall trip sfx, trip_ok trip ->
    exists mid,
      body trip (h0 ++ sfx)
      = (Ok (Some (length (h0 ++ sfx ++ mid))), h0 ++ sfx ++ mid ++ [out trip]).

Lemma for_each_per_trip (trips : list string) :
  forall sfx, Forall trip_ok trips ->
    exists refs more,
      for_each body trips (h0 ++ sfx) = (Ok (map Some refs), h0 ++ sfx ++ more)
      /\ map (deref (h0 ++ sfx ++ more)) refs = map out trips
      /\ Forall (fun r => (r < length (h0 ++ sfx ++ more))%nat) refs.
Proof.
  induction trips as [| trip trips IH]; intros sfx Hok.
  - exists [], []. simpl. rewrite app_nil_r. repeat split. constructor.
  - destruct (body_run sfx (Forall_inv Hok)) as [mid Hrun].
    destruct (IH (sfx ++ mid ++ [out trip]) (Forall_inv_tail Hok))
      as (refs & more & Hfor & Hderef & Hlt).
    assert (Hshape : h0 ++ (sfx ++ mid ++ [out trip]) ++ more
                     = h0 ++ sfx ++ (mid ++ [out trip]) ++ more)
      by (rewrite <- !app_assoc; reflexivity).
    assert (Hshape2 : h0 ++ sfx ++ (mid ++ [out trip]) ++ more
                      = (h0 ++ sfx ++ mid) ++ [out trip] ++ more)
      by (rewrite <- !app_assoc; reflexivity).
    exists (length (h0 ++ sfx ++ mid) :: refs), ((mid ++ [out trip]) ++ more).
    split; [| split].
    + simpl for_each. rewrite (@bind_run _ _ _ _ _ _ _ Hrun).
      rewrite (@bind_run _ _ _ _ _ _ _ Hfor). unfold ret.
      rewrite Hshape. reflexivity.
    + cbn [map]. f_equal.
      * rewrite Hshape2. apply deref_middle.
      * rewrite <- Hshape. exact Hderef.
    + constructor.
      * rewrite Hshape2, !length_app. cbn [length]. lia.
      * rewrite <- Hshape. exact Hlt.
Qed.

Lemma concat_per_trip (trips : list string) :
  trips <> [] -> Forall trip_ok trips ->
  exists processed h',
    for_each body trips h0 = (Ok processed, h')
    /\ appended processed <> []
    /\ concat_refs (appended processed) h'
       = (Ok (length h'), h' ++ [concat (map out trips)])
    /\ (length h0 <= length h')%nat.
Proof.
  intros Hne Hok.
  destruct (@for_each_per_trip trips [] Hok) as (refs & more & Hfor & Hderef & _).
  rewrite !app_nil_l in *. rewrite app_nil_r in Hfor.
  exists (map Some refs), (h0 ++ more).
  split; [exact Hfor |]. rewrite appended_map_Some. split; [| split].
  - intro E. subst refs. destruct trips; [congruence | discriminate].
  - rewrite run_concat_refs, Hderef. reflexivity.
  - rewrite length_app. lia.
Qed.

End PerTrip.

Lemma deref_copy_suffix (h : heap) (t : table) (sfx : heap) :
  deref ((h ++ [t]) ++ sfx) (length h) = t.
Proof. rewrite <- app_assoc. apply deref_middle. Qed.

Lemma rate_of_change_trip_appends (h : heap) (t : table) (trip : string) :
  in_columns (time_col_of t) t = true ->
  in_columns "speed_kmh" t = true ->
  In trip (trip_id t) ->
  forall sfx, exists mid,
    rate_of_change_trip (length h) trip ((h ++ [t]) ++ sfx)
    = (Ok (Some (length ((h ++ [t]) ++ sfx ++ mid))),
       (h ++ [t]) ++ sfx ++ mid ++ [rate_trip_out t trip]).
Proof.
  intros Htime Hspeed Hin sfx.
  set (hh := (h ++ [t]) ++ sfx).
  assert (Hd : deref hh (length h) = t) by apply deref_copy_suffix.
  assert (Hkeys : map fst (cols (select_trip trip t)) = map fst (cols t))
    by apply select_keys.
  pose proof (@rate_of_change_trip_run hh (length h) trip) as Hrun.
  cbv zeta in Hrun. rewrite Hd in Hrun.
  exists [select_trip trip t].
  rewrite Hrun.
  - unfold rate_trip_out, hh. cbv zeta. f_equal.
    + do 2 f_equal. rewrite !length_app. simpl. lia.
    + rewrite <- !app_assoc. reflexivity.
  - destruct (empty (select_trip trip t)) eqn:E; [| reflexivity].
    exfalso. exact (proj1 (empty_select_trip trip t) E Hin).
  - rewrite (@same_keys_time_col _ t Hkeys).
    rewrite (@same_keys_in_columns _ t _ Hkeys). exact Htime.
  - rewrite (@same_keys_in_columns _ t _ Hkeys). exact Hspeed.
Qed.

Lemma unique_nonempty (l : list string) : l <> [] -> unique l <> [].
Proof. destruct l; [congruence | discriminate]. Qed.

Lemma unique_all_In (l : list string) :
  Forall (fun x => In x l) (unique l).
Proof. apply Forall_forall. intros x Hx. apply unique_In. exact Hx. Qed.

Lemma create_rate_of_change_features_run (df : ref) (h : heap) :
  let t := deref h df in
  empty t = false ->
  in_columns (time_col_of t) t = true ->
  in_columns "speed_kmh" t = true ->
  exists r h',
    create_rate_of_change_features df h = (Ok r, h')
    /\ deref h' r = concat (map (rate_trip_out t) (unique (trip_id t))).
Proof.
  intros t Hne Htime Hspeed.
  assert (Hids : trip_id t <> [])
    by (unfold empty in Hne; destruct (trip_id t); [discriminate | congruence]).
  destruct (@concat_per_trip (rate_of_change_trip (length h)) (rate_trip_out t)
              (h ++ [t]) (fun trip => In trip (trip_id t))
              (fun trip sfx Hin =>
                 @rate_of_change_trip_appends h t trip Htime Hspeed Hin sfx)
              (unique (trip_id t)) (unique_nonempty Hids)
              (unique_all_In (trip_id t)))
    as (processed & h' & Hfor & Happ & Hconcat & _).
  unfold create_rate_of_change_features, copy.
  unfold bind at 1. unfold bind at 1. unfold read at 1. fold t.
  unfold new at 1.
  rewrite (@bind_run _ _ _ _ _ _ _ (run_read_last h t)).
  rewrite (@bind_run _ _ _ _ _ _ _ Hfor).
  destruct (appended processed) as [| r rs] eqn:E; [congruence |].
  rewrite Hconcat. do 2 eexists. split; [reflexivity |]. apply deref_new.
Qed.

Lemma lookup_map_keys (A : Type) (F : string -> A) (keys : list string)
  (c : string) :
  In c keys -> lookup c (map (fun k => (k, F k)) keys) = Some (F c).
Proof.
  induction keys as [| k keys IH]; simpl; intro H; [contradiction |].
  destruct (String.eqb_spec c k) as [-> | Hne]; [reflexivity |].
  apply IH. destruct H as [E | H]; [congruence | exact H].
Qed.

(** A column that every frame has is, in the concatenation, the columns
    of the frames one after the other. *)
Lemma column_concat (ts : list table) (c : string) :
  ts <> [] ->
  (forall t, In t ts -> has_key c (cols t) = true) ->
  column (concat ts) c = flat_map (fun t => column t c) ts.
Proof.
  intros Hne Hall. unfold column at 1. unfold concat. simpl.
  rewrite lookup_map_keys.
  - clear Hne. induction ts as [| t ts IH]; [reflexivity |].
    simpl. rewrite IH by (intros t' Ht'; apply Hall; right; exact Ht').
    f_equal. unfold column.
    destruct (lookup_has_key _ _ (Hall t (or_introl eq_refl))) as [col ->].
    reflexivity.
  - apply unique_In. destruct ts as [| t ts]; [congruence |].
    simpl. apply in_or_app. left.
    apply has_key_In_keys. apply Hall. left. reflexivity.
Qed.

Lemma has_key_with_column (c c' : string) (col : list cell) (t : table) :
  has_key c (cols (with_column c' col t))
  = (String.eqb c c' || has_key c (cols t))%bool.
Proof.
  unfold has_key, with_column. simpl. rewrite assign_keys.
  fold (has_key c' (cols t)).
  destruct (has_key c' (cols t)) eqn:E.
  - destruct (String.eqb_spec c c') as [-> | _]; [| reflexivity].
    simpl. exact E.
  - rewrite existsb_app. simpl. rewrite orb_false_r. apply orb_comm.
Qed.

Lemma first_column_with_column (p : string -> bool) (c : string)
  (col : list cell) (t : table) :
  p c = false -> first_column p (with_column c col t) = first_column p t.
Proof.
  intro Hp. unfold first_column, column_names, with_column. simpl.
  rewrite assign_keys. destruct (has_key c (cols t)); [reflexivity |].
  rewrite <- app_assoc, !filter_app. simpl. rewrite Hp. reflexivity.
Qed.

Lemma throttle_col_of_with_column (c : string) (col : list cell) (t : table) :
  contains "throttle" (lower c) = false -> c <> "throttle_pedal_%"%string ->
  throttle_col_of (with_column c col t) = throttle_col_of t.
Proof.
  intros Hp Hne. unfold throttle_col_of.
  rewrite first_column_with_column by exact Hp.
  unfold in_columns. rewrite has_key_with_column.
  destruct (String.eqb_spec "throttle_pedal_%" c) as [E | _]; [congruence |].
  reflexivity.
Qed.

Lemma throttle_col_of_acceleration_block (time_col : string) (s : table) :
  throttle_col_of (acceleration_block time_col s) = throttle_col_of s.
Proof.
  unfold acceleration_block. cbv zeta.
  rewrite !throttle_col_of_with_column; (reflexivity || discriminate).
Qed.

Lemma throttle_col_not_new (t : table) (c : string) :
  throttle_col_of t = Some c ->
  c <> "speed_ms"%string /\ c <> "speed_diff"%string
  /\ c <> "time_diff"%string /\ c <> "acceleration_ms2"%string.
Proof.
  unfold throttle_col_of. destruct (in_columns "throttle_pedal_%" t).
  - intro H. inversion H. repeat split; discriminate.
  - unfold first_column. intro H.
    assert (Hin : In c (filter (fun col => contains "throttle" (lower col))
                          (column_names t))).
    { destruct (filter _ (column_names t)) as [| x l]; [discriminate |].
      inversion H; subst. left. reflexivity. }
    apply filter_In in Hin. destruct Hin as [_ Hp].
    repeat split; intros ->; discriminate.
Qed.

Lemma flat_map_map_in (A B C : Type) (g : A -> B) (f : B -> list C)
  (f' : A -> list C) (l : list A) :
  (forall a, In a l -> f (g a) = f' a) ->
  flat_map f (map g l) = flat_map f' l.
Proof.
  induction l as [| a l IH]; intro H; simpl; [reflexivity |].
  rewrite (H a (or_introl eq_refl)), IH; [reflexivity |].
  intros b Hb. apply H. right. exact Hb.
Qed.

(** *** The order in which sorting by time leaves the rows *)

Lemma insert_by_perm (key : nat -> cell) (i : nat) (l : list nat) :
  Permutation (insert_by key i l) (i :: l).
Proof.
  induction l as [| j l IH]; simpl.
  - apply Permutation_refl.
  - destruct (cell_le (key i) (key j)).
    + apply Permutation_refl.
    + apply perm_trans with (j :: i :: l).
      * apply perm_skip. exact IH.
      * apply perm_swap.
Qed.

Lemma argsort_perm (col : list cell) :
  Permutation (argsort col) (seq 0 (length col)).
Proof.
  unfold argsort. induction (seq 0 (length col)) as [| i l IH]; simpl.
  - constructor.
  - apply perm_trans with (i :: fold_right (insert_by (fun i => nth i col None)) [] l).
    + apply insert_by_perm.
    + apply perm_skip. exact IH.
Qed.

Lemma insert_by_row_before (col : list cell) (i : nat) (l : list nat) :
  Forall (fun j => (i < j)%nat) l ->
  LocallySorted (row_before col) l ->
  LocallySorted (row_before col) (insert_by (fun k => nth k col None) i l).
Proof.
  induction l as [| j l IH]; intros Hgt Hs; cbn [insert_by].
  - constructor.
  - pose proof (Forall_inv Hgt) as Hij. pose proof (Forall_inv_tail Hgt) as Hgt'.
    destruct (cell_le (nth i col None) (nth j col None)) eqn:E.
    + constructor; [exact Hs |].
      unfold row_before. unfold cell_le in E.
      destruct (nth i col None) as [x |], (nth j col None) as [y |];
        try discriminate; try exact I; try exact Hij.
      destruct (Rle_dec x y); [assumption | discriminate].
    + assert (Hji : row_before col j i).
      { unfold row_before. unfold cell_le in E.
        destruct (nth i col None) as [x |], (nth j col None) as [y |];
          try discriminate; try exact I.
        destruct (Rle_dec x y); [discriminate | lra]. }
      assert (Hl : LocallySorted (row_before col) l)
        by (inversion Hs; subst; [constructor | assumption]).
      specialize (IH Hgt' Hl).
      destruct l as [| k l].
      * cbn [insert_by] in *. constructor; [constructor | exact Hji].
      * cbn [insert_by] in *.
        destruct (cell_le (nth i col None) (nth k col None)).
        -- constructor; [exact IH | exact Hji].
        -- constructor; [exact IH |]. inversion Hs; subst. assumption.
Qed.

Lemma fold_insert_by_row_before (col : list cell) (n : nat) :
  forall a,
    LocallySorted (row_before col)
      (fold_right (insert_by (fun k => nth k col None)) [] (seq a n))
    /\ Forall (fun j => (a <= j)%nat)
         (fold_right (insert_by (fun k => nth k col None)) [] (seq a n)).
Proof.
  induction n as [| n IH]; intro a; cbn [seq fold_right].
  - split; constructor.
  - destruct (IH (S a)) as [Hs Hge]. split.
    + apply insert_by_row_before; [| exact Hs].
      eapply Forall_impl; [| exact Hge]. intros j Hj. cbv beta in *. lia.
    + apply Forall_forall. intros j Hj.
      apply (Permutation_in _ (@insert_by_perm _ _ _)) in Hj.
      destruct Hj as [<- | Hj]; [lia |].
      pose proof (proj1 (Forall_forall _ _) Hge j Hj) as H. cbv beta in H. lia.
Qed.

(** The order of [argsort] is one of those the sort may give. *)
Lemma sort_order_argsort (col : list cell) : sort_order col (argsort col).
Proof.
  split; [apply argsort_perm |].
  apply (fold_insert_by_row_before col (length col) 0).
Qed.

Lemma row_before_strict (col : list cell) (i j : nat) :
  distinct_numbers col -> i <> j ->
  row_before col i j -> row_before col j i -> False.
Proof.
  unfold row_before. intros Hd Hne Hij Hji.
  destruct (nth i col None) as [x |] eqn:Ei, (nth j col None) as [y |] eqn:Ej;
    try contradiction; try lia.
  assert (x = y) by lra. subst y. exact (Hne (Hd i j x Ei Ej)).
Qed.

Lemma row_before_trans (col : list cell) (i j k : nat) :
  row_before col i j -> row_before col j k -> row_before col i k.
Proof.
  unfold row_before.
  destruct (nth i col None), (nth j col None), (nth k col None);
    try tauto; try lra; lia.
Qed.

Lemma row_before_head (col : list cell) (a : nat) (l : list nat) :
  LocallySorted (row_before col) (a :: l) ->
  forall b, In b l -> row_before col a b.
Proof.
  revert a. induction l as [| c l IH]; intros a Hs b Hb; [contradiction |].
  inversion Hs; subst.
  destruct Hb as [<- | Hb]; [assumption |].
  apply row_before_trans with c; [assumption |]. apply IH; assumption.
Qed.

Lemma sorted_rows_unique (col : list cell) (l1 : list nat) :
  distinct_numbers col ->
  forall l2, LocallySorted (row_before col) l1 ->
             LocallySorted (row_before col) l2 ->
             Permutation l1 l2 -> l1 = l2.
Proof.
  intro Hd. induction l1 as [| a l1 IH]; intros l2 H1 H2 Hp.
  - apply Permutation_nil in Hp. congruence.
  - destruct l2 as [| b l2].
    + apply Permutation_sym, Permutation_nil in Hp. discriminate.
    + assert (Hab : a = b).
      { assert (Ha : In a (b :: l2))
          by (apply Permutation_in with (a :: l1);
              [exact Hp | left; reflexivity]).
        assert (Hb : In b (a :: l1))
          by (apply Permutation_in with (b :: l2);
              [apply Permutation_sym; exact Hp | left; reflexivity]).
        destruct Ha as [E | Ha]; [congruence |].
        destruct Hb as [E | Hb]; [congruence |].
        destruct (Nat.eq_dec a b) as [E | Hne]; [exact E |].
        exfalso. apply (@row_before_strict col a b Hd Hne).
        - exact (@row_before_head col a l1 H1 b Hb).
        - exact (@row_before_head col b l2 H2 a Ha). }
      subst b. f_equal. apply IH.
      * inversion H1; subst; [constructor | assumption].
      * inversion H2; subst; [constructor | assumption].
      * apply Permutation_cons_inv with a. exact Hp.
Qed.

(** Where no number stands in two rows the sort can give one order only,
    that of [argsort], whatever the algorithm. *)
Lemma sort_order_unique (col : list cell) (order : list nat) :
  distinct_numbers col -> sort_order col order -> order = argsort col.
Proof.
  intros Hd [Hp Hs]. destruct (sort_order_argsort col) as [Hp' Hs'].
  apply (@sorted_rows_unique col order Hd (argsort col) Hs Hs').
  apply perm_trans with (seq 0 (length col));
    [exact Hp | apply Permutation_sym; exact Hp'].
Qed.

Lemma sorted_by_unique (c : string) (t s : table) :
  distinct_numbers (column t c) -> sorted_by c t s -> s = sort_values c t.
Proof.
  intros Hd (order & Ho & ->).
  rewrite (@sort_order_unique (column t c) order Hd Ho). reflexivity.
Qed.

Lemma sorted_by_sort_values (c : string) (t : table) :
  sorted_by c t (sort_values c t).
Proof.
  exists (argsort (column t c)). split; [apply sort_order_argsort | reflexivity].
Qed.

Lemma trip_frame_cases (t : table) (trip : string) :
  trip_frame t trip
  = if in_columns (time_col_of t) t then sorted_trip t trip
    else select_trip trip t.
Proof.
  assert (Hkeys : map fst (cols (select_trip trip t)) = map fst (cols t))
    by apply select_keys.
  unfold trip_frame, sorted_trip. cbv zeta.
  rewrite (@same_keys_time_col _ t Hkeys).
  rewrite (@same_keys_in_columns _ t _ Hkeys). reflexivity.
Qed.

Lemma time_ordered_trip_frame (t : table) (trip : string) :
  time_ordered_frame t trip (trip_frame t trip).
Proof.
  unfold time_ordered_frame. rewrite trip_frame_cases.
  destruct (in_columns (time_col_of t) t); [| reflexivity].
  apply sorted_by_sort_values.
Qed.

(** With distinct time stamps the frame of a trip is determined. *)
Lemma time_ordered_frame_unique (t : table) (trip : string) (s : table) :
  distinct_time_stamps t -> In trip (trip_id t) ->
  time_ordered_frame t trip s -> s = trip_frame t trip.
Proof.
  intros Hd Hin Hs. unfold time_ordered_frame in Hs.
  rewrite trip_frame_cases.
  destruct (in_columns (time_col_of t) t); [| exact Hs].
  apply sorted_by_unique; [| exact Hs]. apply Hd. exact Hin.
Qed.

Lemma flat_map_eq_in (A B : Type) (f g : A -> list B) (l : list A) :
  (forall a, In a l -> f a = g a) -> flat_map f l = flat_map g l.
Proof.
  induction l as [| a l IH]; intro H; simpl; [reflexivity |].
  rewrite (H a (or_introl eq_refl)), IH; [reflexivity |].
  intros b Hb. apply H. right. exact Hb.
Qed.

Lemma two_trip_table_distinct_time_stamps :
  distinct_time_stamps two_trip_table.
Proof.
  intros trip Hin.
  assert (Hcol : column (select_trip trip two_trip_table)
                   (time_col_of two_trip_table) = [Some 0; Some 1]).
  { destruct Hin as [<- | [<- | [<- | [<- | []]]]]; reflexivity. }
  rewrite Hcol.
  intros [| [| i]] [| [| j]] x Hi Hj; simpl in Hi, Hj;
    try reflexivity;
    try (destruct i; discriminate); try (destruct j; discriminate).
  - injection Hi as <-. injection Hj as Hj. lra.
  - injection Hi as <-. injection Hj as Hj. lra.
Qed.

Lemma rate_trip_out_columns (t : table) (trip : string) :
  let s := sorted_trip t trip in
  has_key "acceleration_ms2" (cols (rate_trip_out t trip)) = true
  /\ column (rate_trip_out t trip) "acceleration_ms2"
     = acceleration_ms2 (column s (time_col_of t)) (column s "speed_kmh")
  /\ trip_id (rate_trip_out t trip) = trip_id s
  /\ forall c, throttle_col_of t = Some c ->
       has_key "throttle_change_rate" (cols (rate_trip_out t trip)) = true
       /\ column (rate_trip_out t trip) "throttle_change_rate"
          = throttle_change_rate (diff (column s (time_col_of t)))
              (column s c).
Proof.
  intro s.
  assert (Hkeys : map fst (cols (select_trip trip t)) = map fst (cols t))
    by apply select_keys.
  assert (Htc : time_col_of (select_trip trip t) = time_col_of t)
    by (apply same_keys_time_col; exact Hkeys).
  assert (Hskeys : map fst (cols s) = map fst (cols t))
    by (unfold s, sorted_trip; rewrite sort_values_keys; exact Hkeys).
  pose proof (time_col_of_cases t) as Hcases.
  unfold rate_trip_out. cbv zeta. rewrite Htc. fold (sorted_trip t trip).
  fold s. set (a := acceleration_block (time_col_of t) s).
  assert (Hthr : throttle_col_of a = throttle_col_of t).
  { unfold a. rewrite throttle_col_of_acceleration_block.
    apply same_keys_throttle_col. exact Hskeys. }
  assert (Hacc : column a "acceleration_ms2"
                 = acceleration_ms2 (column s (time_col_of t))
                     (column s "speed_kmh"))
    by (apply acceleration_block_acceleration; exact Hcases).
  assert (Hka : has_key "acceleration_ms2" (cols a) = true)
    by (unfold a, acceleration_block; cbv zeta; apply has_key_assign).
  rewrite Hthr.
  destruct (throttle_col_of t) as [c |] eqn:Ec.
  - destruct (throttle_block_columns c a) as [Hacc' Hrate].
    split; [| split; [| split]].
    + unfold throttle_block. cbv zeta. rewrite !has_key_with_column.
      rewrite Hka. rewrite !orb_true_r. reflexivity.
    + rewrite Hacc'. exact Hacc.
    + reflexivity.
    + intros c' Hc'. inversion Hc'; subst c'. split.
      * unfold throttle_block. cbv zeta. apply has_key_assign.
      * rewrite Hrate. unfold a.
        rewrite (@acceleration_block_time_diff_column _ s Hcases).
        destruct (@throttle_col_not_new t c Ec) as (N1 & N2 & N3 & N4).
        unfold acceleration_block. cbv zeta.
        rewrite !(@column_with_column_other c) by assumption.
        reflexivity.
  - split; [exact Hka |]. split; [exact Hacc |]. split; [reflexivity |].
    intros c Hc. discriminate.
Qed.

(** The frame the rate-of-change builder returns, with the order in which
    [sort_values] is modelled to leave the rows of a trip. *)
Lemma create_rate_of_change_features_frames (df : ref) (h : heap) :
  let t := deref h df in
  let trips := unique (trip_id t) in
  empty t = false ->
  in_columns (time_col_of t) t = true ->
  in_columns "speed_kmh" t = true ->
  exists r h',
    create_rate_of_change_features df h = (Ok r, h')
    /\ trip_id (deref h' r)
       = flat_map (fun trip => trip_id (sorted_trip t trip)) trips
    /\ column (deref h' r) "acceleration_ms2"
       = flat_map (fun trip =>
                     acceleration_ms2
                       (column (sorted_trip t trip) (time_col_of t))
                       (column (sorted_trip t trip) "speed_kmh")) trips
    /\ forall c, throttle_col_of t = Some c ->
         column (deref h' r) "throttle_change_rate"
         = flat_map (fun trip =>
                       throttle_change_rate
                         (diff (column (sorted_trip t trip) (time_col_of t)))
                         (column (sorted_trip t trip) c)) trips.
Proof.
  intros t trips Hne Htime Hspeed.
  destruct (@create_rate_of_change_features_run df h Hne Htime Hspeed)
    as (r & h' & Hrun & Hres).
  fold t in Hres. fold trips in Hres.
  assert (Hids : trips <> []).
  { unfold trips. apply unique_nonempty. unfold empty in Hne.
    destruct (trip_id t); [discriminate | congruence]. }
  assert (Hmap : map (rate_trip_out t) trips <> [])
    by (destruct trips; [congruence | discriminate]).
  exists r, h'. split; [exact Hrun |]. rewrite Hres.
  split; [| split].
  - unfold concat. simpl. apply flat_map_map_in. intros trip _.
    apply (rate_trip_out_columns t trip).
  - rewrite column_concat.
    + apply flat_map_map_in. intros trip _.
      apply (rate_trip_out_columns t trip).
    + exact Hmap.
    + intros x Hx. apply in_map_iff in Hx. destruct Hx as (trip & <- & _).
      apply (rate_trip_out_columns t trip).
  - intros c Hc. rewrite column_concat.
    + apply flat_map_map_in. intros trip _.
      apply (proj2 (proj2 (proj2 (rate_trip_out_columns t trip))) c Hc).
    + exact Hmap.
    + intros x Hx. apply in_map_iff in Hx. destruct Hx as (trip & <- & _).
      apply (proj2 (proj2 (proj2 (rate_trip_out_columns t trip))) c Hc).
Qed.

Lemma string_length_append (s1 s2 : string) :
  String.length (s1 ++ s2) = (String.length s1 + String.length s2)%nat.
Proof. induction s1 as [| a s1 IH]; simpl; [| rewrite IH]; reflexivity. Qed.

Lemma append_inj_l (s1 : string) :
  forall s2 t, (s1 ++ t = s2 ++ t)%string -> s1 = s2.
Proof.
  induction s1 as [| a s1 IH]; intros [| b s2] t H.
  - reflexivity.
  - exfalso. apply (f_equal String.length) in H.
    simpl in H. rewrite string_length_append in H. lia.
  - exfalso. apply (f_equal String.length) in H.
    simpl in H. rewrite string_length_append in H. lia.
  - simpl in H. injection H as -> H. f_equal. exact (IH _ _ H).
Qed.

Lemma str_inj (a b : nat) : str a = str b -> a = b.
Proof.
  unfold str. intro H.
  apply (f_equal NilEmpty.uint_of_string) in H. rewrite !NilEmpty.usu in H.
  injection H as H. apply (f_equal Nat.of_uint) in H.
  rewrite !Unsigned.of_to in H. exact H.
Qed.

Lemma target_col_name_inj (a b : nat) :
  target_col_name a = target_col_name b -> a = b.
Proof.
  unfold target_col_name. intro H. simpl in H.
  repeat (injection H as H). apply append_inj_l in H. apply str_inj. exact H.
Qed.

Lemma target_col_name_not_load (k : nat) :
  "powertrain_load_W"%string <> target_col_name k.
Proof. unfold target_col_name. simpl. discriminate. Qed.

Lemma target_block_load (hs : list nat) (tv : table) :
  column (target_block hs tv) "powertrain_load_W"
  = column tv "powertrain_load_W"
  /\ has_key "powertrain_load_W" (cols (target_block hs tv))
     = has_key "powertrain_load_W" (cols tv)
  /\ trip_id (target_block hs tv) = trip_id tv.
Proof.
  unfold target_block. revert tv.
  induction hs as [| k hs IH]; intro tv; simpl; [repeat split |].
  destruct (IH (with_column (target_col_name k)
                  (future_load k (column tv "powertrain_load_W")) tv))
    as (Hc & Hk & Hid).
  rewrite Hc, Hk, Hid. split; [| split].
  - apply column_with_column_other. apply target_col_name_not_load.
  - rewrite has_key_with_column.
    destruct (String.eqb_spec "powertrain_load_W" (target_col_name k)) as [E | _].
    + exfalso. exact (target_col_name_not_load E).
    + reflexivity.
  - reflexivity.
Qed.

Lemma target_block_targets (hs : list nat) :
  forall tv k, In k hs ->
    has_key (target_col_name k) (cols (target_block hs tv)) = true
    /\ column (target_block hs tv) (target_col_name k)
       = future_load k (column tv "powertrain_load_W").
Proof.
  assert (Hkeep : forall hs tv c col,
            has_key c (cols tv) = true ->
            column tv c = col ->
            (forall j, In j hs -> target_col_name j = c ->
                       future_load j (column tv "powertrain_load_W") = col) ->
            has_key c (cols (target_block hs tv)) = true
            /\ column (target_block hs tv) c = col).
  { clear hs. induction hs as [| j hs IH]; intros tv c col Hk Hc Hsame.
    - split; assumption.
    - unfold target_block. simpl. fold (target_block hs).
      set (tv' := with_column (target_col_name j)
                    (future_load j (column tv "powertrain_load_W")) tv).
      assert (Hload : column tv' "powertrain_load_W"
                      = column tv "powertrain_load_W")
        by (apply column_with_column_other, target_col_name_not_load).
      apply IH.
      + unfold tv'. rewrite has_key_with_column, Hk. apply orb_true_r.
      + unfold tv'. destruct (String.eqb_spec c (target_col_name j)) as [-> | Hne].
        * rewrite column_with_column_same.
          apply Hsame; [left; reflexivity | reflexivity].
        * rewrite column_with_column_other by exact Hne. exact Hc.
      + intros i Hi Hname. rewrite Hload. apply Hsame; [right; exact Hi | exact Hname]. }
  induction hs as [| j hs IH]; intros tv k Hin; [destruct Hin |].
  unfold target_block. simpl. fold (target_block hs).
  set (tv' := with_column (target_col_name j)
                (future_load j (column tv "powertrain_load_W")) tv).
  assert (Hload : column tv' "powertrain_load_W" = column tv "powertrain_load_W")
    by (apply column_with_column_other, target_col_name_not_load).
  destruct (Nat.eq_dec k j) as [-> | Hne].
  - apply Hkeep.
    + unfold tv', with_column. simpl. apply has_key_assign.
    + apply column_with_column_same.
    + intros i _ Hname. apply target_col_name_inj in Hname. subst i.
      rewrite Hload. reflexivity.
  - destruct Hin as [E | Hin]; [congruence |].
    rewrite <- Hload. apply IH. exact Hin.
Qed.

Lemma run_target_loop (hs : list nat) :
  forall (hh : heap) (tv : table),
    has_key "powertrain_load_W" (cols tv) = true ->
    for_each
      (fun horizon =>
         load <- getcol (length hh) "powertrain_load_W" ;;
         setcol (length hh) (target_col_name horizon)
           (future_load horizon load))
      hs (hh ++ [tv])
    = (Ok (map (fun _ => tt) hs), hh ++ [target_block hs tv]).
Proof.
  induction hs as [| k hs IH]; intros hh tv Hk; [reflexivity |].
  simpl for_each.
  assert (Hbody :
    (load <- getcol (length hh) "powertrain_load_W" ;;
     setcol (length hh) (target_col_name k) (future_load k load)) (hh ++ [tv])
    = (Ok tt, hh ++ [with_column (target_col_name k)
                       (future_load k (column tv "powertrain_load_W")) tv])).
  { rewrite (@bind_run _ _ _ _ _ _ _
               (run_getcol_last hh tv _ (has_key_column _ _ Hk))).
    apply run_setcol_last. }
  rewrite (@bind_run _ _ _ _ _ _ _ Hbody).
  assert (Hk' : has_key "powertrain_load_W"
                  (cols (with_column (target_col_name k)
                           (future_load k (column tv "powertrain_load_W")) tv))
                = true)
    by (rewrite has_key_with_column, Hk; apply orb_true_r).
  rewrite (@bind_run _ _ _ _ _ _ _ (IH hh _ Hk')). reflexivity.
Qed.

Lemma trip_frame_keys (t : table) (trip : string) :
  map fst (cols (trip_frame t trip)) = map fst (cols t).
Proof.
  unfold trip_frame. cbv zeta. destruct (in_columns _ _).
  - rewrite sort_values_keys. apply select_keys.
  - apply select_keys.
Qed.

Lemma target_trip_appends (hs : list nat) (h : heap) (t : table)
  (trip : string) :
  has_key "powertrain_load_W" (cols t) = true ->
  In trip (trip_id t) ->
  forall sfx, exists mid,
    target_trip hs (length h) trip ((h ++ [t]) ++ sfx)
    = (Ok (Some (length ((h ++ [t]) ++ sfx ++ mid))),
       (h ++ [t]) ++ sfx ++ mid ++ [target_block hs (trip_frame t trip)]).
Proof.
  intros Hload Hin sfx.
  set (hh := (h ++ [t]) ++ sfx).
  assert (Hd : deref hh (length h) = t) by apply deref_copy_suffix.
  assert (Hk : has_key "powertrain_load_W" (cols (trip_frame t trip)) = true).
  { rewrite (@same_keys_has_key _ t _ (trip_frame_keys t trip)). exact Hload. }
  assert (Hne : empty (select_trip trip t) = false).
  { destruct (empty (select_trip trip t)) eqn:E; [| reflexivity].
    exfalso. exact (proj1 (empty_select_trip trip t) E Hin). }
  unfold target_trip.
  unfold bind at 1. unfold read at 1. rewrite Hd.
  unfold bind at 1. unfold new at 1.
  rewrite (@bind_run _ _ _ _ _ _ _ (run_read_last hh (select_trip trip t))).
  rewrite Hne. cbv zeta.
  unfold trip_frame in *. cbv zeta in *.
  destruct (in_columns (time_col_of (select_trip trip t)) (select_trip trip t)).
  - exists [select_trip trip t].
    unfold bind at 1. unfold new at 1.
    rewrite (@bind_run _ _ _ _ _ _ _
               (@run_target_loop hs (hh ++ [select_trip trip t]) _ Hk)).
    unfold ret, hh. f_equal.
    + do 2 f_equal. rewrite <- !app_assoc. reflexivity.
    + rewrite <- !app_assoc. reflexivity.
  - exists []. unfold bind at 1. unfold ret at 1.
    rewrite (@bind_run _ _ _ _ _ _ _ (@run_target_loop hs hh _ Hk)).
    unfold ret, hh. f_equal.
    + do 2 f_equal. rewrite app_nil_r. reflexivity.
    + rewrite <- !app_assoc. reflexivity.
Qed.

Lemma create_target_variables_run_general (df : ref) (hs : list nat)
  (h : heap) :
  let t := deref h df in
  empty t = false ->
  in_columns "powertrain_load_W" t = true ->
  exists r h',
    create_target_variables df hs h = (Ok r, h')
    /\ deref h' r
       = dropna (map target_col_name hs)
           (concat (map (fun trip => target_block hs (trip_frame t trip))
                      (unique (trip_id t)))).
Proof.
  intros t Hne Hload.
  assert (Hk : has_key "powertrain_load_W" (cols t) = true)
    by (apply in_columns_has_key; [reflexivity | exact Hload]).
  assert (Hids : trip_id t <> [])
    by (unfold empty in Hne; destruct (trip_id t); [discriminate | congruence]).
  destruct (@concat_per_trip (target_trip hs (length h))
              (fun trip => target_block hs (trip_frame t trip))
              (h ++ [t]) (fun trip => In trip (trip_id t))
              (fun trip sfx Hin => @target_trip_appends hs h t trip Hk Hin sfx)
              (unique (trip_id t)) (unique_nonempty Hids)
              (unique_all_In (trip_id t)))
    as (processed & h' & Hfor & Happ & Hconcat & _).
  unfold create_target_variables.
  unfold bind at 1. unfold read at 1. fold t.
  rewrite Hne, Hload. cbn [negb orb]. unfold copy.
  unfold bind at 1. unfold bind at 1. unfold read at 1. fold t.
  unfold new at 1.
  rewrite (@bind_run _ _ _ _ _ _ _ (run_read_last h t)).
  destruct (unique (trip_id t)) as [| trip trips] eqn:Eu.
  { exfalso. exact (unique_nonempty Hids Eu). }
  rewrite (@bind_run _ _ _ _ _ _ _ Hfor).
  destruct (appended processed) as [| r rs] eqn:E; [congruence |].
  rewrite (@bind_run _ _ _ _ _ _ _ Hconcat).
  rewrite (@bind_run _ _ _ _ _ _ _ (run_read_last h' _)).
  unfold new. do 2 eexists. split; [reflexivity |]. apply deref_new.
Qed.

(** The same for the target builder ... *)
Lemma create_target_variables_frames (df : ref) (hs : list nat)
  (h : heap) :
  let t := deref h df in
  let trips := unique (trip_id t) in
  empty t = false ->
  in_columns "powertrain_load_W" t = true ->
  exists r h' full,
    create_target_variables df hs h = (Ok r, h')
    /\ deref h' r = dropna (map target_col_name hs) full
    /\ trip_id full = flat_map (fun trip => trip_id (trip_frame t trip)) trips
    /\ column full "powertrain_load_W"
       = flat_map (fun trip => column (trip_frame t trip) "powertrain_load_W")
           trips
    /\ (forall k, In k hs ->
          column full (target_col_name k)
          = flat_map (fun trip =>
                        future_load k
                          (column (trip_frame t trip) "powertrain_load_W"))
              trips)
    /\ (forall k, In k hs ->
          all_defined (column (deref h' r) (target_col_name k))).
Proof.
  intros t trips Hne Hload.
  destruct (@create_target_variables_run_general df hs h Hne Hload)
    as (r & h' & Hrun & Hres).
  fold t in Hres. fold trips in Hres.
  assert (Hk : has_key "powertrain_load_W" (cols t) = true)
    by (apply in_columns_has_key; [reflexivity | exact Hload]).
  assert (Hids : trips <> []).
  { unfold trips. apply unique_nonempty. unfold empty in Hne.
    destruct (trip_id t); [discriminate | congruence]. }
  set (outs := map (fun trip => target_block hs (trip_frame t trip)) trips)
    in *.
  assert (Hmap : outs <> [])
    by (unfold outs; destruct trips; [congruence | discriminate]).
  exists r, h', (concat outs). split; [exact Hrun |]. split; [exact Hres |].
  split; [| split; [| split]].
  - unfold concat, outs. simpl. apply flat_map_map_in. intros trip _.
    apply target_block_load.
  - rewrite column_concat.
    + unfold outs. apply flat_map_map_in. intros trip _.
      apply target_block_load.
    + exact Hmap.
    + intros x Hx. apply in_map_iff in Hx. destruct Hx as (trip & <- & _).
      rewrite (proj1 (proj2 (target_block_load hs (trip_frame t trip)))).
      rewrite (@same_keys_has_key _ t _ (trip_frame_keys t trip)). exact Hk.
  - intros k Hin. rewrite column_concat.
    + unfold outs. apply flat_map_map_in. intros trip _.
      apply target_block_targets. exact Hin.
    + exact Hmap.
    + intros x Hx. apply in_map_iff in Hx. destruct Hx as (trip & <- & _).
      apply target_block_targets. exact Hin.
  - intros k Hin. rewrite Hres. apply dropna_defined.
    apply in_map. exact Hin.
Qed.

(** X22: on a table that has rows, a time column and the speed_kmh
    channel, and in which no trip has two rows with the same time stamp,
    the rate-of-change builder returns, and in the frame it returns the
    rows are grouped by trip in order of first appearance and the columns
    acceleration_ms2 and, when a throttle channel is found,
    throttle_change_rate hold for every trip the feature computed from
    that trip's rows sorted by time: no difference is taken across two
    trips.  The frame of a trip is any frame the sort may give; with
    distinct time stamps there is one only. *)
Theorem create_rate_of_change_features_per_trip (df : ref) (h : heap)
  (frame : string -> table) :
  let t := deref h df in
  let trips := unique (trip_id t) in
  empty t = false ->
  in_columns (time_col_of t) t = true ->
  in_columns "speed_kmh" t = true ->
  distinct_time_stamps t ->
  (forall trip, In trip trips -> time_ordered_frame t trip (frame trip)) ->
  exists r h',
    create_rate_of_change_features df h = (Ok r, h')
    /\ trip_id (deref h' r)
       = flat_map (fun trip => trip_id (frame trip)) trips
    /\ column (deref h' r) "acceleration_ms2"
       = flat_map (fun trip =>
                     acceleration_ms2
                       (column (frame trip) (time_col_of t))
                       (column (frame trip) "speed_kmh")) trips
    /\ forall c, throttle_col_of t = Some c ->
         column (deref h' r) "throttle_change_rate"
         = flat_map (fun trip =>
                       throttle_change_rate
                         (diff (column (frame trip) (time_col_of t)))
                         (column (frame trip) c)) trips.
Proof.
  intros t trips Hne Htime Hspeed Hdist Hframe.
  destruct (@create_rate_of_change_features_frames df h Hne Htime Hspeed)
    as (r & h' & Hrun & Hid & Hacc & Hthr).
  fold t in Hid, Hacc, Hthr. fold trips in Hid, Hacc, Hthr.
  assert (Heq : forall trip, In trip trips -> frame trip = sorted_trip t trip).
  { intros trip Hin.
    rewrite (@time_ordered_frame_unique t trip (frame trip) Hdist
               (proj1 (unique_In trip (trip_id t)) Hin) (Hframe trip Hin)).
    rewrite trip_frame_cases, Htime. reflexivity. }
  exists r, h'. split; [exact Hrun |]. split; [| split].
  - rewrite Hid. apply flat_map_eq_in. intros trip Hin.
    rewrite (Heq trip Hin). reflexivity.
  - rewrite Hacc. apply flat_map_eq_in. intros trip Hin.
    rewrite (Heq trip Hin). reflexivity.
  - intros c Hc. rewrite (Hthr c Hc). apply flat_map_eq_in. intros trip Hin.
    rewrite (Heq trip Hin). reflexivity.
Qed.

Lemma create_rate_of_change_features_per_trip_witness :
  exists r h',
    create_rate_of_change_features 0%nat [two_trip_table] = (Ok r, h')
    /\ trip_id (deref h' r)
       = flat_map (fun trip => trip_id (trip_frame two_trip_table trip))
           (unique (trip_id two_trip_table))
    /\ column (deref h' r) "acceleration_ms2"
       = flat_map (fun trip =>
                     acceleration_ms2
                       (column (trip_frame two_trip_table trip)
                          (time_col_of two_trip_table))
                       (column (trip_frame two_trip_table trip) "speed_kmh"))
           (unique (trip_id two_trip_table))
    /\ forall c, throttle_col_of two_trip_table = Some c ->
         column (deref h' r) "throttle_change_rate"
         = flat_map (fun trip =>
                       throttle_change_rate
                         (diff (column (trip_frame two_trip_table trip)
                                  (time_col_of two_trip_table)))
                         (column (trip_frame two_trip_table trip) c))
             (unique (trip_id two_trip_table)).
Proof.
  apply (@create_rate_of_change_features_per_trip 0%nat [two_trip_table]
           (trip_frame two_trip_table)).
  - reflexivity.
  - reflexivity.
  - reflexivity.
  - exact two_trip_table_distinct_time_stamps.
  - intros trip _. apply time_ordered_trip_frame.
Defined.

(** X24: on a table that has rows and the load column, and in which no
    trip has two rows with the same time stamp, the target builder
    returns, never raising: the frame it returns is the concatenation of
    the per-trip frames, each sorted by time when the table has a time
    column, in which the target of horizon k is the load k rows later in
    the same trip, with the rows dropped in which a target is NaN; no
    target column of the result holds a NaN. *)
Theorem create_target_variables_per_trip (df : ref) (hs : list nat)
  (h : heap) (frame : string -> table) :
  let t := deref h df in
  let trips := unique (trip_id t) in
  empty t = false ->
  in_columns "powertrain_load_W" t = true ->
  distinct_time_stamps t ->
  (forall trip, In trip trips -> time_ordered_frame t trip (frame trip)) ->
  exists r h' full,
    create_target_variables df hs h = (Ok r, h')
    /\ deref h' r = dropna (map target_col_name hs) full
    /\ trip_id full = flat_map (fun trip => trip_id (frame trip)) trips
    /\ column full "powertrain_load_W"
       = flat_map (fun trip => column (frame trip) "powertrain_load_W") trips
    /\ (forall k, In k hs ->
          column full (target_col_name k)
          = flat_map (fun trip =>
                        future_load k (column (frame trip) "powertrain_load_W"))
              trips)
    /\ (forall k, In k hs ->
          all_defined (column (deref h' r) (target_col_name k))).
Proof.
  intros t trips Hne Hload Hdist Hframe.
  destruct (@create_target_variables_frames df hs h Hne Hload)
    as (r & h' & full & Hrun & Hres & Hid & Hl & Htar & Hdef).
  fold t in Hid, Hl, Htar. fold trips in Hid, Hl, Htar.
  assert (Heq : forall trip, In trip trips -> frame trip = trip_frame t trip).
  { intros trip Hin.
    apply (@time_ordered_frame_unique t trip (frame trip) Hdist
             (proj1 (unique_In trip (trip_id t)) Hin) (Hframe trip Hin)). }
  exists r, h', full. split; [exact Hrun |]. split; [exact Hres |].
  split; [| split; [| split]].
  - rewrite Hid. apply flat_map_eq_in. intros trip Hin.
    rewrite (Heq trip Hin). reflexivity.
  - rewrite Hl. apply flat_map_eq_in. intros trip Hin.
    rewrite (Heq trip Hin). reflexivity.
  - intros k Hk. rewrite (Htar k Hk). apply flat_map_eq_in. intros trip Hin.
    rewrite (Heq trip Hin). reflexivity.
  - exact Hdef.
Qed.

Lemma create_target_variables_per_trip_witness :
  exists r h' full,
    create_target_variables 0%nat [1%nat] [two_trip_table] = (Ok r, h')
    /\ deref h' r = dropna (map target_col_name [1%nat]) full
    /\ trip_id full
       = flat_map (fun trip => trip_id (trip_frame two_trip_table trip))
           (unique (trip_id two_trip_table))
    /\ column full "powertrain_load_W"
       = flat_map (fun trip =>
                     column (trip_frame two_trip_table trip) "powertrain_load_W")
           (unique (trip_id two_trip_table))
    /\ (forall k, In k [1%nat] ->
          column full (target_col_name k)
          = flat_map (fun trip =>
                        future_load k
                          (column (trip_frame two_trip_table trip)
                             "powertrain_load_W"))
              (unique (trip_id two_trip_table)))
    /\ (forall k, In k [1%nat] ->
          all_defined (column (deref h' r) (target_col_name k))).
Proof.
  apply (@create_target_variables_per_trip 0%nat [1%nat] [two_trip_table]
           (trip_frame two_trip_table)).
  - reflexivity.
  - reflexivity.
  - exact two_trip_table_distinct_time_stamps.
  - intros trip _. apply time_ordered_trip_frame.
Defined.

Lemma lag_loop_keys (f : string) (lags : list nat) :
  forall tv c, has_key c (cols tv) = true ->
               has_key c (cols (lag_loop f lags tv)) = true.
Proof.
  unfold lag_loop. induction lags as [| j lags IH]; intros tv c H; simpl.
  - exact H.
  - apply IH. rewrite has_key_with_column, H. apply orb_true_r.
Qed.

Lemma lag_loop_trip_id (f : string) (lags : list nat) :
  forall tv, trip_id (lag_loop f lags tv) = trip_id tv.
Proof.
  unfold lag_loop. induction lags as [| j lags IH]; intro tv; simpl.
  - reflexivity.
  - rewrite IH. reflexivity.
Qed.

(** A column keeps its value through the loop over the lags when every
    write to its name, if any, writes that value. *)
Lemma lag_loop_keep (f : string) (lags : list nat) :
  forall tv c col,
    (forall j, In j lags -> lag_col_name f j <> f) ->
    column tv c = col ->
    (forall j, In j lags -> lag_col_name f j = c ->
               shift (Z.of_nat j) (column tv f) = col) ->
    column (lag_loop f lags tv) c = col.
Proof.
  unfold lag_loop.
  induction lags as [| j lags IH]; intros tv c col Hsrc Hc Hsame; simpl.
  - exact Hc.
  - set (tv' := with_column (lag_col_name f j)
                  (shift (Z.of_nat j) (column tv f)) tv).
    assert (Hf : column tv' f = column tv f).
    { apply column_with_column_other. intro E. symmetry in E.
      exact (Hsrc j (or_introl eq_refl) E). }
    apply IH.
    + intros i Hi. apply Hsrc. right. exact Hi.
    + unfold tv'. destruct (String.eqb_spec c (lag_col_name f j)) as [-> | Hne].
      * rewrite column_with_column_same.
        apply Hsame; [left; reflexivity | reflexivity].
      * rewrite column_with_column_other by exact Hne. exact Hc.
    + intros i Hi Hname. rewrite Hf. apply Hsame; [right; exact Hi | exact Hname].
Qed.

Lemma lag_loop_written (f : string) (lags : list nat) (tv : table) (k : nat) :
  (forall j, In j lags -> lag_col_name f j <> f) ->
  (forall j, In j lags -> lag_col_name f j = lag_col_name f k -> j = k) ->
  In k lags ->
  column (lag_loop f lags tv) (lag_col_name f k)
  = shift (Z.of_nat k) (column tv f).
Proof.
  intros Hsrc Hinj. revert tv.
  induction lags as [| j lags IH]; intros tv Hin; [destruct Hin |].
  unfold lag_loop. simpl. fold (lag_loop f lags).
  set (tv' := with_column (lag_col_name f j)
                (shift (Z.of_nat j) (column tv f)) tv).
  assert (Hf : column tv' f = column tv f).
  { apply column_with_column_other. intro E. symmetry in E.
    exact (Hsrc j (or_introl eq_refl) E). }
  destruct (Nat.eq_dec j k) as [-> | Hne].
  - apply lag_loop_keep.
    + intros i Hi. apply Hsrc. right. exact Hi.
    + apply column_with_column_same.
    + intros i Hi Hname. rewrite Hf.
      rewrite (Hinj i (or_intror Hi) Hname). reflexivity.
  - destruct Hin as [E | Hin]; [congruence |].
    rewrite <- Hf. apply IH.
    + intros i Hi. apply Hsrc. right. exact Hi.
    + intros i Hi. apply Hinj. right. exact Hi.
    + exact Hin.
Qed.

Lemma lag_block_keys (features : list string) :
  forall tv c, has_key c (cols tv) = true ->
               has_key c (cols (lag_block features tv)) = true.
Proof.
  unfold lag_block. induction features as [| f fs IH]; intros tv c H; cbn [fold_left].
  - exact H.
  - apply IH. destruct (in_columns f tv); [apply lag_loop_keys |]; exact H.
Qed.

Lemma lag_block_trip_id (features : list string) :
  forall tv, trip_id (lag_block features tv) = trip_id tv.
Proof.
  unfold lag_block. induction features as [| f fs IH]; intro tv; cbn [fold_left].
  - reflexivity.
  - rewrite IH. destruct (in_columns f tv); [apply lag_loop_trip_id |];
      reflexivity.
Qed.

(** A column keeps its value through both loops when no write goes to its
    name, or every such write writes that value. *)
Lemma lag_block_keep (all_features : list string) :
  (forall f f' j, In f all_features -> In f' all_features ->
                  lag_col_name f' j <> f) ->
  forall features tv c col,
    incl features all_features ->
    column tv c = col ->
    (forall f j, In f features -> In j lag_periods ->
                 lag_col_name f j = c ->
                 shift (Z.of_nat j) (column tv f) = col) ->
    column (lag_block features tv) c = col.
Proof.
  intro Hsrc. unfold lag_block.
  induction features as [| f fs IH]; intros tv c col Hincl Hc Hsame; cbn [fold_left].
  - exact Hc.
  - assert (Hf : In f all_features) by (apply Hincl; left; reflexivity).
    set (tv' := if in_columns f tv then lag_loop f lag_periods tv else tv).
    assert (Hkeep : forall c' col',
              column tv c' = col' ->
              (forall j, In j lag_periods -> lag_col_name f j = c' ->
                         shift (Z.of_nat j) (column tv f) = col') ->
              column tv' c' = col').
    { intros c' col' Hc' Hs'. unfold tv'. destruct (in_columns f tv).
      - apply lag_loop_keep; [| exact Hc' | exact Hs'].
        intros j _. apply Hsrc; exact Hf.
      - exact Hc'. }
    apply IH.
    + intros x Hx. apply Hincl. right. exact Hx.
    + apply Hkeep; [exact Hc |].
      intros j Hj Hname. apply Hsame; [left; reflexivity | exact Hj | exact Hname].
    + intros f' j Hf' Hj Hname.
      rewrite (Hkeep f' (column tv f') eq_refl).
      * apply Hsame; [right; exact Hf' | exact Hj | exact Hname].
      * intros i _ E. exfalso.
        apply (Hsrc f' f i); [apply Hincl; right; exact Hf' | exact Hf | exact E].
Qed.

Lemma lag_block_written (all_features : list string) (k : nat) (f : string) :
  lag_names_distinct all_features ->
  In k lag_periods ->
  forall features tv,
    incl features all_features ->
    In f features ->
    in_columns f tv = true ->
    column (lag_block features tv) (lag_col_name f k)
    = shift (Z.of_nat k) (column tv f).
Proof.
  intros [Hsrc Hinj] Hk.
  induction features as [| f0 fs IH]; intros tv Hincl Hin Hcol;
    [destruct Hin |].
  assert (Hf0 : In f0 all_features) by (apply Hincl; left; reflexivity).
  assert (Hfs : incl fs all_features)
    by (intros x Hx; apply Hincl; right; exact Hx).
  assert (Hf : In f all_features) by (apply Hincl; exact Hin).
  unfold lag_block. cbn [fold_left]. fold (lag_block fs).
  set (tv' := if in_columns f0 tv then lag_loop f0 lag_periods tv else tv).
  assert (Hsrc0 : forall c, In c all_features -> column tv' c = column tv c).
  { intros c Hc. unfold tv'. destruct (in_columns f0 tv); [| reflexivity].
    apply lag_loop_keep.
    - intros j _. apply Hsrc; exact Hf0.
    - reflexivity.
    - intros j _ E. exfalso. exact (Hsrc c f0 j Hc Hf0 E). }
  destruct (String.eqb_spec f0 f) as [-> | Hne].
  - apply (@lag_block_keep all_features Hsrc fs tv' _ _ Hfs).
    + unfold tv'. rewrite Hcol. apply lag_loop_written.
      * intros j _. apply Hsrc; exact Hf.
      * intros j _ E. exact (proj2 (Hinj f f j k Hf Hf E)).
      * exact Hk.
    + intros f' j Hf' _ E.
      destruct (Hinj f f' j k Hf (Hfs f' Hf') E) as [-> ->].
      rewrite Hsrc0 by exact Hf. reflexivity.
  - destruct Hin as [E | Hin]; [congruence |].
    rewrite <- (Hsrc0 f Hf). apply IH; [exact Hfs | exact Hin |].
    unfold tv'. destruct (in_columns f0 tv) eqn:E0; [| exact Hcol].
    unfold in_columns in *. apply orb_true_iff in Hcol.
    destruct Hcol as [Hc | Hc]; [rewrite Hc; reflexivity |].
    rewrite (lag_loop_keys f0 lag_periods tv f Hc). apply orb_true_r.
Qed.

Lemma lag_loop_has_written (f : string) (lags : list nat) (k : nat) :
  forall tv, In k lags ->
             has_key (lag_col_name f k) (cols (lag_loop f lags tv)) = true.
Proof.
  induction lags as [| j lags IH]; intros tv Hin; [destruct Hin |].
  unfold lag_loop. cbn [fold_left]. fold (lag_loop f lags).
  destruct (Nat.eq_dec j k) as [-> | Hne].
  - apply lag_loop_keys. unfold with_column. simpl. apply has_key_assign.
  - destruct Hin as [E | Hin]; [congruence |]. apply IH. exact Hin.
Qed.

Lemma in_columns_lag_loop (f c : string) (lags : list nat) (tv : table) :
  in_columns c tv = true -> in_columns c (lag_loop f lags tv) = true.
Proof.
  unfold in_columns. intro H. apply orb_true_iff in H.
  destruct H as [H | H]; [rewrite H; reflexivity |].
  rewrite (lag_loop_keys f lags tv c H). apply orb_true_r.
Qed.

Lemma lag_block_has_written (k : nat) (f : string) :
  In k lag_periods ->
  forall features tv,
    In f features -> in_columns f tv = true ->
    has_key (lag_col_name f k) (cols (lag_block features tv)) = true.
Proof.
  intro Hk. induction features as [| f0 fs IH]; intros tv Hin Hcol;
    [destruct Hin |].
  unfold lag_block. cbn [fold_left]. fold (lag_block fs).
  destruct (String.eqb_spec f0 f) as [-> | Hne].
  - rewrite Hcol. apply lag_block_keys. apply lag_loop_has_written. exact Hk.
  - destruct Hin as [E | Hin]; [congruence |].
    apply IH; [exact Hin |].
    destruct (in_columns f0 tv); [apply in_columns_lag_loop |]; exact Hcol.
Qed.

Lemma run_lag_loop (f : string) (lags : list nat) :
  forall (hh : heap) (tv : table),
    has_key f (cols tv) = true ->
    for_each
      (fun lag =>
         col <- getcol (length hh) f ;;
         setcol (length hh) (lag_col_name f lag) (shift (Z.of_nat lag) col))
      lags (hh ++ [tv])
    = (Ok (map (fun _ => tt) lags), hh ++ [lag_loop f lags tv]).
Proof.
  induction lags as [| k lags IH]; intros hh tv Hk; [reflexivity |].
  simpl for_each.
  assert (Hbody :
    (col <- getcol (length hh) f ;;
     setcol (length hh) (lag_col_name f k) (shift (Z.of_nat k) col))
      (hh ++ [tv])
    = (Ok tt, hh ++ [with_column (lag_col_name f k)
                       (shift (Z.of_nat k) (column tv f)) tv])).
  { rewrite (@bind_run _ _ _ _ _ _ _
               (run_getcol_last hh tv _ (has_key_column _ _ Hk))).
    apply run_setcol_last. }
  rewrite (@bind_run _ _ _ _ _ _ _ Hbody).
  assert (Hk' : has_key f (cols (with_column (lag_col_name f k)
                                   (shift (Z.of_nat k) (column tv f)) tv))
                = true)
    by (rewrite has_key_with_column, Hk; apply orb_true_r).
  rewrite (@bind_run _ _ _ _ _ _ _ (IH hh _ Hk')). reflexivity.
Qed.

Lemma run_lag_block (features : list string) :
  (forall f, In f features -> String.eqb f "trip_id" = false) ->
  forall (hh : heap) (tv : table),
    for_each
      (fun feature =>
         tv <- read (length hh) ;;
         if in_columns feature tv then
           for_each
             (fun lag =>
                col <- getcol (length hh) feature ;;
                setcol (length hh) (lag_col_name feature lag)
                  (shift (Z.of_nat lag) col))
             lag_periods ;;
           ret tt
         else ret tt)
      features (hh ++ [tv])
    = (Ok (map (fun _ => tt) features), hh ++ [lag_block features tv]).
Proof.
  induction features as [| f fs IH]; intros Hid hh tv; [reflexivity |].
  simpl for_each.
  assert (Hbody :
    (tv <- read (length hh) ;;
     if in_columns f tv then
       for_each
         (fun lag =>
            col <- getcol (length hh) f ;;
            setcol (length hh) (lag_col_name f lag) (shift (Z.of_nat lag) col))
         lag_periods ;;
       ret tt
     else ret tt) (hh ++ [tv])
    = (Ok tt,
       hh ++ [if in_columns f tv then lag_loop f lag_periods tv else tv])).
  { rewrite (@bind_run _ _ _ _ _ _ _ (run_read_last hh tv)).
    destruct (in_columns f tv) eqn:E; [| reflexivity].
    assert (Hk : has_key f (cols tv) = true)
      by (apply in_columns_has_key; [apply Hid; left; reflexivity | exact E]).
    rewrite (@bind_run _ _ _ _ _ _ _ (@run_lag_loop f lag_periods hh tv Hk)).
    reflexivity. }
  rewrite (@bind_run _ _ _ _ _ _ _ Hbody).
  rewrite (@bind_run _ _ _ _ _ _ _
             (IH (fun x Hx => Hid x (or_intror Hx)) hh _)).
  reflexivity.
Qed.

Lemma lag_features_of_spec (t : table) (f : string) :
  In f (lag_features_of t) ->
  in_columns f t = true /\ String.eqb f "trip_id" = false.
Proof.
  unfold lag_features_of. intro H.
  repeat (apply in_app_or in H; destruct H as [H | H]).
  - destruct (in_columns "powertrain_load_W" t) eqn:E; [| destruct H].
    destruct H as [<- | []]. split; [exact E | reflexivity].
  - destruct (in_columns "speed_kmh" t) eqn:E; [| destruct H].
    destruct H as [<- | []]. split; [exact E | reflexivity].
  - destruct (in_columns "acceleration_ms2" t) eqn:E; [| destruct H].
    destruct H as [<- | []]. split; [exact E | reflexivity].
  - destruct (in_columns "throttle_pedal_%" t) eqn:E.
    + destruct H as [<- | []]. split; [exact E | reflexivity].
    + destruct (first_column _ t) as [c |] eqn:Ec; [| destruct H].
      destruct H as [<- | []].
      pose proof (@first_column_lookup _ t c eq_refl Ec) as [col Hcol].
      split.
      * unfold in_columns. rewrite (has_key_lookup _ _ Hcol). apply orb_true_r.
      * unfold first_column in Ec.
        assert (Hin : In c (filter (fun col => contains "throttle" (lower col)
                                              && contains "%" col)
                              (column_names t))).
        { destruct (filter _ (column_names t)) as [| x l]; [discriminate |].
          inversion Ec; subst. left. reflexivity. }
        apply filter_In in Hin. destruct Hin as [_ Hp].
        destruct (String.eqb_spec c "trip_id") as [-> | _];
          [discriminate | reflexivity].
Qed.

Lemma lagged_trip_appends (features : list string) (h : heap) (t : table)
  (trip : string) :
  (forall f, In f features -> String.eqb f "trip_id" = false) ->
  In trip (trip_id t) ->
  forall sfx, exists mid,
    lagged_trip features (length h) trip ((h ++ [t]) ++ sfx)
    = (Ok (Some (length ((h ++ [t]) ++ sfx ++ mid))),
       (h ++ [t]) ++ sfx ++ mid
       ++ [bfill_table (lag_block features (trip_frame t trip))]).
Proof.
  intros Hid Hin sfx.
  set (hh := (h ++ [t]) ++ sfx).
  assert (Hd : deref hh (length h) = t) by apply deref_copy_suffix.
  assert (Hne : empty (select_trip trip t) = false).
  { destruct (empty (select_trip trip t)) eqn:E; [| reflexivity].
    exfalso. exact (proj1 (empty_select_trip trip t) E Hin). }
  unfold lagged_trip.
  unfold bind at 1. unfold read at 1. rewrite Hd.
  unfold bind at 1. unfold new at 1.
  rewrite (@bind_run _ _ _ _ _ _ _ (run_read_last hh (select_trip trip t))).
  rewrite Hne. cbv zeta.
  unfold trip_frame. cbv zeta.
  destruct (in_columns (time_col_of (select_trip trip t)) (select_trip trip t)).
  - set (s := sort_values (time_col_of (select_trip trip t))
                (select_trip trip t)).
    exists [select_trip trip t; lag_block features s].
    unfold bind at 1. unfold new at 1.
    rewrite (@bind_run _ _ _ _ _ _ _
               (@run_lag_block features Hid (hh ++ [select_trip trip t]) s)).
    rewrite (@bind_run _ _ _ _ _ _ _
               (run_read_last (hh ++ [select_trip trip t])
                  (lag_block features s))).
    unfold bind, new, ret, hh. f_equal.
    + do 2 f_equal. rewrite !length_app. simpl. lia.
    + rewrite <- !app_assoc. reflexivity.
  - exists [lag_block features (select_trip trip t)].
    unfold bind at 1. unfold ret at 1.
    rewrite (@bind_run _ _ _ _ _ _ _
               (@run_lag_block features Hid hh (select_trip trip t))).
    rewrite (@bind_run _ _ _ _ _ _ _
               (run_read_last hh (lag_block features (select_trip trip t)))).
    unfold bind, new, ret, hh. f_equal.
    + do 2 f_equal. rewrite !length_app. simpl. lia.
    + rewrite <- !app_assoc. reflexivity.
Qed.

Lemma create_lagged_features_run_general (df : ref) (h : heap) :
  let t := deref h df in
  empty t = false ->
  lag_features_of t <> [] ->
  exists r h',
    create_lagged_features df h = (Ok r, h')
    /\ deref h' r
       = concat (map (fun trip =>
                        bfill_table (lag_block (lag_features_of t)
                                       (trip_frame t trip)))
                   (unique (trip_id t))).
Proof.
  intros t Hne Hfeat.
  assert (Hids : trip_id t <> [])
    by (unfold empty in Hne; destruct (trip_id t); [discriminate | congruence]).
  assert (Hid : forall f, In f (lag_features_of t) ->
                          String.eqb f "trip_id" = false)
    by (intros f Hf; apply (lag_features_of_spec t f Hf)).
  destruct (@concat_per_trip (lagged_trip (lag_features_of t) (length h))
              (fun trip => bfill_table (lag_block (lag_features_of t)
                                          (trip_frame t trip)))
              (h ++ [t]) (fun trip => In trip (trip_id t))
              (fun trip sfx Hin =>
                 @lagged_trip_appends (lag_features_of t) h t trip Hid Hin sfx)
              (unique (trip_id t)) (unique_nonempty Hids)
              (unique_all_In (trip_id t)))
    as (processed & h' & Hfor & Happ & Hconcat & _).
  unfold create_lagged_features.
  unfold bind at 1. unfold read at 1. fold t.
  rewrite Hne.
  destruct (lag_features_of t) as [| f fs] eqn:Ef; [congruence |].
  unfold copy.
  unfold bind at 1. unfold bind at 1. unfold read at 1. fold t.
  unfold new at 1.
  rewrite (@bind_run _ _ _ _ _ _ _ (run_read_last h t)).
  rewrite (@bind_run _ _ _ _ _ _ _ Hfor).
  destruct (appended processed) as [| r rs] eqn:E; [congruence |].
  rewrite Hconcat. do 2 eexists. split; [reflexivity |]. apply deref_new.
Qed.

Lemma bfill_table_keys (t : table) :
  map fst (cols (bfill_table t)) = map fst (cols t).
Proof.
  unfold bfill_table. simpl. rewrite map_map. apply map_ext. intros [c col].
  reflexivity.
Qed.

Lemma append_inj_r (f : string) :
  forall a b, (f ++ a = f ++ b)%string -> a = b.
Proof.
  induction f as [| c f IH]; intros a b H; simpl in H.
  - exact H.
  - injection H as H. exact (IH _ _ H).
Qed.

(** Features whose names hold no "_lag" get lag names that are pairwise
    distinct and differ from every feature name. *)
Lemma plain_lag_names_distinct (features : list string) :
  (forall f, In f features -> contains "_lag" f = false) ->
  lag_names_distinct features.
Proof.
  intro Hplain. split.
  - intros f f' j Hf Hf' E.
    pose proof (proj1 (@lag_name_parts f' j (Hplain f' Hf'))) as Hc.
    rewrite E, (Hplain f Hf) in Hc. discriminate.
  - intros f f' j k Hf Hf' E.
    pose proof (proj2 (@lag_name_parts f' j (Hplain f' Hf'))) as H1.
    pose proof (proj2 (@lag_name_parts f k (Hplain f Hf))) as H2.
    rewrite E, H2 in H1. subst f'. split; [reflexivity |].
    unfold lag_col_name in E. apply append_inj_r in E.
    simpl in E. repeat (injection E as E). apply str_inj. exact E.
Qed.

(** ... and for the lag builder. *)
Lemma create_lagged_features_frames (df : ref) (h : heap) :
  let t := deref h df in
  let trips := unique (trip_id t) in
  empty t = false ->
  lag_features_of t <> [] ->
  (forall f, In f (lag_features_of t) -> contains "_lag" f = false) ->
  exists r h',
    create_lagged_features df h = (Ok r, h')
    /\ trip_id (deref h' r)
       = flat_map (fun trip => trip_id (trip_frame t trip)) trips
    /\ (forall f k, In f (lag_features_of t) -> In k lag_periods ->
          column (deref h' r) (lag_col_name f k)
          = flat_map (fun trip => lag_column k (column (trip_frame t trip) f))
              trips)
    /\ (forall c, has_key c (cols t) = true ->
          (forall f k, In f (lag_features_of t) -> In k lag_periods ->
                       lag_col_name f k <> c) ->
          column (deref h' r) c
          = flat_map (fun trip => bfill (column (trip_frame t trip) c)) trips).
Proof.
  intros t trips Hne Hfeat Hplain.
  pose proof (@plain_lag_names_distinct (lag_features_of t) Hplain) as Hdist.
  destruct (@create_lagged_features_run_general df h Hne Hfeat)
    as (r & h' & Hrun & Hres).
  fold t in Hres. fold trips in Hres.
  assert (Hids : trips <> []).
  { unfold trips. apply unique_nonempty. unfold empty in Hne.
    destruct (trip_id t); [discriminate | congruence]. }
  set (out := fun trip => bfill_table (lag_block (lag_features_of t)
                                         (trip_frame t trip))) in *.
  assert (Hmap : map out trips <> [])
    by (destruct trips; [congruence | discriminate]).
  assert (Hcol : forall f trip, In f (lag_features_of t) ->
                                in_columns f (trip_frame t trip) = true).
  { intros f trip Hf.
    rewrite (@same_keys_in_columns _ t _ (trip_frame_keys t trip)).
    apply (lag_features_of_spec t f Hf). }
  exists r, h'. split; [exact Hrun |]. rewrite Hres.
  split; [| split].
  - unfold concat. simpl. apply flat_map_map_in. intros trip _.
    unfold out, bfill_table. simpl. apply lag_block_trip_id.
  - intros f k Hf Hk. rewrite column_concat.
    + apply flat_map_map_in. intros trip _. unfold out.
      rewrite column_bfill_table. unfold lag_column. f_equal.
      apply (@lag_block_written (lag_features_of t) k f Hdist Hk).
      * apply incl_refl.
      * exact Hf.
      * apply Hcol. exact Hf.
    + exact Hmap.
    + intros x Hx. apply in_map_iff in Hx. destruct Hx as (trip & <- & _).
      unfold out.
      rewrite (@same_keys_has_key _ _ _ (bfill_table_keys _)).
      apply lag_block_has_written; [exact Hk | exact Hf |].
      apply Hcol. exact Hf.
  - intros c Hc Hother. rewrite column_concat.
    + apply flat_map_map_in. intros trip _. unfold out.
      rewrite column_bfill_table. f_equal.
      apply (@lag_block_keep (lag_features_of t) (proj1 Hdist)).
      * apply incl_refl.
      * reflexivity.
      * intros f j Hf Hj E. exfalso. exact (Hother f j Hf Hj E).
    + exact Hmap.
    + intros x Hx. apply in_map_iff in Hx. destruct Hx as (trip & <- & _).
      unfold out.
      rewrite (@same_keys_has_key _ _ _ (bfill_table_keys _)).
      apply lag_block_keys.
      rewrite (@same_keys_has_key _ t _ (trip_frame_keys t trip)). exact Hc.
Qed.

(** X23: on a table that has rows and at least one feature to lag, the
    names of these features holding no "_lag", and in which no trip has
    two rows with the same time stamp, the lag builder returns, and in
    the frame it returns every lag column holds, trip after trip, the lag
    column of that trip's feature values in time order; every other
    channel of the table comes back back-filled within each trip. *)
Theorem create_lagged_features_per_trip (df : ref) (h : heap)
  (frame : string -> table) :
  let t := deref h df in
  let trips := unique (trip_id t) in
  empty t = false ->
  lag_features_of t <> [] ->
  (forall f, In f (lag_features_of t) -> contains "_lag" f = false) ->
  distinct_time_stamps t ->
  (forall trip, In trip trips -> time_ordered_frame t trip (frame trip)) ->
  exists r h',
    create_lagged_features df h = (Ok r, h')
    /\ trip_id (deref h' r)
       = flat_map (fun trip => trip_id (frame trip)) trips
    /\ (forall f k, In f (lag_features_of t) -> In k lag_periods ->
          column (deref h' r) (lag_col_name f k)
          = flat_map (fun trip => lag_column k (column (frame trip) f))
              trips)
    /\ (forall c, has_key c (cols t) = true ->
          (forall f k, In f (lag_features_of t) -> In k lag_periods ->
                       lag_col_name f k <> c) ->
          column (deref h' r) c
          = flat_map (fun trip => bfill (column (frame trip) c)) trips).
Proof.
  intros t trips Hne Hfeat Hplain Hdist Hframe.
  destruct (@create_lagged_features_frames df h Hne Hfeat Hplain)
    as (r & h' & Hrun & Hid & Hlag & Hkeep).
  fold t in Hid, Hlag, Hkeep. fold trips in Hid, Hlag, Hkeep.
  assert (Heq : forall trip, In trip trips -> frame trip = trip_frame t trip).
  { intros trip Hin.
    apply (@time_ordered_frame_unique t trip (frame trip) Hdist
             (proj1 (unique_In trip (trip_id t)) Hin) (Hframe trip Hin)). }
  exists r, h'. split; [exact Hrun |]. split; [| split].
  - rewrite Hid. apply flat_map_eq_in. intros trip Hin.
    rewrite (Heq trip Hin). reflexivity.
  - intros f k Hf Hk. rewrite (Hlag f k Hf Hk). apply flat_map_eq_in.
    intros trip Hin. rewrite (Heq trip Hin). reflexivity.
  - intros c Hc Hother. rewrite (Hkeep c Hc Hother). apply flat_map_eq_in.
    intros trip Hin. rewrite (Heq trip Hin). reflexivity.
Qed.

Lemma create_lagged_features_per_trip_witness :
  exists r h',
    create_lagged_features 0%nat [two_trip_table] = (Ok r, h')
    /\ trip_id (deref h' r)
       = flat_map (fun trip => trip_id (trip_frame two_trip_table trip))
           (unique (trip_id two_trip_table))
    /\ (forall f k, In f (lag_features_of two_trip_table) ->
          In k lag_periods ->
          column (deref h' r) (lag_col_name f k)
          = flat_map (fun trip =>
                        lag_column k (column (trip_frame two_trip_table trip) f))
              (unique (trip_id two_trip_table)))
    /\ (forall c, has_key c (cols two_trip_table) = true ->
          (forall f k, In f (lag_features_of two_trip_table) ->
                       In k lag_periods -> lag_col_name f k <> c) ->
          column (deref h' r) c
          = flat_map (fun trip =>
                        bfill (column (trip_frame two_trip_table trip) c))
              (unique (trip_id two_trip_table))).
Proof.
  apply (@create_lagged_features_per_trip 0%nat [two_trip_table]
           (trip_frame two_trip_table)).
  - reflexivity.
  - discriminate.
  - intros f [<- | [<- | []]]; reflexivity.
  - exact two_trip_table_distinct_time_stamps.
  - intros trip _. apply time_ordered_trip_frame.
Defined.

Lemma cell_le_total (a b : cell) : cell_le a b = false -> cell_le b a = true.
Proof.
  destruct a as [x |], b as [y |]; simpl; try discriminate; try reflexivity.
  destruct (Rle_dec x y); [discriminate |]. intros _.
  destruct (Rle_dec y x); [reflexivity | lra].
Qed.

Lemma insert_by_sorted (key : nat -> cell) (i : nat) (l : list nat) :
  LocallySorted (fun a b => cell_le (key a) (key b) = true) l ->
  LocallySorted (fun a b => cell_le (key a) (key b) = true) (insert_by key i l).
Proof.
  induction 1 as [| a | a b l Hl IH Hab]; simpl.
  - constructor.
  - destruct (cell_le (key i) (key a)) eqn:E.
    + constructor; [constructor | exact E].
    + constructor; [constructor | apply cell_le_total; exact E].
  - destruct (cell_le (key i) (key a)) eqn:E.
    + constructor; [constructor; assumption | exact E].
    + simpl in IH. destruct (cell_le (key i) (key b)) eqn:E'.
      * constructor; [exact IH | apply cell_le_total; exact E].
      * constructor; [exact IH | exact Hab].
Qed.

Lemma argsort_sorted (col : list cell) :
  LocallySorted (fun a b => cell_le (nth a col None) (nth b col None) = true)
    (argsort col).
Proof.
  unfold argsort. induction (seq 0 (length col)) as [| i l IH]; simpl.
  - constructor.
  - apply (@insert_by_sorted (fun i => nth i col None)). exact IH.
Qed.

Lemma map_nth_seq (col : list cell) :
  map (fun i => nth i col None) (seq 0 (length col)) = col.
Proof.
  induction col as [| a col IH]; simpl; [reflexivity |].
  rewrite <- seq_shift, map_map. simpl. rewrite IH. reflexivity.
Qed.

Lemma ascending_map (key : nat -> cell) (l : list nat) :
  LocallySorted (fun a b => cell_le (key a) (key b) = true) l ->
  ascending (map key l).
Proof.
  unfold ascending. induction 1; simpl; constructor; assumption.
Qed.

Lemma ascending_nondecreasing (col : list cell) :
  ascending col -> nondecreasing col.
Proof.
  unfold ascending. induction 1 as [| a | a b l Hl IH Hab].
  - exact I.
  - exact I.
  - split; [| exact IH].
    destruct a as [x |], b as [y |]; try exact I.
    simpl in Hab. destruct (Rle_dec x y); [assumption | discriminate].
Qed.

Lemma column_sort_values (c k : string) (t : table) :
  has_key c (cols t) = true ->
  column (sort_values k t) c
  = map (fun i => nth i (column t c) None) (argsort (column t k)).
Proof.
  unfold sort_values. cbv zeta. generalize (argsort (column t k)) as order.
  intro order. unfold column. simpl. unfold has_key.
  induction (cols t) as [| [n col] d IH]; simpl; [discriminate |].
  destruct (String.eqb c n); [reflexivity | exact IH].
Qed.

Lemma sort_values_ascending (c : string) (t : table) :
  has_key c (cols t) = true ->
  let sorted_col := column (sort_values c t) c in
  ascending sorted_col
  /\ nondecreasing sorted_col
  /\ Permutation sorted_col (column t c).
Proof.
  intros Hk sorted_col. unfold sorted_col.
  rewrite (@column_sort_values c c t Hk).
  assert (Hasc : ascending (map (fun i => nth i (column t c) None)
                              (argsort (column t c))))
    by (apply ascending_map, argsort_sorted).
  split; [exact Hasc |]. split; [apply ascending_nondecreasing; exact Hasc |].
  rewrite <- (map_nth_seq (column t c)) at 2.
  apply Permutation_map, argsort_perm.
Qed.

(** X19: when the table has a time column, the frame of a trip that the
    builders work on is the trip's rows sorted by time: its time column
    is in ascending order, NaN last, and is a rearrangement of the time
    stamps of the trip's rows. *)
Theorem trip_frame_time_order (t : table) (trip : string) :
  in_columns (time_col_of t) t = true ->
  let time_col := time_col_of t in
  trip_frame t trip = sorted_trip t trip
  /\ ascending (column (trip_frame t trip) time_col)
  /\ nondecreasing (column (trip_frame t trip) time_col)
  /\ Permutation (column (trip_frame t trip) time_col)
       (column (select_trip trip t) time_col).
Proof.
  intros Htime time_col.
  assert (Hkeys : map fst (cols (select_trip trip t)) = map fst (cols t))
    by apply select_keys.
  assert (Htc : time_col_of (select_trip trip t) = time_col)
    by (apply same_keys_time_col; exact Hkeys).
  assert (Hframe : trip_frame t trip = sorted_trip t trip).
  { unfold trip_frame, sorted_trip. cbv zeta. rewrite Htc.
    rewrite (@same_keys_in_columns _ t _ Hkeys). fold time_col.
    unfold time_col. rewrite Htime. reflexivity. }
  split; [exact Hframe |]. rewrite Hframe. unfold sorted_trip.
  fold time_col. apply sort_values_ascending.
  rewrite (@same_keys_has_key _ t _ Hkeys).
  destruct (time_col_of_cases t) as [E | E]; unfold time_col; rewrite E in *;
    (apply in_columns_has_key; [reflexivity | exact Htime]).
Qed.

Lemma trip_frame_time_order_witness :
  trip_frame two_trip_table "A01" = sorted_trip two_trip_table "A01"
  /\ ascending (column (trip_frame two_trip_table "A01")
                  (time_col_of two_trip_table))
  /\ nondecreasing (column (trip_frame two_trip_table "A01")
                      (time_col_of two_trip_table))
  /\ Permutation (column (trip_frame two_trip_table "A01")
                    (time_col_of two_trip_table))
       (column (select_trip "A01" two_trip_table)
          (time_col_of two_trip_table)).
Proof.
  apply (@trip_frame_time_order two_trip_table "A01"). reflexivity.
Defined.

Lemma lookup_select (mask : list bool) (t : table) (c : string) :
  lookup c (cols (select mask t))
  = option_map (mask_filter mask) (lookup c (cols t)).
Proof.
  unfold select. simpl.
  induction (cols t) as [| [c' col] d IH]; simpl; [reflexivity |].
  destruct (String.eqb c c'); [reflexivity | exact IH].
Qed.

Lemma time_col_of_with_load (col : list cell) (t : table) :
  time_col_of (with_column "powertrain_load_W" col t) = time_col_of t
  /\ lookup (time_col_of t) (cols (with_column "powertrain_load_W" col t))
     = lookup (time_col_of t) (cols t).
Proof.
  assert (H : forall c, c = "time_s"%string \/ c = "timestamp"%string ->
                        c <> "powertrain_load_W"%string)
    by (intros c [-> | ->]; discriminate).
  split.
  - unfold time_col_of, in_columns. rewrite has_key_with_column. reflexivity.
  - apply lookup_with_column_other. apply H. apply time_col_of_cases.
Qed.

(** X20: when a voltage and a current channel are found, the load column
    written into the table is their product row by row.  With rows of
    trip 'A01' and a time column (time_s, else timestamp) the function
    returns the 0.90 quantile of that column; with rows of trip 'A01' and
    neither time column it raises KeyError 'timestamp', as the plot of the
    sample trip reads the time column; without rows of trip 'A01' it
    returns None.  In all three cases the column has been written. *)
Theorem create_powertrain_load_feature_threshold
  (quantile : R -> list cell -> cell) (df : ref) (h : heap) (v c : string) :
  let t := deref h df in
  let load := map2 cmul (column t v) (column t c) in
  (df < length h)%nat ->
  voltage_col_of t = Some v ->
  current_col_of t = Some c ->
  column (deref (snd (create_powertrain_load_feature quantile df h)) df)
    "powertrain_load_W" = load
  /\ (In "A01"%string (trip_id t) ->
      in_columns (time_col_of t) t = true ->
      fst (create_powertrain_load_feature quantile df h)
      = Ok (Some (quantile 0.90 load)))
  /\ (In "A01"%string (trip_id t) ->
      in_columns (time_col_of t) t = false ->
      fst (create_powertrain_load_feature quantile df h)
      = KeyError "timestamp")
  /\ (~ In "A01"%string (trip_id t) ->
      fst (create_powertrain_load_feature quantile df h) = Ok None).
Proof.
  intros t load Hdf Ev Ec. subst load t.
  destruct (@voltage_col_lookup _ v Ev) as [vcol Hv].
  destruct (@current_col_lookup _ c Ec) as [ccol Hc].
  set (load := map2 cmul (column (deref h df) v) (column (deref h df) c)).
  set (t' := with_column "powertrain_load_W" load (deref h df)).
  pose proof (@create_powertrain_load_feature_effect quantile df h Hdf) as Heff.
  cbv zeta in Heff. rewrite Ev, Ec in Heff.
  fold load in Heff. fold t' in Heff.
  assert (Hempty : empty (select_trip "A01" t') = true
                   <-> ~ In "A01"%string (trip_id (deref h df)))
    by apply (empty_select_trip "A01" t').
  set (sample := select_trip "A01" t').
  assert (Hfst : fst (create_powertrain_load_feature quantile df h)
                 = if negb (empty sample) then
                     match lookup (time_col_of sample) (cols sample) with
                     | Some _ => Ok (Some (quantile 0.90 load))
                     | None => KeyError (time_col_of sample)
                     end
                   else Ok None).
  { unfold sample, t', load, column. rewrite Hv, Hc.
    unfold create_powertrain_load_feature, getcol, setcol, bind, read, write,
      new, ret, raise.
    cbn beta iota. rewrite Ev, Ec. cbn beta iota. rewrite Hv.
    cbn beta iota. rewrite Hc.
    cbn beta iota. rewrite deref_update_nth by exact Hdf.
    rewrite !deref_new.
    destruct (negb _); [| reflexivity].
    rewrite !deref_new.
    destruct (lookup (time_col_of _) _); [| reflexivity].
    cbn beta iota. rewrite !deref_new.
    unfold select_trip at 1. rewrite lookup_select, lookup_with_column_same.
    cbn [option_map]. cbn beta iota.
    do 2 (rewrite !deref_app_old by (rewrite update_nth_length; exact Hdf);
          rewrite !deref_update_nth by exact Hdf;
          rewrite lookup_with_column_same; cbn beta iota).
    reflexivity. }
  assert (Hkeys : map fst (cols sample) = map fst (cols t'))
    by apply select_keys.
  assert (Htc : time_col_of sample = time_col_of (deref h df)).
  { rewrite (@same_keys_time_col _ t' Hkeys).
    apply time_col_of_with_load. }
  assert (Hlk : lookup (time_col_of sample) (cols sample)
                = option_map (mask_filter (map (String.eqb "A01") (trip_id t')))
                    (lookup (time_col_of (deref h df)) (cols (deref h df)))).
  { rewrite Htc. unfold sample, select_trip. rewrite lookup_select.
    unfold t'. rewrite (proj2 (time_col_of_with_load load (deref h df))).
    reflexivity. }
  assert (Hin : In "A01"%string (trip_id (deref h df)) ->
                negb (empty sample) = true).
  { intro Hin. destruct (empty sample) eqn:E; [| reflexivity].
    exfalso. exact (proj1 Hempty E Hin). }
  split; [| split; [| split]].
  - rewrite Heff.
    rewrite deref_app_old by (rewrite update_nth_length; exact Hdf).
    rewrite deref_update_nth by exact Hdf.
    apply column_with_column_same.
  - intros Hi Htime. rewrite Hfst, (Hin Hi), Hlk.
    destruct (time_col_of_cases (deref h df)) as [E | E]; rewrite E in *;
      (match type of Htime with
       | in_columns ?k ?t = true =>
           destruct (@in_columns_lookup k t eq_refl Htime) as [col Hcol]
       end; rewrite Hcol; reflexivity).
  - intros Hi Htime.
    assert (Hts : time_col_of (deref h df) = "timestamp"%string).
    { destruct (time_col_of_cases (deref h df)) as [E | E]; [| exact E].
      exfalso. rewrite E in Htime. unfold time_col_of in E.
      rewrite Htime in E. discriminate. }
    rewrite Hfst, (Hin Hi), Hlk, Htc. rewrite Hts in *.
    rewrite (@has_key_lookup_none _ "timestamp" (cols (deref h df)));
      [reflexivity |].
    unfold in_columns in Htime. apply orb_false_iff in Htime. apply Htime.
  - intro Hnin. rewrite Hfst. unfold sample.
    rewrite (proj2 Hempty Hnin). reflexivity.
Qed.

Lemma create_powertrain_load_feature_threshold_witness :
  fst (create_powertrain_load_feature (fun _ _ => Some 8000) 0%nat
         [timed_two_row_table])
  = Ok (Some (Some 8000)).
Proof.
  refine (proj1 (proj2 (@create_powertrain_load_feature_threshold
                          (fun _ _ => Some 8000) 0%nat [timed_two_row_table]
                          "battery_voltage_V" "battery_current_A" _ _ _))
            _ _).
  - simpl. lia.
  - reflexivity.
  - reflexivity.
  - left. reflexivity.
  - reflexivity.
Defined.

(** Without a time column the plot of the sample trip fails, after the
    load column has been written. *)
Lemma create_powertrain_load_feature_without_time :
  fst (create_powertrain_load_feature (fun _ _ => Some 8000) 0%nat
         [two_row_table])
  = KeyError "timestamp".
Proof. reflexivity. Qed.

(** ** Tables without rows *)

(** X25: on a table without rows the rate-of-change, lag and target
    builders return the very table they were given, the lag and target
    builders without touching the store, and the partitioner and the
    simulator return None. *)
Theorem builders_on_empty_table (df : ref) (h : heap) :
  let t := deref h df in
  empty t = true ->
  fst (create_rate_of_change_features df h) = Ok df
  /\ create_lagged_features df h = (Ok df, h)
  /\ (forall future_horizons,
         create_target_variables df future_horizons h = (Ok df, h))
  /\ (forall prediction_horizon,
         prepare_data_for_modeling t prediction_horizon = None)
  /\ (forall model threshold feature_list test_trip_ids,
         simulate_complete_trip t model threshold feature_list test_trip_ids
         = None).
Proof.
  intros t Hempty.
  assert (Hids : trip_id t = []).
  { unfold empty in Hempty. destruct (trip_id t); [reflexivity | discriminate]. }
  split; [| split; [| split; [| split]]].
  - unfold create_rate_of_change_features, copy.
    unfold bind at 1. unfold bind at 1. unfold read at 1. fold t.
    unfold new at 1.
    rewrite (@bind_run _ _ _ _ _ _ _ (run_read_last h t)).
    rewrite Hids. reflexivity.
  - unfold create_lagged_features, bind, read. fold t. rewrite Hempty.
    reflexivity.
  - intro hs. unfold create_target_variables, bind, read. fold t.
    rewrite Hempty. reflexivity.
  - intro hzn. unfold prepare_data_for_modeling. rewrite Hempty. reflexivity.
  - intros model thr fl ids. unfold simulate_complete_trip. cbv zeta.
    rewrite empty_test_trip_of.
    rewrite (proj2 (empty_select_trip (hd "B30"%string ids) t)); [reflexivity |].
    rewrite Hids. intros [].
Qed.

Lemma builders_on_empty_table_witness :
  fst (create_rate_of_change_features 0%nat [no_table]) = Ok 0%nat
  /\ create_lagged_features 0%nat [no_table] = (Ok 0%nat, [no_table])
  /\ (forall future_horizons,
         create_target_variables 0%nat future_horizons [no_table]
         = (Ok 0%nat, [no_table]))
  /\ (forall prediction_horizon,
         prepare_data_for_modeling (deref [no_table] 0%nat) prediction_horizon
         = None)
  /\ (forall model threshold feature_list test_trip_ids,
         simulate_complete_trip (deref [no_table] 0%nat) model threshold
           feature_list test_trip_ids
         = None).
Proof.
  apply (@builders_on_empty_table 0%nat [no_table]). reflexivity.
Defined.
